(** * go-vmdk: the extent catalogue, the descriptor parser and the read path

    A shallow embedding of [parser/context.go] and of the flat extent of the
    repository, with the properties of its specification stated over it.

    Conventions of the embedding.
    - Go's [int64] (and [int], 64 bits wide on the supported targets) is a [Z]
      with the wrap-around written out, see [Int64].
    - A Go [string] is a sequence of bytes: [string] of the Standard Library.
      A [[]byte] is a [list byte].
    - A function that may panic returns a [run]; a function returning
      [(T, error)] that may also panic returns an [outcome]. *)

From Stdlib Require Import ZArith String Ascii Bool Lia List.
From Stdlib Require Import Init.Byte.
Import ListNotations.

Set Implicit Arguments.
Open Scope Z_scope.

(** ** Machine integers *)

Module Int64.

Definition min_int : Z := - 2 ^ 63.
Definition max_int : Z := 2 ^ 63 - 1.

Definition in_range (z : Z) : Prop := min_int <= z <= max_int.

(** Two's complement wrap-around of Go's signed 64-bit arithmetic. *)
Definition wrap (z : Z) : Z := (z + 2 ^ 63) mod 2 ^ 64 - 2 ^ 63.

Definition add (a b : Z) : Z := wrap (a + b).
Definition sub (a b : Z) : Z := wrap (a - b).
Definition mul (a b : Z) : Z := wrap (a * b).

End Int64.

(** ** Errors, panics *)

(** [io.EOF] is a sentinel compared by identity; every other error is a
    message, possibly wrapping another error ([fmt.Errorf] with [%w]). *)
Inductive error : Type :=
| EOF
| ErrMsg (msg : string)
| ErrWrap (msg : string) (inner : error).

(** [err != nil && err != io.EOF] *)
Definition is_real_error (err : option error) : bool :=
  match err with
  | None => false
  | Some EOF => false
  | Some _ => true
  end.

Inductive run (A : Type) : Type :=
| Returns (a : A)
| Panics (msg : string).
Arguments Returns {A} a.
Arguments Panics {A} msg.

Inductive outcome (A : Type) : Type :=
| Ok (a : A)
| Err (e : error)
| Panic (msg : string).
Arguments Ok {A} a.
Arguments Err {A} e.
Arguments Panic {A} msg.

Definition bind {A B : Type} (m : outcome A) (k : A -> outcome B) : outcome B :=
  match m with
  | Ok a => k a
  | Err e => Err e
  | Panic msg => Panic msg
  end.

Declare Scope outcome_scope.
Delimit Scope outcome_scope with outcome.
Notation "x <- m ;; k" := (bind m (fun x => k))
  (at level 61, m at next level, right associativity) : outcome_scope.
Notation "' pat <- m ;; k" := (bind m (fun x => match x with pat => k end))
  (at level 61, pat pattern, m at next level, right associativity) : outcome_scope.

(** ** Byte buffers and slices *)

Definition Buffer : Type := list byte.

Definition blen (b : Buffer) : Z := Z.of_nat (length b).

(** [b[lo:hi]] for [0 <= lo <= hi <= len b]. *)
Definition slice (b : Buffer) (lo hi : Z) : Buffer :=
  firstn (Z.to_nat (hi - lo)) (skipn (Z.to_nat lo) b).

(** The array [b] after the window starting at [lo] has been overwritten
    with [sub] (a slice shares its array with the slice it was cut from). *)
Definition splice (b : Buffer) (lo : Z) (sub : Buffer) : Buffer :=
  firstn (Z.to_nat lo) b ++ sub ++ skipn (Z.to_nat lo + length sub) b.

Definition zeros (n : nat) : Buffer := repeat x00 n.

(** [for i := 0; i < len(buf); i++ { buf[i] = 0 }] on a slice of length [n]
    cut from the front of the array [b]. *)
Definition zero_fill (b : Buffer) (n : Z) : Buffer :=
  zeros (Nat.min (Z.to_nat n) (length b)) ++ skipn (Z.to_nat n) b.

(** ** Readers and closers *)

(** An [io.ReaderAt]. [reader_at len off] is what a read of [len] bytes at
    offset [off] delivers: the bytes (at most [len] of them count) and the
    error. [reader_scratch p off] is the buffer [p] as the call leaves it:
    a reader may use all of [p] as scratch space, so the bytes of [p]
    beyond the ones read are the reader's to change. The readers of this
    program are files that nobody writes, so a reader is a pair of
    functions. *)
Record ReaderAt : Type := mkReaderAt {
  reader_at : nat -> Z -> list byte * option error;
  reader_scratch : Buffer -> Z -> Buffer
}.

(** [n, err := r.ReadAt(p, off)]: the first [n] bytes of [p] are the bytes
    read; the rest of [p] is what the reader has left there. A call cannot
    change the length of [p]. *)
Definition io_ReadAt (r : ReaderAt) (p : Buffer) (off : Z)
  : Buffer * Z * option error :=
  let '(data, err) := reader_at r (length p) off in
  let d := firstn (length p) data in
  let q := reader_scratch r p off in
  let q := if (length q =? length p)%nat then q else p in
  (d ++ skipn (length d) q, blen d, err).

(** A reader over the bytes of a file, as [bytes.Reader] and [os.File]
    behave: they leave the bytes of [p] that they have not read as they
    were. *)
Definition FileReader (content : list byte) : ReaderAt :=
  mkReaderAt (fun len off =>
    if off <? 0 then ([], Some (ErrMsg "negative offset"))
    else if off >=? blen content then ([], Some EOF)
    else
      let d := firstn len (skipn (Z.to_nat off) content) in
      (d, if (length d <? len)%nat then Some EOF else None))
    (fun p _ => p).

(** What a closer releases is recorded in a log: the world of this model. *)
Definition World : Type := list string.

Definition Closer : Type := World -> World.

(** ** The flat extent *)

Definition SECTOR_SIZE : Z := 512.
Definition SPARSE_MAGICNUMBER : Z := 0x564d444b.

Record FlatExtentHeader : Type := mkFlatExtentHeader {
  Reader : ReaderAt;
  Offset : Z
}.

Record FlatExtent : Type := mkFlatExtent {
  flat_reader : ReaderAt;
  flat_header : FlatExtentHeader;
  flat_total_size : Z;
  flat_offset : Z;
  flat_filename : string;
  flat_closer : option Closer
}.

(** [FlatExtent.Close]: the closer runs when there is one; the extent itself
    is left as it was. *)
Definition FlatExtent_Close (self : FlatExtent) (w : World) : FlatExtent * World :=
  match flat_closer self with
  | Some closer => (self, closer w)
  | None => (self, w)
  end.

Definition FlatExtent_TotalSize (self : FlatExtent) : Z := flat_total_size self.

Definition FlatExtent_VirtualOffset (self : FlatExtent) : Z := flat_offset self.

Definition FlatExtent_ReadAt (self : FlatExtent) (buf : Buffer) (offset : Z)
  : Buffer * Z * option error :=
  if (offset <? 0) || (offset >=? flat_total_size self) then (buf, 0, Some EOF)
  else
    let toRead := blen buf in
    let toRead :=
      if Int64.add offset toRead >? flat_total_size self
      then Int64.sub (flat_total_size self) offset
      else toRead in
    let fileOffset := Int64.add (Offset (flat_header self)) offset in
    let '(sub, n, err) :=
      io_ReadAt (flat_reader self) (firstn (Z.to_nat toRead) buf) fileOffset in
    (sub ++ skipn (Z.to_nat toRead) buf, n, err).

Definition GetFlatExtent (reader : ReaderAt) (filename : string)
    (offsetSectors sectors virtualOffset : Z) (closer : option Closer)
  : outcome FlatExtent :=
  let flatExtentHeader :=
    {| Reader := reader; Offset := Int64.mul offsetSectors SECTOR_SIZE |} in
  Ok {| flat_reader := reader;
        flat_header := flatExtentHeader;
        flat_offset := virtualOffset;
        flat_total_size := Int64.mul sectors SECTOR_SIZE;
        flat_filename := filename;
        flat_closer := closer |}.

(** ** Sparse and null extents

    The sparse extent is declared in a file of the package that is not
    modelled here. Of a sparse extent the context uses the fields that
    [GetVMDKContext] and [normalizeExtents] assign and its [ReadAt], carried
    here as two fields: what a read delivers and what it leaves in the
    buffer, as for a [ReaderAt]. *)
Record SparseExtent : Type := mkSparseExtent {
  sparse_offset : Z;
  sparse_total_size : Z;
  sparse_filename : string;
  sparse_closer : option Closer;
  sparse_read : nat -> Z -> list byte * option error;
  sparse_scratch : Buffer -> Z -> Buffer
}.

Definition SparseExtent_ReadAt (self : SparseExtent) (buf : Buffer) (offset : Z)
  : Buffer * Z * option error :=
  io_ReadAt (mkReaderAt (sparse_read self) (sparse_scratch self)) buf offset.

(** Modelled from the spec: [SparseExtent.Close] is declared with the
    sparse extent; close "releases the backing reader if this extent owns
    one", "double-close on an extent is a no-op", and the way to it is
    "nulling the closer after it runs". *)
Definition SparseExtent_Close (self : SparseExtent) (w : World) : SparseExtent * World :=
  match sparse_closer self with
  | Some closer =>
      ({| sparse_offset := sparse_offset self;
          sparse_total_size := sparse_total_size self;
          sparse_filename := sparse_filename self;
          sparse_closer := None;
          sparse_read := sparse_read self;
          sparse_scratch := sparse_scratch self |}, closer w)
  | None => (self, w)
  end.

(** A null extent is a sparse extent of which only [offset] and
    [total_size] are set. *)
Record NullExtent : Type := mkNullExtent {
  null_offset : Z;
  null_total_size : Z
}.

(** Modelled from the spec: [NullExtent.ReadAt] is declared with the
    sparse extent; a null extent's "read_at clamps to its total_size and
    writes zeros". *)
Definition NullExtent_ReadAt (self : NullExtent) (buf : Buffer) (offset : Z)
  : Buffer * Z * option error :=
  if (offset <? 0) || (offset >=? null_total_size self) then (buf, 0, Some EOF)
  else
    let n := Z.min (blen buf) (null_total_size self - offset) in
    (zero_fill buf n, n, None).

(** The [Extent] interface, as the closed set of its implementations. *)
Inductive Extent : Type :=
| Flat (e : FlatExtent)
| Sparse (e : SparseExtent)
| Null (e : NullExtent).

Definition VirtualOffset (e : Extent) : Z :=
  match e with
  | Flat f => FlatExtent_VirtualOffset f
  | Sparse s => sparse_offset s
  | Null n => null_offset n
  end.

Definition TotalSize (e : Extent) : Z :=
  match e with
  | Flat f => FlatExtent_TotalSize f
  | Sparse s => sparse_total_size s
  | Null n => null_total_size n
  end.

Definition Extent_ReadAt (e : Extent) (buf : Buffer) (offset : Z)
  : Buffer * Z * option error :=
  match e with
  | Flat f => FlatExtent_ReadAt f buf offset
  | Sparse s => SparseExtent_ReadAt s buf offset
  | Null n => NullExtent_ReadAt n buf offset
  end.

Definition Extent_Close (e : Extent) (w : World) : Extent * World :=
  match e with
  | Flat f => let '(f', w') := FlatExtent_Close f w in (Flat f', w')
  | Sparse s => let '(s', w') := SparseExtent_Close s w in (Sparse s', w')
  | Null n => (Null n, w)
  end.

(** ** The descriptor's settings *)

Record VMDKConfig : Type := mkVMDKConfig {
  VMDKVersion : string;
  VMDKEncoding : string;
  VMDKCid : string;
  VMDKParentCid : string;
  VMDKCreateType : string;
  DBBAdatperType : string;
  DBBGeometryCylinders : string;
  DBBGeometryHeads : string;
  DBBGeometrySectors : string;
  DBBLongContentId : string;
  DBBUuid : string;
  DBBVirtualHWVersion : string
}.

Definition NewVMDKConfig : VMDKConfig :=
  {| VMDKVersion := "1";
     VMDKEncoding := "windows-1252";
     VMDKCid := "0";
     VMDKParentCid := "0";
     VMDKCreateType := "unknown";
     DBBAdatperType := "lsilogic";
     DBBGeometryCylinders := "0";
     DBBGeometryHeads := "0";
     DBBGeometrySectors := "0";
     DBBLongContentId := "";
     DBBUuid := "";
     DBBVirtualHWVersion := "" |}.

(** The map from a key to its setter, as an association list. *)
Definition VMDKConfigSetters (config : VMDKConfig)
  : list (string * (string -> VMDKConfig)) :=
  let c := config in
  [ ("version"%string, fun val =>
      mkVMDKConfig val (VMDKEncoding c) (VMDKCid c) (VMDKParentCid c) (VMDKCreateType c)
        (DBBAdatperType c) (DBBGeometryCylinders c) (DBBGeometryHeads c)
        (DBBGeometrySectors c) (DBBLongContentId c) (DBBUuid c) (DBBVirtualHWVersion c));
    ("encoding"%string, fun val =>
      mkVMDKConfig (VMDKVersion c) val (VMDKCid c) (VMDKParentCid c) (VMDKCreateType c)
        (DBBAdatperType c) (DBBGeometryCylinders c) (DBBGeometryHeads c)
        (DBBGeometrySectors c) (DBBLongContentId c) (DBBUuid c) (DBBVirtualHWVersion c));
    ("CID"%string, fun val =>
      mkVMDKConfig (VMDKVersion c) (VMDKEncoding c) val (VMDKParentCid c) (VMDKCreateType c)
        (DBBAdatperType c) (DBBGeometryCylinders c) (DBBGeometryHeads c)
        (DBBGeometrySectors c) (DBBLongContentId c) (DBBUuid c) (DBBVirtualHWVersion c));
    ("parentCID"%string, fun val =>
      mkVMDKConfig (VMDKVersion c) (VMDKEncoding c) (VMDKCid c) val (VMDKCreateType c)
        (DBBAdatperType c) (DBBGeometryCylinders c) (DBBGeometryHeads c)
        (DBBGeometrySectors c) (DBBLongContentId c) (DBBUuid c) (DBBVirtualHWVersion c));
    ("createType"%string, fun val =>
      mkVMDKConfig (VMDKVersion c) (VMDKEncoding c) (VMDKCid c) (VMDKParentCid c) val
        (DBBAdatperType c) (DBBGeometryCylinders c) (DBBGeometryHeads c)
        (DBBGeometrySectors c) (DBBLongContentId c) (DBBUuid c) (DBBVirtualHWVersion c));
    ("ddb.adapterType"%string, fun val =>
      mkVMDKConfig (VMDKVersion c) (VMDKEncoding c) (VMDKCid c) (VMDKParentCid c)
        (VMDKCreateType c) val (DBBGeometryCylinders c) (DBBGeometryHeads c)
        (DBBGeometrySectors c) (DBBLongContentId c) (DBBUuid c) (DBBVirtualHWVersion c));
    ("ddb.geometry.cylinders"%string, fun val =>
      mkVMDKConfig (VMDKVersion c) (VMDKEncoding c) (VMDKCid c) (VMDKParentCid c)
        (VMDKCreateType c) (DBBAdatperType c) val (DBBGeometryHeads c)
        (DBBGeometrySectors c) (DBBLongContentId c) (DBBUuid c) (DBBVirtualHWVersion c));
    ("ddb.geometry.heads"%string, fun val =>
      mkVMDKConfig (VMDKVersion c) (VMDKEncoding c) (VMDKCid c) (VMDKParentCid c)
        (VMDKCreateType c) (DBBAdatperType c) (DBBGeometryCylinders c) val
        (DBBGeometrySectors c) (DBBLongContentId c) (DBBUuid c) (DBBVirtualHWVersion c));
    ("ddb.geometry.sectors"%string, fun val =>
      mkVMDKConfig (VMDKVersion c) (VMDKEncoding c) (VMDKCid c) (VMDKParentCid c)
        (VMDKCreateType c) (DBBAdatperType c) (DBBGeometryCylinders c)
        (DBBGeometryHeads c) val (DBBLongContentId c) (DBBUuid c) (DBBVirtualHWVersion c));
    ("ddb.longContentID"%string, fun val =>
      mkVMDKConfig (VMDKVersion c) (VMDKEncoding c) (VMDKCid c) (VMDKParentCid c)
        (VMDKCreateType c) (DBBAdatperType c) (DBBGeometryCylinders c)
        (DBBGeometryHeads c) (DBBGeometrySectors c) val (DBBUuid c) (DBBVirtualHWVersion c));
    ("ddb.uuid"%string, fun val =>
      mkVMDKConfig (VMDKVersion c) (VMDKEncoding c) (VMDKCid c) (VMDKParentCid c)
        (VMDKCreateType c) (DBBAdatperType c) (DBBGeometryCylinders c)
        (DBBGeometryHeads c) (DBBGeometrySectors c) (DBBLongContentId c) val
        (DBBVirtualHWVersion c));
    ("ddb.virtualHWVersion"%string, fun val =>
      mkVMDKConfig (VMDKVersion c) (VMDKEncoding c) (VMDKCid c) (VMDKParentCid c)
        (VMDKCreateType c) (DBBAdatperType c) (DBBGeometryCylinders c)
        (DBBGeometryHeads c) (DBBGeometrySectors c) (DBBLongContentId c) (DBBUuid c) val) ].

Fixpoint assoc {A : Type} (key : string) (m : list (string * A)) : option A :=
  match m with
  | [] => None
  | (k, v) :: rest => if String.eqb k key then Some v else assoc key rest
  end.

(** ** The context *)

Record VMDKContext : Type := mkVMDKContext {
  config : VMDKConfig;
  reader : ReaderAt;
  extents : list Extent;
  total_size : Z
}.

Definition Size (self : VMDKContext) : Z := total_size self.

(** [VMDKContext.Close]: every extent of the list is closed, first to last. *)
Fixpoint Close_loop (es : list Extent) (w : World) : list Extent * World :=
  match es with
  | [] => ([], w)
  | i :: rest =>
      let '(i', w') := Extent_Close i w in
      let '(rest', w'') := Close_loop rest w' in
      (i' :: rest', w'')
  end.

Definition VMDKContext_Close (self : VMDKContext) (w : World) : VMDKContext * World :=
  let '(es, w') := Close_loop (extents self) w in
  (mkVMDKContext (config self) (reader self) es (total_size self), w').

(** [sort.Search]: the binary search of Go's library,
    [for i < j { h := int(uint(i+j) >> 1); if !f(h) { i = h + 1 } else { j = h } }].
    The indices stay within [0, n], so they are natural numbers here; the
    interval shrinks at every turn, so [n] turns are enough. *)
Fixpoint Search_loop (fuel : nat) (i j : nat) (f : nat -> bool) : nat :=
  match fuel with
  | O => i
  | S fuel' =>
      if (i <? j)%nat then
        let h := Nat.div2 (i + j) in
        if negb (f h) then Search_loop fuel' (h + 1)%nat j f
        else Search_loop fuel' i h f
      else i
  end.

Definition sort_Search (n : nat) (f : nat -> bool) : nat := Search_loop n 0%nat n f.

Definition getExtentForOffset (self : VMDKContext) (offset : Z) : outcome Extent :=
  let n := sort_Search (length (extents self)) (fun i =>
    match nth_error (extents self) i with
    | Some extent =>
        let virtual_offset := VirtualOffset extent in
        virtual_offset >? offset
    | None => false
    end) in
  if (n <? 1)%nat || (length (extents self) <? n)%nat then Err EOF
  else
    match nth_error (extents self) (n - 1) with
    | None => Panic "index out of range"
    | Some extent =>
        let virtual_offset := VirtualOffset extent in
        let extent_size := TotalSize extent in
        if (virtual_offset >? offset)
           || (Int64.add virtual_offset extent_size <? offset)
        then Err EOF
        else Ok extent
    end.

Fixpoint normalize_loop (es : list Extent) (extents : list Extent) (offset : Z)
  : list Extent :=
  match es with
  | [] => extents
  | e :: rest =>
      let extents :=
        if VirtualOffset e >? offset
        then extents ++ [Null {| null_offset := offset;
                                 null_total_size := Int64.sub (VirtualOffset e) offset |}]
        else extents in
      normalize_loop rest (extents ++ [e]) (Int64.add offset (TotalSize e))
  end.

Definition normalizeExtents (self : VMDKContext) : VMDKContext :=
  mkVMDKContext (config self) (reader self)
    (normalize_loop (extents self) [] 0) (total_size self).

(** The loop of [VMDKContext.ReadAt]. [arr] is the array under [buf],
    [len] is [len(buf)] after the clamp, [buf_len] the length on entry.
    Every turn that goes on has read at least one byte, so [buf_len] turns
    are enough; [None] stands for a loop that has not finished within
    [fuel] turns. *)
Fixpoint ReadAt_loop (fuel : nat) (self : VMDKContext) (arr : Buffer)
    (len buf_len offset i : Z) : option (run (Buffer * Z * option error)) :=
  match fuel with
  | O => None
  | S fuel' =>
      if i <? buf_len then
        match getExtentForOffset self (Int64.add offset i) with
        | Panic msg => Some (Panics msg)
        | Err _ =>
            (* Missing extent - zero pad it *)
            Some (Returns (zero_fill arr len, len, None))
        | Ok extent =>
            let index_in_extent :=
              Int64.sub (Int64.add offset i) (VirtualOffset extent) in
            let available_length := Int64.sub (TotalSize extent) index_in_extent in
            let to_read := buf_len - i in
            let to_read :=
              if to_read >? available_length then available_length else to_read in
            if to_read <? 0 then Some (Panics "slice bounds out of range")
            else
              let '(sub, n, err) :=
                Extent_ReadAt extent (slice arr i (i + to_read)) index_in_extent in
              let arr' := splice arr i sub in
              if is_real_error err then Some (Returns (arr', i, err))
              else if n =? 0 then Some (Returns (arr', i, None))
              else ReadAt_loop fuel' self arr' len buf_len offset (i + n)
        end
      else Some (Returns (arr, i, None))
  end.

Definition VMDKContext_ReadAt (self : VMDKContext) (buf : Buffer) (offset : Z)
  : run (Buffer * Z * option error) :=
  let i := 0 in
  let buf_len := blen buf in
  if (offset >? total_size self) || (offset <? 0) then Returns (buf, 0, Some EOF)
  else
    let available_length := Int64.sub (total_size self) offset in
    let len := if blen buf >? available_length then available_length else blen buf in
    match ReadAt_loop (S (length buf)) self buf len buf_len offset i with
    | Some r => r
    | None => Panics "unreachable"
    end.

(** ** Strings *)

Module Str.

Open Scope string_scope.

(** [strings.Split(s, "\n")] *)
Fixpoint Split_newline (s : string) : list string :=
  match s with
  | EmptyString => [EmptyString]
  | String c rest =>
      if Ascii.eqb c "010" then EmptyString :: Split_newline rest
      else
        match Split_newline rest with
        | [] => [String c EmptyString]
        | l :: ls => String c l :: ls
        end
  end.

(** [strings.HasPrefix(s, p)], also [regexp.MustCompile("^" + p).MatchString(s)]
    for a literal [p]. *)
Definition HasPrefix (s p : string) : bool := String.prefix p s.

(** [strings.Contains(s, sub)] *)
Fixpoint Contains (s sub : string) : bool :=
  HasPrefix s sub ||
  match s with
  | EmptyString => false
  | String _ rest => Contains rest sub
  end.

Fixpoint drop (n : nat) (s : string) : string :=
  match n, s with
  | O, _ => s
  | S n', String _ rest => drop n' rest
  | S _, EmptyString => EmptyString
  end.

Fixpoint rev_onto (s acc : string) : string :=
  match s with
  | EmptyString => acc
  | String c rest => rev_onto rest (String c acc)
  end.

Definition rev (s : string) : string := rev_onto s EmptyString.

(** The runes [unicode.IsSpace] accepts, in UTF-8: tab, line feed,
    vertical tab, form feed, carriage return, space, U+0085, U+00A0,
    U+1680, U+2000 to U+200A, U+2028, U+2029, U+202F, U+205F, U+3000. *)
Definition of_codes (codes : list nat) : string :=
  fold_right (fun n s => String (ascii_of_nat n) s) EmptyString codes.

Definition space_runes : list string :=
  map of_codes
    [ [9]; [10]; [11]; [12]; [13]; [32];
      [194; 133]; [194; 160];
      [225; 154; 128];
      [226; 128; 128]; [226; 128; 129]; [226; 128; 130]; [226; 128; 131];
      [226; 128; 132]; [226; 128; 133]; [226; 128; 134]; [226; 128; 135];
      [226; 128; 136]; [226; 128; 137]; [226; 128; 138];
      [226; 128; 168]; [226; 128; 169]; [226; 128; 175];
      [226; 129; 159];
      [227; 128; 128] ]%nat.

(** The length of the space rune [s] starts with, if it starts with one. *)
Fixpoint leading_space (runes : list string) (s : string) : option nat :=
  match runes with
  | [] => None
  | r :: rest =>
      if HasPrefix s r then Some (String.length r) else leading_space rest s
  end.

Fixpoint TrimLeft_loop (fuel : nat) (s : string) : string :=
  match fuel with
  | O => s
  | S fuel' =>
      match leading_space space_runes s with
      | Some (S n) => TrimLeft_loop fuel' (drop (S n) s)
      | _ => s
      end
  end.

Definition TrimLeftSpace (s : string) : string := TrimLeft_loop (String.length s) s.

Definition rev_runes : list string := map rev space_runes.

Fixpoint TrimRight_loop (fuel : nat) (r : string) : string :=
  match fuel with
  | O => r
  | S fuel' =>
      match leading_space rev_runes r with
      | Some (S n) => TrimRight_loop fuel' (drop (S n) r)
      | _ => r
      end
  end.

Definition TrimRightSpace (s : string) : string :=
  rev (TrimRight_loop (String.length s) (rev s)).

(** [strings.TrimSpace(s)] *)
Definition TrimSpace (s : string) : string := TrimRightSpace (TrimLeftSpace s).

Fixpoint TrimLeft_char (c : ascii) (s : string) : string :=
  match s with
  | String c' rest => if Ascii.eqb c' c then TrimLeft_char c rest else s
  | EmptyString => s
  end.

(** [strings.Trim(s, cutset)] for a cutset of one ASCII character. *)
Definition Trim_char (s : string) (c : ascii) : string :=
  rev (TrimLeft_char c (rev (TrimLeft_char c s))).

(** [strings.SplitN(s, "=", 2)] *)
Fixpoint SplitN_eq_2 (s : string) : list string :=
  match s with
  | EmptyString => [EmptyString]
  | String c rest =>
      if Ascii.eqb c "=" then [EmptyString; rest]
      else
        match SplitN_eq_2 rest with
        | l :: ls => String c l :: ls
        | [] => [String c EmptyString]
        end
  end.

(** The longest prefix of [s] whose characters satisfy [p], and the rest. *)
Fixpoint span (p : ascii -> bool) (s : string) : string * string :=
  match s with
  | EmptyString => (EmptyString, EmptyString)
  | String c rest =>
      if p c then let '(a, b) := span p rest in (String c a, b)
      else (EmptyString, s)
  end.

End Str.

(** ** The extent line *)

Definition dquote : ascii := "034".

Definition is_digit (c : ascii) : bool :=
  (48 <=? nat_of_ascii c)%nat && (nat_of_ascii c <=? 57)%nat.

Definition is_upper (c : ascii) : bool :=
  (65 <=? nat_of_ascii c)%nat && (nat_of_ascii c <=? 90)%nat.

Definition not_quote (c : ascii) : bool := negb (Ascii.eqb c dquote).

(** One literal character. *)
Definition expect (c : ascii) (s : string) : option string :=
  match s with
  | String c' rest => if Ascii.eqb c' c then Some rest else None
  | EmptyString => None
  end.

(** [p+], greedy: the longest run of [p], which must not be empty. *)
Definition plus (p : ascii -> bool) (s : string) : option (string * string) :=
  match Str.span p s with
  | (EmptyString, _) => None
  | (a, b) => Some (a, b)
  end.

(** [(?: (\d+))?], greedy: the group and what is left of the line. *)
Definition opt_offset (s : string) : string * string :=
  match expect " " s with
  | Some s1 =>
      match plus is_digit s1 with
      | Some (g5, _) => (g5, String " " g5)
      | None => (EmptyString, EmptyString)
      end
  | None => (EmptyString, EmptyString)
  end.

(** The rest of [ExtentRegex] after the access mode [g1]; below, [Q] stands
    for the double quote: [ (\d+) ([A-Z]+) Q([^Q]+)Q(?: (\d+))?]. *)
Definition ExtentRegex_tail (g1 : string) (s : string) : option (list string) :=
  match expect " " s with
  | None => None
  | Some s1 =>
  match plus is_digit s1 with
  | None => None
  | Some (g2, s2) =>
  match expect " " s2 with
  | None => None
  | Some s3 =>
  match plus is_upper s3 with
  | None => None
  | Some (g3, s4) =>
  match expect " " s4 with
  | None => None
  | Some s5 =>
  match expect dquote s5 with
  | None => None
  | Some s6 =>
  match plus not_quote s6 with
  | None => None
  | Some (g4, s7) =>
  match expect dquote s7 with
  | None => None
  | Some s8 =>
      let '(g5, tail) := opt_offset s8 in
      let whole :=
        (g1 ++ " " ++ g2 ++ " " ++ g3 ++ " " ++ String dquote g4
            ++ String dquote tail)%string in
      Some [whole; g1; g2; g3; g4; g5]
  end end end end end end end end.

(** [ExtentRegex], [(RW|R) (\d+) ([A-Z]+) Q([^Q]+)Q(?: (\d+))?], tried at
    the start of [s]: the alternatives of [(RW|R)] in their order. *)
Definition ExtentRegex_at (s : string) : option (list string) :=
  let try_R :=
    if Str.HasPrefix s "R" then ExtentRegex_tail "R" (Str.drop 1 s) else None in
  if Str.HasPrefix s "RW" then
    match ExtentRegex_tail "RW" (Str.drop 2 s) with
    | Some m => Some m
    | None => try_R
    end
  else try_R.

(** [ExtentRegex.FindStringSubmatch(s)]: the leftmost match, [nil] when
    there is none. *)
Fixpoint FindStringSubmatch (s : string) : list string :=
  match ExtentRegex_at s with
  | Some m => m
  | None =>
      match s with
      | EmptyString => []
      | String _ rest => FindStringSubmatch rest
      end
  end.

(** [match[k]] *)
Definition group (m : list string) (k : nat) : string := nth k m EmptyString.

(** ** Integers of the descriptor *)

Fixpoint digits_value (s : string) (acc : Z) : option Z :=
  match s with
  | EmptyString => Some acc
  | String c rest =>
      if is_digit c
      then digits_value rest (10 * acc + (Z.of_nat (nat_of_ascii c) - 48))
      else None
  end.

(** [strconv.ParseInt(s, 10, 64)]: an optional sign, then digits, within
    the range of [int64]. The messages are those of [strconv], without the
    quotes around the string. *)
Definition strconv_ParseInt (s : string) : Z + error :=
  let syntax := inr (ErrMsg ("strconv.ParseInt: parsing " ++ s ++ ": invalid syntax")) in
  let range := inr (ErrMsg ("strconv.ParseInt: parsing " ++ s ++ ": value out of range")) in
  match s with
  | EmptyString => syntax
  | String c rest =>
      let neg := Ascii.eqb c "-" in
      let body := if Ascii.eqb c "+" || neg then rest else s in
      match body with
      | EmptyString => syntax
      | _ =>
          match digits_value body 0 with
          | None => syntax
          | Some un =>
              if negb neg && (un >=? 2 ^ 63) then range
              else if neg && (un >? 2 ^ 63) then range
              else inl (if neg then - un else un)
          end
      end
  end.

(** [ParseInt] of [parser/context.go]: panics on a string that is not an
    integer. *)
Definition ParseInt (s : string) : outcome Z :=
  match strconv_ParseInt s with
  | inl n => Ok n
  | inr _ => Panic ("Invalid integer in descriptor: " ++ s)
  end.

(** ** Opening a disk *)

Inductive State : Type := INIT | KDMV | Descriptor | Extents | DiskDataBase.

Definition saveDescriptorSetting (line : string) (config : VMDKConfig) : VMDKConfig :=
  match Str.SplitN_eq_2 line with
  | [part0; part1] =>
      let key := Str.TrimSpace part0 in
      let val := Str.Trim_char (Str.TrimSpace part1) dquote in
      match assoc key (VMDKConfigSetters config) with
      | Some setter => setter val
      | None => config
      end
  | _ => config
  end.

(** [binary.LittleEndian.Uint32(b)] for a [b] of four bytes. *)
Definition Uint32 (b : Buffer) : Z :=
  let at_ k := Z.of_N (Stdlib.Strings.Byte.to_N (nth k b x00)) in
  Z.lor (Z.lor (Z.lor (at_ 0%nat) (Z.shiftl (at_ 1%nat) 8)) (Z.shiftl (at_ 2%nat) 16))
        (Z.shiftl (at_ 3%nat) 24).

Definition Opener : Type := string -> outcome (ReaderAt * option Closer).

(** The variables of the loop over the lines of [GetVMDKContext]: [state],
    and the fields of [res] and [config] that the loop assigns. *)
Record Parse : Type := mkParse {
  state : State;
  p_config : VMDKConfig;
  p_extents : list Extent;
  p_total_size : Z
}.

Section Open.

(** [GetSparseExtent] decodes a sparse header; it is declared with the
    sparse extent and the context only takes its result. *)
Variable GetSparseExtent : ReaderAt -> outcome SparseExtent.

Variable opener : Opener.

Open Scope outcome_scope.

(** The [case "Extents"] of the switch, on a line that matched. *)
Definition add_extent (p : Parse) (m : list string) : outcome Parse :=
  let extent_type := group m 3 in
  let extent_filename := group m 4 in
  '(reader, closer) <- opener extent_filename ;;
  if String.eqb extent_type "SPARSE" then
    match GetSparseExtent reader with
    | Panic msg => Panic msg
    | Err err => Err (ErrWrap ("While opening " ++ extent_filename) err)
    | Ok extent =>
        let extent :=
          {| sparse_offset := p_total_size p;
             sparse_total_size := sparse_total_size extent;
             sparse_filename := extent_filename;
             sparse_closer := closer;
             sparse_read := sparse_read extent;
             sparse_scratch := sparse_scratch extent |} in
        Ok (mkParse (state p) (p_config p)
              (p_extents p ++ [Sparse extent])
              (Int64.add (p_total_size p) (sparse_total_size extent)))
    end
  else if String.eqb extent_type "FLAT" then
    sectors <- ParseInt (group m 2) ;;
    let extent_filename := group m 4 in
    offsetSectors <- ParseInt (group m 5) ;;
    match GetFlatExtent reader extent_filename offsetSectors sectors
            (p_total_size p) closer with
    | Panic msg => Panic msg
    | Err err => Err (ErrWrap ("While opening flat extent " ++ extent_filename) err)
    | Ok extent =>
        Ok (mkParse (state p) (p_config p)
              (p_extents p ++ [Flat extent])
              (Int64.add (p_total_size p) (FlatExtent_TotalSize extent)))
    end
  else Err (ErrMsg ("Unsupported extent type " ++ extent_type)).

Definition set_state (p : Parse) (s : State) : Parse :=
  mkParse s (p_config p) (p_extents p) (p_total_size p).

Definition set_config (p : Parse) (c : VMDKConfig) : Parse :=
  mkParse (state p) c (p_extents p) (p_total_size p).

(** The body of the loop over the lines. *)
Definition step (p : Parse) (line : string) : outcome Parse :=
  let line := Str.TrimSpace line in
  if Str.HasPrefix line "# Disk DescriptorFile" then Ok (set_state p Descriptor)
  else if Str.HasPrefix line "# Extent description" then Ok (set_state p Extents)
  else if Str.HasPrefix line "# The Disk Data Base" then Ok (set_state p DiskDataBase)
  else
    match state p with
    | KDMV =>
        if Str.Contains line "# Disk DescriptorFile"
        then Ok (set_state p Descriptor) else Ok p
    | Descriptor => Ok (set_config p (saveDescriptorSetting line (p_config p)))
    | Extents =>
        match FindStringSubmatch line with
        | [] => Ok (set_state p INIT)
        | m => add_extent p m
        end
    | DiskDataBase => Ok (set_config p (saveDescriptorSetting line (p_config p)))
    | INIT => Ok p
    end.

Fixpoint lines_loop (p : Parse) (lines : list string) : outcome Parse :=
  match lines with
  | [] => Ok p
  | line :: rest => p' <- step p line ;; lines_loop p' rest
  end.

Definition GetVMDKContext (reader : ReaderAt) (size : Z) : outcome VMDKContext :=
  let config := NewVMDKConfig in
  let size := if size >? 64 * 1024 then 64 * 1024 else size in
  if size <? 0 then Panic "makeslice: len out of range"
  else
    let buf := zeros (Z.to_nat size) in
    let '(buf, n, err) := io_ReadAt reader buf 0 in
    if is_real_error err then
      match err with Some e => Err e | None => Panic "unreachable" end
    else if blen buf <? 4 then Panic "slice bounds out of range"
    else
      let state :=
        if Uint32 (slice buf 0 4) =? SPARSE_MAGICNUMBER then KDMV else INIT in
      let text := string_of_list_byte (slice buf 0 n) in
      p <- lines_loop (mkParse state config [] 0) (Str.Split_newline text) ;;
      Ok (normalizeExtents
            (mkVMDKContext (p_config p) reader (p_extents p) (p_total_size p))).

End Open.

(** ** The variant of [GetVMDKContext] that knows no settings

    The repository holds a second [context.go], which reads only the extent
    section, returns the errors of [parseInt] and takes [VMFS] with [FLAT].
    Its context has no [config] field: the record of this file carries the
    defaults there. *)
Module Permissive.

Inductive State : Type := INIT | Extents.

Definition parseInt (s : string) : outcome Z :=
  match strconv_ParseInt s with
  | inl n => Ok n
  | inr err => Err err
  end.

Record Parse : Type := mkParse {
  state : State;
  p_extents : list Extent;
  p_total_size : Z
}.

Section Open.

Variable GetSparseExtent : ReaderAt -> outcome SparseExtent.

Variable opener : Opener.

Open Scope outcome_scope.

Definition add_extent (p : Parse) (m : list string) : outcome Parse :=
  sectors <- parseInt (group m 2) ;;
  let extent_type := group m 3 in
  let extent_filename := group m 4 in
  offsetSectors <-
    (if (6 <=? length m)%nat && negb (String.eqb (group m 5) "")
     then
       match parseInt (group m 5) with
       | Err err => Err (ErrWrap "error occured while parsing offsetSectors" err)
       | r => r
       end
     else Ok 0%Z) ;;
  '(reader, closer) <- opener extent_filename ;;
  if String.eqb extent_type "SPARSE" then
    match GetSparseExtent reader with
    | Panic msg => Panic msg
    | Err err => Err (ErrWrap ("while opening " ++ extent_filename) err)
    | Ok extent =>
        let extent :=
          {| sparse_offset := p_total_size p;
             sparse_total_size := sparse_total_size extent;
             sparse_filename := extent_filename;
             sparse_closer := closer;
             sparse_read := sparse_read extent;
             sparse_scratch := sparse_scratch extent |} in
        Ok (mkParse (state p) (p_extents p ++ [Sparse extent])
              (Int64.add (p_total_size p) (sparse_total_size extent)))
    end
  else if String.eqb extent_type "FLAT" || String.eqb extent_type "VMFS" then
    match GetFlatExtent reader extent_filename offsetSectors sectors
            (p_total_size p) closer with
    | Panic msg => Panic msg
    | Err err => Err (ErrWrap ("while opening " ++ extent_filename) err)
    | Ok extent =>
        Ok (mkParse (state p) (p_extents p ++ [Flat extent])
              (Int64.add (p_total_size p) (FlatExtent_TotalSize extent)))
    end
  else Err (ErrMsg ("Unsupported extent type " ++ extent_type)).

Definition step (p : Parse) (line : string) : outcome Parse :=
  if Str.HasPrefix line "# Extent description"
  then Ok (mkParse Extents (p_extents p) (p_total_size p))
  else
    match state p with
    | Extents =>
        match FindStringSubmatch line with
        | [] => Ok (mkParse INIT (p_extents p) (p_total_size p))
        | m => add_extent p m
        end
    | INIT => Ok p
    end.

Fixpoint lines_loop (p : Parse) (lines : list string) : outcome Parse :=
  match lines with
  | [] => Ok p
  | line :: rest => p' <- step p line ;; lines_loop p' rest
  end.

Definition GetVMDKContext (reader : ReaderAt) (size : Z) : outcome VMDKContext :=
  let size := if size >? 64 * 1024 then 64 * 1024 else size in
  if size <? 0 then Panic "makeslice: len out of range"
  else
    let buf := zeros (Z.to_nat size) in
    let '(buf, n, err) := io_ReadAt reader buf 0 in
    if is_real_error err then
      match err with Some e => Err e | None => Panic "unreachable" end
    else
      let text := string_of_list_byte (slice buf 0 n) in
      p <- lines_loop (mkParse INIT [] 0) (Str.Split_newline text) ;;
      Ok (normalizeExtents
            (mkVMDKContext NewVMDKConfig reader (p_extents p) (p_total_size p))).

End Open.

End Permissive.


(** ** Shapes of extent lists *)

(** The sizes of the extents add up from [start] without a gap or an
    overlap, and no size is negative. *)
Fixpoint contiguous (start : Z) (es : list Extent) : Prop :=
  match es with
  | [] => True
  | e :: rest =>
      VirtualOffset e = start /\ 0 <= TotalSize e
      /\ contiguous (start + TotalSize e) rest
  end.

Definition sum_sizes (es : list Extent) : Z :=
  fold_right (fun e acc => TotalSize e + acc) 0 es.

(** A context as normalization leaves it: the extents tile
    [0, total_size), which fits in an [int64]. *)
Definition normalized (ctx : VMDKContext) : Prop :=
  contiguous 0 (extents ctx)
  /\ total_size ctx = sum_sizes (extents ctx)
  /\ total_size ctx <= Int64.max_int.

(** The virtual offsets never go down along the list. *)
Definition sorted_offsets (es : list Extent) : Prop :=
  forall a b ea eb,
    (a <= b)%nat -> nth_error es a = Some ea -> nth_error es b = Some eb ->
    VirtualOffset ea <= VirtualOffset eb.

(** The predicate [getExtentForOffset] hands to [sort.Search]. *)
Definition starts_after (es : list Extent) (offset : Z) (i : nat) : bool :=
  match nth_error es i with
  | Some extent => VirtualOffset extent >? offset
  | None => false
  end.

(** [f] is false up to some index and true from there on, below [n]. *)
Definition monotone (n : nat) (f : nat -> bool) : Prop :=
  forall a b, (a <= b < n)%nat -> f a = true -> f b = true.


(** Every extent starts at the running total of the sizes before it, in the
    arithmetic of [int64]. *)
Fixpoint chained (start : Z) (es : list Extent) : Prop :=
  match es with
  | [] => True
  | e :: rest =>
      VirtualOffset e = start /\ chained (Int64.add start (TotalSize e)) rest
  end.

(** [total_size] after the extents [es] have been added to [start]. *)
Definition running_total (start : Z) (es : list Extent) : Z :=
  fold_left (fun acc e => Int64.add acc (TotalSize e)) es start.

(** The invariant of the loop of [GetVMDKContext]. *)
Definition parse_inv (es : list Extent) (total : Z) : Prop :=
  chained 0 es /\ total = running_total 0 es.


(** ** Regular expressions

    The expressions of [regexp] that the descriptor needs, over bytes. A
    class of this file holds bytes; those of [ExtentRegex] hold ASCII
    characters or every rune but the double quote, and a byte string
    without the byte of the double quote is a sequence of such runes, so
    nothing is lost on the way from runes to bytes. *)

Inductive regex : Type :=
| Eps
| Class (p : ascii -> bool)
| Cat (r1 r2 : regex)
| Alt (r1 r2 : regex)
| Star (r : regex).

Fixpoint concat_all (ss : list string) : string :=
  match ss with
  | [] => EmptyString
  | s :: rest => (s ++ concat_all rest)%string
  end.

(** The strings an expression matches from their first to their last
    character. *)
Fixpoint lang (r : regex) (s : string) : Prop :=
  match r with
  | Eps => s = EmptyString
  | Class p => exists c, s = String c EmptyString /\ p c = true
  | Cat r1 r2 => exists s1 s2, s = (s1 ++ s2)%string /\ lang r1 s1 /\ lang r2 s2
  | Alt r1 r2 => lang r1 s \/ lang r2 s
  | Star r1 => exists ss, s = concat_all ss /\ Forall (lang r1) ss
  end.

Definition Lit (c : ascii) : regex := Class (Ascii.eqb c).
Definition Plus (r : regex) : regex := Cat r (Star r).
Definition Opt (r : regex) : regex := Alt r Eps.

Fixpoint sequence (rs : list regex) : regex :=
  match rs with
  | [] => Eps
  | [r] => r
  | r :: rest => Cat r (sequence rest)
  end.

(** [ExtentRegex] of [parser/context.go]:
    [(RW|R) (\d+) ([A-Z]+) Q([^Q]+)Q(?: (\d+))?], [Q] the double quote. *)
Definition ExtentRegex : regex :=
  sequence [ Alt (Cat (Lit "R") (Lit "W")) (Lit "R"); Lit " ";
        Plus (Class is_digit); Lit " ";
        Plus (Class is_upper); Lit " ";
        Lit dquote; Plus (Class not_quote); Lit dquote;
        Opt (Cat (Lit " ") (Plus (Class is_digit))) ].

(** [ExtentRegex] after the access mode. *)
Definition ExtentRegex_rest : regex :=
  sequence [ Lit " "; Plus (Class is_digit); Lit " ";
             Plus (Class is_upper); Lit " ";
             Lit dquote; Plus (Class not_quote); Lit dquote;
             Opt (Cat (Lit " ") (Plus (Class is_digit))) ].

(** [\s] of [regexp]: tab, line feed, form feed, carriage return, space. *)
Definition is_space (c : ascii) : bool :=
  let n := nat_of_ascii c in
  ((n =? 9) || (n =? 10) || (n =? 12) || (n =? 13) || (n =? 32))%nat.

(** The expression of the specification, after its anchor:
    [^(RW|R)\s+(\d+)\s+([A-Z]+)\s+Q([^Q]+)Q(?:\s+(\d+))?]. *)
Definition spec_ExtentRegex : regex :=
  sequence [ Alt (Cat (Lit "R") (Lit "W")) (Lit "R"); Plus (Class is_space);
        Plus (Class is_digit); Plus (Class is_space);
        Plus (Class is_upper); Plus (Class is_space);
        Lit dquote; Plus (Class not_quote); Lit dquote;
        Opt (Cat (Plus (Class is_space)) (Plus (Class is_digit))) ].

(** An expression without an anchor matches somewhere in the line. *)
Definition contains_match (r : regex) (s : string) : Prop :=
  exists pre m post, s = (pre ++ m ++ post)%string /\ lang r m.

(** An expression anchored with [^] matches at the start of the line. *)
Definition prefix_match (r : regex) (s : string) : Prop :=
  exists m post, s = (m ++ post)%string /\ lang r m.

Fixpoint all_chars (p : ascii -> bool) (s : string) : bool :=
  match s with
  | EmptyString => true
  | String c rest => p c && all_chars p rest
  end.

(** A line that opens no section of the descriptor. *)
Definition no_header (line : string) : Prop :=
  Str.HasPrefix line "# Disk DescriptorFile" = false
  /\ Str.HasPrefix line "# Extent description" = false
  /\ Str.HasPrefix line "# The Disk Data Base" = false.

(** ** The prologue of [GetVMDKContext]

    What comes before the loop over the lines: the read of the first 64 KiB,
    the check of the magic number, the split into lines. *)
Definition open_prologue (reader : ReaderAt) (size : Z) : outcome (State * list string) :=
  let size := if size >? 64 * 1024 then 64 * 1024 else size in
  if size <? 0 then Panic "makeslice: len out of range"
  else
    let '(buf, n, err) := io_ReadAt reader (zeros (Z.to_nat size)) 0 in
    if is_real_error err then
      match err with Some e => Err e | None => Panic "unreachable" end
    else if blen buf <? 4 then Panic "slice bounds out of range"
    else
      Ok (if Uint32 (slice buf 0 4) =? SPARSE_MAGICNUMBER then KDMV else INIT,
          Str.Split_newline (string_of_list_byte (slice buf 0 n))).

(** The loop of [GetVMDKContext] comes to [line] with the variables [p],
    [rest] being the lines after it. *)
Definition reaches (GetSparseExtent : ReaderAt -> outcome SparseExtent)
    (opener : Opener) (reader : ReaderAt) (size : Z)
    (p : Parse) (line : string) (rest : list string) : Prop :=
  exists st0 pre,
    open_prologue reader size = Ok (st0, pre ++ line :: rest)
    /\ lines_loop GetSparseExtent opener (mkParse st0 NewVMDKConfig [] 0) pre = Ok p.

(** ** Closing twice *)

Definition FlatExtent_Close_twice (self : FlatExtent) (w : World) : FlatExtent * World :=
  let '(self', w') := FlatExtent_Close self w in FlatExtent_Close self' w'.

(** The closer of an extent. *)
Definition extent_closer (e : Extent) : option Closer :=
  match e with
  | Flat f => flat_closer f
  | Sparse s => sparse_closer s
  | Null _ => None
  end.

(** A closer that writes the name of what it releases into the log. *)
Definition log_closer (name : string) : Closer := fun w => w ++ [name].


(** ** Sample disks

    Descriptors, files and contexts on which the properties below are run. *)
Module Sample.

Open Scope string_scope.

Definition quoted (s : string) : string := String dquote (s ++ String dquote "").

Definition newline : string := String "010" "".

Fixpoint unlines (ls : list string) : string :=
  match ls with
  | [] => ""
  | l :: rest => l ++ newline ++ unlines rest
  end.

(** Two files of flat data, 1024 bytes each. *)
Definition file_a : list byte := repeat x01 1024.
Definition file_b : list byte := repeat x02 1024.

Definition opener : Opener := fun filename =>
  if String.eqb filename "a.vmdk"
  then Ok (FileReader file_a, Some (log_closer filename))
  else if String.eqb filename "b.vmdk"
  then Ok (FileReader file_b, Some (log_closer filename))
  else Err (ErrMsg ("open " ++ filename ++ ": no such file or directory")).

(** None of the sample files starts with the magic number of a sparse
    extent. *)
Definition GetSparseExtent : ReaderAt -> outcome SparseExtent :=
  fun _ => Err (ErrMsg "bad magic").

Definition open (descriptor : string) : outcome VMDKContext :=
  GetVMDKContext GetSparseExtent opener
    (FileReader (list_byte_of_string descriptor))
    (Z.of_nat (String.length descriptor)).

Definition open_permissive (descriptor : string) : outcome VMDKContext :=
  Permissive.GetVMDKContext GetSparseExtent opener
    (FileReader (list_byte_of_string descriptor))
    (Z.of_nat (String.length descriptor)).

(** One sector of [a.vmdk], then the second sector of [b.vmdk]. *)
Definition two_flat : string :=
  unlines [ "# Disk DescriptorFile"; "version=1";
            "createType=" ++ quoted "twoGbMaxExtentFlat"; "";
            "# Extent description";
            "RW 1 FLAT " ++ quoted "a.vmdk" ++ " 0";
            "RW 1 FLAT " ++ quoted "b.vmdk" ++ " 1"; "";
            "# The Disk Data Base";
            "ddb.adapterType = " ++ quoted "ide" ].

Definition vmfs : string :=
  unlines [ "# Extent description"; "RW 1 VMFS " ++ quoted "a.vmdk" ++ " 0" ].

(** A flat extent that declares no sector offset. *)
Definition no_offset : string :=
  unlines [ "# Extent description"; "RW 1 FLAT " ++ quoted "a.vmdk" ].

(** A sector count one above the largest [int64]. *)
Definition huge_count : string :=
  unlines [ "# Extent description";
            "RW 9223372036854775808 FLAT " ++ quoted "a.vmdk" ++ " 0" ].

(** The second sector count, [2^55 - 1], times 512 is [-512] in [int64]. *)
Definition wrapping : string :=
  unlines [ "# Extent description";
            "RW 2 FLAT " ++ quoted "a.vmdk" ++ " 0";
            "RW 36028797018963967 FLAT " ++ quoted "b.vmdk" ++ " 0" ].

Definition flat (filename : string) (content : list byte)
    (virtual_offset size : Z) : FlatExtent :=
  {| flat_reader := FileReader content;
     flat_header := {| Reader := FileReader content; Offset := 0 |};
     flat_total_size := size;
     flat_offset := virtual_offset;
     flat_filename := filename;
     flat_closer := Some (log_closer filename) |}.

(** One flat extent of a sector. *)
Definition one_sector : VMDKContext :=
  {| config := NewVMDKConfig;
     reader := FileReader [];
     extents := [Flat (flat "a.vmdk" file_a 0 512)];
     total_size := 512 |}.

(** A context put together by hand whose second extent lies within the
    first one: its invariants are broken. *)
Definition overlapping : VMDKContext :=
  {| config := NewVMDKConfig;
     reader := FileReader [];
     extents := [Flat (flat "a.vmdk" file_a 0 4); Flat (flat "b.vmdk" file_b 2 1)];
     total_size := 8 |}.

(** The context of the descriptor [two_flat]. *)
Definition two_flat_ctx : VMDKContext :=
  match open two_flat with
  | Ok ctx => ctx
  | _ => one_sector
  end.

(** The variables of the loop in the extent section of a descriptor. *)
Definition in_extents : Parse :=
  {| state := Extents; p_config := NewVMDKConfig; p_extents := []; p_total_size := 0 |}.

Definition two_spaces : string := "RW  1 FLAT " ++ quoted "a.vmdk".

Definition leading_text : string := "xRW 1 FLAT " ++ quoted "a.vmdk" ++ " 0".

(** A reader whose device fails. *)
Definition broken_reader : ReaderAt :=
  mkReaderAt (fun _ _ => ([], Some (ErrMsg "input/output error"))) (fun p _ => p).

(** Two flat extents of four bytes each, one after the other. *)
Definition small_disk : VMDKContext :=
  {| config := NewVMDKConfig;
     reader := FileReader [];
     extents := [Flat (flat "a.vmdk" [x01; x02; x03; x04] 0 4);
                 Flat (flat "b.vmdk" [x05; x06; x07; x08] 4 4)];
     total_size := 8 |}.

Definition small_bytes : list (list byte) :=
  [[x01; x02; x03; x04]; [x05; x06; x07; x08]].

(** A context put together by hand whose second extent starts three
    sectors after the end of the first one. *)
Definition gapped : VMDKContext :=
  {| config := NewVMDKConfig;
     reader := FileReader [];
     extents := [Flat (flat "a.vmdk" file_a 0 512); Flat (flat "b.vmdk" file_b 2048 512)];
     total_size := 1024 |}.

(** The same with a third extent, right after the second one. *)
Definition gapped_twice : VMDKContext :=
  {| config := NewVMDKConfig;
     reader := FileReader [];
     extents := [Flat (flat "a.vmdk" file_a 0 512); Flat (flat "b.vmdk" file_b 2048 512);
                 Flat (flat "a.vmdk" file_a 2560 512)];
     total_size := 1536 |}.

(** A file that is no descriptor. *)
Definition not_a_disk : string := "not a disk".

(** An extent line of a kind that is not supported, for a file that the
    opener does not find. *)
Definition missing_file : string :=
  unlines [ "# Extent description"; "RW 1 VMFS " ++ quoted "c.vmdk" ++ " 0" ].

(** A sparse extent line whose sector count is no [int64]. *)
Definition sparse_line : string :=
  "RW 9223372036854775808 SPARSE " ++ quoted "a.vmdk".

Definition sparse : string := unlines [ "# Extent description"; sparse_line ].

(** A decoder that takes every file for a sparse extent of eight sectors. *)
Definition eight_sectors : ReaderAt -> outcome SparseExtent :=
  fun rd => Ok {| sparse_offset := 0;
                  sparse_total_size := 4096;
                  sparse_filename := "";
                  sparse_closer := None;
                  sparse_read := reader_at rd;
                  sparse_scratch := reader_scratch rd |}.

(** A file that starts with the magic number of a sparse extent and holds
    its descriptor. *)
Definition embedded : string :=
  unlines [ "KDMV"; "# Disk DescriptorFile"; "version=1" ].

(** An opener that finds the bytes of [file_b] under every name and hands
    out no closer. *)
Definition other_opener : Opener := fun _ => Ok (FileReader file_b, None).

(** The context of the descriptor [two_flat] opened with [other_opener]. *)
Definition two_flat_other : VMDKContext :=
  match GetVMDKContext GetSparseExtent other_opener
          (FileReader (list_byte_of_string two_flat))
          (Z.of_nat (String.length two_flat)) with
  | Ok ctx => ctx
  | _ => one_sector
  end.

End Sample.


(** The closers of the extents of a list, in the order of the list. *)
Definition closers_of (es : list Extent) : list Closer :=
  flat_map (fun e => match extent_closer e with
                     | Some closer => [closer]
                     | None => []
                     end) es.

(** Running closers one after the other. *)
Definition run_closers (cs : list Closer) (w : World) : World :=
  fold_left (fun w closer => closer w) cs w.

(** An extent after its [Close]: a flat extent keeps its closer, a sparse
    extent has none left. *)
Definition released (e : Extent) : Extent :=
  match e with
  | Sparse s =>
      Sparse {| sparse_offset := sparse_offset s;
                sparse_total_size := sparse_total_size s;
                sparse_filename := sparse_filename s;
                sparse_closer := None;
                sparse_read := sparse_read s;
                sparse_scratch := sparse_scratch s |}
  | _ => e
  end.


(** ** Further shapes *)

Definition is_null (e : Extent) : bool :=
  match e with
  | Null _ => true
  | _ => false
  end.

(** The bytes [bs] are what the extent [e] holds: a read of [e] at [idx]
    copies them from [idx] on, as many as fit the buffer and the extent,
    keeps the rest of the buffer, and reports nothing but EOF. *)
Definition serves (e : Extent) (bs : list byte) : Prop :=
  blen bs = TotalSize e
  /\ forall (buf : Buffer) (idx : Z),
       0 <= idx <= TotalSize e -> idx + blen buf <= Int64.max_int ->
       exists err,
         is_real_error err = false
         /\ Extent_ReadAt e buf idx =
            (firstn (Z.to_nat (Z.min (blen buf) (TotalSize e - idx)))
               (skipn (Z.to_nat idx) bs)
             ++ skipn (Z.to_nat (Z.min (blen buf) (TotalSize e - idx))) buf,
             Z.min (blen buf) (TotalSize e - idx), err).

(** The bytes of the whole disk, extent after extent. *)
Definition image (bss : list (list byte)) : list byte := concat bss.

(** The file name an extent was opened under. *)
Definition extent_filename (e : Extent) : option string :=
  match e with
  | Flat f => Some (flat_filename f)
  | Sparse s => Some (sparse_filename s)
  | Null _ => None
  end.

(** The field of the settings that a key of the descriptor names. *)
Definition field (key : string) (c : VMDKConfig) : option string :=
  assoc key
    [ ("version"%string, VMDKVersion c);
      ("encoding"%string, VMDKEncoding c);
      ("CID"%string, VMDKCid c);
      ("parentCID"%string, VMDKParentCid c);
      ("createType"%string, VMDKCreateType c);
      ("ddb.adapterType"%string, DBBAdatperType c);
      ("ddb.geometry.cylinders"%string, DBBGeometryCylinders c);
      ("ddb.geometry.heads"%string, DBBGeometryHeads c);
      ("ddb.geometry.sectors"%string, DBBGeometrySectors c);
      ("ddb.longContentID"%string, DBBLongContentId c);
      ("ddb.uuid"%string, DBBUuid c);
      ("ddb.virtualHWVersion"%string, DBBVirtualHWVersion c) ].

(** The keys of the descriptor that have a setter. *)
Definition known_keys : list string :=
  map fst (VMDKConfigSetters NewVMDKConfig).

(** No character of [s] is [c]. *)
Definition free_of (c : ascii) (s : string) : bool :=
  all_chars (fun x => negb (Ascii.eqb x c)) s.


(** Every extent lies within [0, total_size), which fits in an [int64];
    the extents may overlap or leave gaps. *)
Definition within_disk (ctx : VMDKContext) : Prop :=
  total_size ctx <= Int64.max_int
  /\ forall e, In e (extents ctx) ->
       0 <= VirtualOffset e /\ 0 <= TotalSize e
       /\ VirtualOffset e + TotalSize e <= total_size ctx.

(** The count of a read of [buf] at [off] that stops at the end of the
    disk. *)
Definition read_count (ctx : VMDKContext) (buf : Buffer) (off : Z) : Z :=
  Z.min (blen buf) (total_size ctx - off).

(** The buffer [buf] after its first [n] bytes have been replaced by the
    bytes of the image from [off] on. *)
Definition read_result (bss : list (list byte)) (buf : Buffer) (off n : Z) : Buffer :=
  firstn (Z.to_nat n) (skipn (Z.to_nat off) (image bss)) ++ skipn (Z.to_nat n) buf.

(** The file names of the extents of a list, in the order of the list. *)
Definition filenames (es : list Extent) : list string :=
  flat_map (fun e => match extent_filename e with
                     | Some name => [name]
                     | None => []
                     end) es.

(** An opener whose closers write the name of the file into the log. *)
Definition logging (opener : Opener) : Prop :=
  forall name rd cl, opener name = Ok (rd, cl) -> cl = Some (log_closer name).

(** Collaborators that do not panic. *)
Definition calm (GetSparseExtent : ReaderAt -> outcome SparseExtent)
    (opener : Opener) : Prop :=
  (forall rd msg, GetSparseExtent rd <> Panic msg)
  /\ (forall name msg, opener name <> Panic msg).

(** A string that [ParseInt] panics on, among those an extent line can
    hold: the empty string, or digits that make a number from [2^63] on. *)
Definition no_int64 (s : string) : Prop :=
  s = EmptyString
  \/ (all_chars is_digit s = true
      /\ exists v, digits_value s 0 = Some v /\ 2 ^ 63 <= v).

(** The bytes of the file [content] that a flat extent shows: as many as
    its size, from the offset of its header on. *)
Definition window (e : Extent) (content : list byte) : list byte :=
  match e with
  | Flat f =>
      firstn (Z.to_nat (flat_total_size f))
        (skipn (Z.to_nat (Offset (flat_header f))) content)
  | _ => []
  end.

(** The extent [e] is a flat extent over the file [content], and lies
    within it. *)
Definition flat_over (e : Extent) (content : list byte) : Prop :=
  match e with
  | Flat f =>
      flat_reader f = FileReader content
      /\ 0 <= Offset (flat_header f) /\ 0 <= flat_total_size f
      /\ Offset (flat_header f) + flat_total_size f <= blen content
      /\ blen content <= Int64.max_int
  | _ => False
  end.

Fixpoint windows (es : list Extent) (contents : list (list byte)) : list (list byte) :=
  match es, contents with
  | e :: es', content :: contents' => window e content :: windows es' contents'
  | _, _ => []
  end.

(** The first four bytes that [GetVMDKContext] reads from a file. *)
Definition first_bytes (reader : ReaderAt) (size : Z) : list byte :=
  let size := if size >? 64 * 1024 then 64 * 1024 else size in
  firstn 4 (fst (fst (io_ReadAt reader (zeros (Z.to_nat size)) 0))).

(** The six groups of a match of [ExtentRegex] whose access mode is [g1]:
    the whole match, then the mode, the sector count, the kind, the file
    name and the sector offset. *)
Definition groups_of (m : list string) (g1 : string) : Prop :=
  exists g2 g3 g4 g5 tail,
    m = [(g1 ++ " " ++ g2 ++ " " ++ g3 ++ " " ++ String dquote g4 ++ String dquote tail)%string;
         g1; g2; g3; g4; g5]
    /\ (g2 <> EmptyString /\ all_chars is_digit g2 = true)
    /\ (g3 <> EmptyString /\ all_chars is_upper g3 = true)
    /\ (g4 <> EmptyString /\ all_chars not_quote g4 = true)
    /\ ((g5 = EmptyString /\ tail = EmptyString)
        \/ (g5 <> EmptyString /\ all_chars is_digit g5 = true /\ tail = String " " g5)).

(** * Properties *)

Unset Implicit Arguments.

(** ** Arithmetic of [Int64] *)

Lemma wrap_small (z : Z) : Int64.in_range z -> Int64.wrap z = z.
Proof.
  unfold Int64.in_range, Int64.min_int, Int64.max_int, Int64.wrap. intros H.
  rewrite Z.mod_small; lia.
Qed.

Lemma wrap_add_l (a b : Z) : Int64.wrap (Int64.wrap a + b) = Int64.wrap (a + b).
Proof.
  unfold Int64.wrap. f_equal.
  replace ((a + 2 ^ 63) mod 2 ^ 64 - 2 ^ 63 + b + 2 ^ 63)
    with ((a + 2 ^ 63) mod 2 ^ 64 + b) by lia.
  rewrite Zplus_mod_idemp_l. f_equal. lia.
Qed.

Lemma add_small (a b : Z) : Int64.in_range (a + b) -> Int64.add a b = a + b.
Proof. apply wrap_small. Qed.

Lemma sub_small (a b : Z) : Int64.in_range (a - b) -> Int64.sub a b = a - b.
Proof. apply wrap_small. Qed.

Lemma mul_small (a b : Z) : Int64.in_range (a * b) -> Int64.mul a b = a * b.
Proof. apply wrap_small. Qed.

Ltac int64_range :=
  unfold Int64.in_range, Int64.min_int, Int64.max_int, SECTOR_SIZE in *; lia.

(** ** Buffers *)

Lemma blen_nonneg (b : Buffer) : 0 <= blen b.
Proof. unfold blen. lia. Qed.

Lemma io_ReadAt_length (r : ReaderAt) (p : Buffer) (off : Z) :
  length (fst (fst (io_ReadAt r p off))) = length p.
Proof.
  unfold io_ReadAt. destruct (reader_at r (length p) off) as [data err]. simpl.
  rewrite length_app, length_skipn, length_firstn.
  destruct (length (reader_scratch r p off) =? length p)%nat eqn:E.
  - apply Nat.eqb_eq in E. lia.
  - lia.
Qed.

Lemma io_ReadAt_count (r : ReaderAt) (p : Buffer) (off : Z) :
  0 <= snd (fst (io_ReadAt r p off)) <= blen p.
Proof.
  unfold io_ReadAt, blen. destruct (reader_at r (length p) off) as [data err]. simpl.
  rewrite length_firstn. lia.
Qed.

(** ** The flat extent *)

Lemma wrap_in_range (z : Z) : Int64.in_range (Int64.wrap z).
Proof.
  unfold Int64.in_range, Int64.wrap, Int64.min_int, Int64.max_int.
  pose proof (Z.mod_pos_bound (z + 2 ^ 63) (2 ^ 64) ltac:(lia)). lia.
Qed.

(** C5, as the code has it. The size of a flat extent declared with sector
    count [S] and sector offset [B] is [S*512], and its base [B*512], in
    [int64]. The extent answers [(0, EOF)] outside [0, total_size);
    inside, it clamps the length to [total_size - off] (to nothing less
    than the length of the buffer when [off + len(buf)] is beyond [int64])
    and hands the read to the backing reader at [base + off], in [int64];
    reading the whole extent is reading [total_size] bytes of the backing
    reader at the base. When the extent lies within the range of [int64],
    these numbers are [S*512] and [B*512 + off]. *)
Theorem flat_extent_read_at (reader : ReaderAt) (filename : string)
    (closer : option Closer) (S B vo : Z) (buf : Buffer) (off : Z) :
  exists e : FlatExtent,
    GetFlatExtent reader filename B S vo closer = Ok e /\
    FlatExtent_TotalSize e = Int64.mul S SECTOR_SIZE /\
    (off < 0 \/ off >= Int64.mul S SECTOR_SIZE ->
       FlatExtent_ReadAt e buf off = (buf, 0, Some EOF)) /\
    (0 <= off < Int64.mul S SECTOR_SIZE ->
       let len := if Int64.add off (blen buf) >? Int64.mul S SECTOR_SIZE
                  then Int64.mul S SECTOR_SIZE - off else blen buf in
       FlatExtent_ReadAt e buf off =
         (let '(sub, n, err) :=
            io_ReadAt reader (firstn (Z.to_nat len) buf)
              (Int64.add (Int64.mul B SECTOR_SIZE) off) in
          (sub ++ skipn (Z.to_nat len) buf, n, err))
       /\ (off + blen buf <= Int64.max_int ->
           len = Z.min (blen buf) (Int64.mul S SECTOR_SIZE - off))) /\
    (0 < Int64.mul S SECTOR_SIZE -> blen buf = Int64.mul S SECTOR_SIZE ->
       FlatExtent_ReadAt e buf 0 = io_ReadAt reader buf (Int64.mul B SECTOR_SIZE)) /\
    (0 <= S -> 0 <= B -> B * 512 + S * 512 <= Int64.max_int ->
       (off < 0 \/ off >= S * 512 -> FlatExtent_ReadAt e buf off = (buf, 0, Some EOF)) /\
       (0 <= off < S * 512 -> off + blen buf <= Int64.max_int ->
          let len := Z.min (blen buf) (S * 512 - off) in
          FlatExtent_ReadAt e buf off =
            let '(sub, n, err) :=
              io_ReadAt reader (firstn (Z.to_nat len) buf) (B * 512 + off) in
            (sub ++ skipn (Z.to_nat len) buf, n, err)) /\
       (0 < S -> blen buf = S * 512 ->
          FlatExtent_ReadAt e buf 0 = io_ReadAt reader buf (B * 512))).
Proof.
  eexists. split; [reflexivity|].
  pose proof (blen_nonneg buf) as Hlen.
  pose proof (wrap_in_range (S * SECTOR_SIZE)) as HT.
  fold (Int64.mul S SECTOR_SIZE) in HT.
  unfold FlatExtent_TotalSize, FlatExtent_ReadAt;
    cbn [flat_total_size flat_header flat_reader Offset].
  set (T := Int64.mul S SECTOR_SIZE) in *.
  set (O := Int64.mul B SECTOR_SIZE) in *.
  assert (Hout : off < 0 \/ off >= T ->
            (if (off <? 0) || (off >=? T) then (buf, 0, Some EOF)
             else
               let toRead := blen buf in
               let toRead := if Int64.add off toRead >? T then Int64.sub T off
                             else toRead in
               let fileOffset := Int64.add O off in
               let '(sub, n, err) :=
                 io_ReadAt reader (firstn (Z.to_nat toRead) buf) fileOffset in
               (sub ++ skipn (Z.to_nat toRead) buf, n, err))
            = (buf, 0, Some EOF)).
  { intros [Hneg | Hpast].
    - apply Z.ltb_lt in Hneg. rewrite Hneg. reflexivity.
    - replace (off >=? T) with true by (symmetry; apply Z.geb_le; lia).
      rewrite orb_true_r. reflexivity. }
  assert (Hin : 0 <= off < T ->
            (if (off <? 0) || (off >=? T) then (buf, 0, Some EOF)
             else
               let toRead := blen buf in
               let toRead := if Int64.add off toRead >? T then Int64.sub T off
                             else toRead in
               let fileOffset := Int64.add O off in
               let '(sub, n, err) :=
                 io_ReadAt reader (firstn (Z.to_nat toRead) buf) fileOffset in
               (sub ++ skipn (Z.to_nat toRead) buf, n, err))
            = (let '(sub, n, err) :=
                 io_ReadAt reader
                   (firstn (Z.to_nat (if Int64.add off (blen buf) >? T
                                      then T - off else blen buf)) buf)
                   (Int64.add O off) in
               (sub ++ skipn (Z.to_nat (if Int64.add off (blen buf) >? T
                                        then T - off else blen buf)) buf, n, err))).
  { intros [Hlo Hhi].
    replace (off <? 0) with false by (symmetry; apply Z.ltb_ge; lia).
    replace (off >=? T) with false
      by (symmetry; rewrite Z.geb_leb; apply Z.leb_gt; lia).
    cbn [orb]. cbv zeta.
    rewrite (sub_small T off) by int64_range. reflexivity. }
  assert (Hmin : 0 <= off < T -> off + blen buf <= Int64.max_int ->
            (if Int64.add off (blen buf) >? T then T - off else blen buf)
            = Z.min (blen buf) (T - off)).
  { intros [Hlo Hhi] Hno. rewrite (add_small off (blen buf)) by int64_range.
    destruct (off + blen buf >? T) eqn:Hclamp.
    - apply Z.gtb_lt in Hclamp. rewrite Z.min_r by lia. reflexivity.
    - rewrite Z.gtb_ltb in Hclamp. apply Z.ltb_ge in Hclamp.
      rewrite Z.min_l by lia. reflexivity. }
  assert (Hwhole : 0 < T -> blen buf = T ->
            (if (0 <? 0) || (0 >=? T) then (buf, 0, Some EOF)
             else
               let toRead := blen buf in
               let toRead := if Int64.add 0 toRead >? T then Int64.sub T 0
                             else toRead in
               let fileOffset := Int64.add O 0 in
               let '(sub, n, err) :=
                 io_ReadAt reader (firstn (Z.to_nat toRead) buf) fileOffset in
               (sub ++ skipn (Z.to_nat toRead) buf, n, err))
            = io_ReadAt reader buf O).
  { intros Hpos Hfull.
    replace (0 <? 0) with false by reflexivity.
    replace (0 >=? T) with false
      by (symmetry; rewrite Z.geb_leb; apply Z.leb_gt; lia).
    cbn [orb]. cbv zeta.
    rewrite (add_small 0 (blen buf)) by int64_range.
    replace (0 + blen buf >? T) with false
      by (symmetry; rewrite Z.gtb_ltb; apply Z.ltb_ge; lia).
    assert (HO : Int64.add O 0 = O).
    { unfold Int64.add. replace (O + 0) with O by lia.
      apply wrap_small. exact (wrap_in_range (B * SECTOR_SIZE)). }
    rewrite HO. unfold blen. rewrite Nat2Z.id, firstn_all, skipn_all.
    destruct (io_ReadAt reader buf O) as [[sub n] err].
    rewrite app_nil_r. reflexivity. }
  split; [reflexivity|]. split; [exact Hout|]. split.
  { intros Hoff. split; [exact (Hin Hoff) | exact (Hmin Hoff)]. }
  split; [exact Hwhole|].
  intros HS HB Hfit.
  assert (Hsz : T = S * 512) by (subst T; apply mul_small; int64_range).
  assert (Hbase : O = B * 512) by (subst O; apply mul_small; int64_range).
  split; [|split].
  - rewrite <- Hsz. exact Hout.
  - rewrite <- Hsz. intros Hoff Hno.
    refine (eq_trans (Hin Hoff) _). rewrite (Hmin Hoff Hno).
    rewrite Hbase, (add_small (B * 512) off) by int64_range. reflexivity.
  - rewrite <- Hsz, <- Hbase. intros HSpos. apply Hwhole. lia.
Qed.

(** ** The binary search *)

Lemma div2_between (i j : nat) :
  (i < j)%nat -> (i <= Nat.div2 (i + j) < j)%nat.
Proof.
  intros H. pose proof (Nat.div2_odd (i + j)) as E.
  destruct (Nat.odd (i + j)); simpl in E; lia.
Qed.

Lemma Search_loop_spec (n : nat) (f : nat -> bool) :
  monotone n f ->
  forall (fuel i j : nat),
    (i <= j <= n)%nat -> (j - i <= fuel)%nat ->
    (forall k, (k < i)%nat -> f k = false) ->
    (forall k, (j <= k < n)%nat -> f k = true) ->
    let r := Search_loop fuel i j f in
    (i <= r <= j)%nat
    /\ (forall k, (k < r)%nat -> f k = false)
    /\ (forall k, (r <= k < n)%nat -> f k = true).
Proof.
  intros Hmono fuel.
  induction fuel as [|fuel IH]; intros i j Hij Hfuel Hlow Hhigh; simpl.
  - assert (i = j) by lia. subst j. repeat split; auto; lia.
  - destruct (i <? j)%nat eqn:Hlt.
    + apply Nat.ltb_lt in Hlt.
      pose proof (div2_between i j Hlt) as Hh.
      set (h := Nat.div2 (i + j)) in *.
      destruct (f h) eqn:Hfh; simpl.
      * destruct (IH i h) as (Hr & Hl & Hu); try lia; auto.
        { intros k Hk. destruct (Nat.lt_ge_cases k j) as [Hkj|Hkj].
          - apply (Hmono h k); [lia | exact Hfh].
          - apply Hhigh. lia. }
        repeat split; auto; lia.
      * destruct (IH (h + 1)%nat j) as (Hr & Hl & Hu); try lia; auto.
        { intros k Hk. destruct (f k) eqn:Hfk; auto.
          assert (f h = true) by (apply (Hmono k h); [lia | exact Hfk]).
          congruence. }
        repeat split; auto; lia.
    + apply Nat.ltb_ge in Hlt. assert (i = j) by lia. subst j.
      repeat split; auto; lia.
Qed.

(** [sort.Search] finds the first index at which a monotone predicate
    holds, [n] when there is none. *)
Lemma sort_Search_spec (n : nat) (f : nat -> bool) :
  monotone n f ->
  let r := sort_Search n f in
  (r <= n)%nat
  /\ (forall k, (k < r)%nat -> f k = false)
  /\ (forall k, (r <= k < n)%nat -> f k = true).
Proof.
  intros Hmono. unfold sort_Search.
  destruct (Search_loop_spec n f Hmono n 0%nat n
              ltac:(lia) ltac:(lia) ltac:(intros; lia) ltac:(intros; lia))
    as (Hr & Hl & Hu).
  repeat split; auto; lia.
Qed.

Lemma starts_after_monotone (es : list Extent) (offset : Z) :
  sorted_offsets es -> monotone (length es) (starts_after es offset).
Proof.
  intros Hs a b Hab. unfold starts_after.
  destruct (nth_error es a) as [ea|] eqn:Ea; [|discriminate].
  destruct (nth_error es b) as [eb|] eqn:Eb.
  - intros Hgt. apply Z.gtb_lt in Hgt. apply Z.gtb_lt.
    pose proof (Hs a b ea eb ltac:(lia) Ea Eb). lia.
  - apply nth_error_None in Eb. lia.
Qed.

(** ** Contiguous lists *)

Lemma contiguous_sum_nonneg (es : list Extent) (start : Z) :
  contiguous start es -> 0 <= sum_sizes es.
Proof.
  revert start. induction es as [|e es IH]; simpl; intros start H; [lia|].
  destruct H as (_ & Hsz & Hrest). specialize (IH _ Hrest). lia.
Qed.

(** Where the [k]-th extent of a contiguous list lies. *)
Lemma contiguous_nth (es : list Extent) (start : Z) (k : nat) (e : Extent) :
  contiguous start es -> nth_error es k = Some e ->
  VirtualOffset e = start + sum_sizes (firstn k es)
  /\ 0 <= TotalSize e
  /\ sum_sizes (firstn (S k) es) = sum_sizes (firstn k es) + TotalSize e
  /\ sum_sizes (firstn (S k) es) <= sum_sizes es.
Proof.
  revert start k. induction es as [|x es IH]; intros start k Hc Hk.
  - destruct k; discriminate.
  - simpl in Hc. destruct Hc as (Hvo & Hsz & Hrest).
    destruct k as [|k]; simpl in Hk.
    + inversion Hk; subst x. simpl.
      pose proof (contiguous_sum_nonneg es _ Hrest). repeat split; lia.
    + destruct (IH _ _ Hrest Hk) as (Hv & Hs & Hstep & Hle).
      cbn [firstn sum_sizes fold_right] in *. fold (sum_sizes (firstn k es)) in *.
      fold (sum_sizes es) in *.
      change (fold_right (fun e0 acc => TotalSize e0 + acc) 0 (firstn (S k) es))
        with (sum_sizes (firstn (S k) es)).
      repeat split; try lia.
Qed.

Lemma sum_sizes_firstn_mono (es : list Extent) (start : Z) (a b : nat) :
  contiguous start es -> (a <= b)%nat ->
  sum_sizes (firstn a es) <= sum_sizes (firstn b es).
Proof.
  revert start a b. induction es as [|x es IH]; intros start a b Hc Hab.
  - rewrite !firstn_nil. lia.
  - simpl in Hc. destruct Hc as (_ & Hsz & Hrest).
    destruct a as [|a]; destruct b as [|b]; try lia; simpl.
    + fold (sum_sizes (firstn b es)).
      pose proof (IH _ 0%nat b Hrest ltac:(lia)) as H. simpl in H. lia.
    + fold (sum_sizes (firstn a es)). fold (sum_sizes (firstn b es)).
      pose proof (IH _ a b Hrest ltac:(lia)). lia.
Qed.

Lemma contiguous_sorted (es : list Extent) (start : Z) :
  contiguous start es -> sorted_offsets es.
Proof.
  intros Hc a b ea eb Hab Ea Eb.
  destruct (contiguous_nth es start a ea Hc Ea) as (Ha & _).
  destruct (contiguous_nth es start b eb Hc Eb) as (Hb & _).
  pose proof (sum_sizes_firstn_mono es start a b Hc Hab). lia.
Qed.

(** In a contiguous list an extent ends where every later one starts, or
    before. *)
Lemma contiguous_later (es : list Extent) (start : Z) (a b : nat) (ea eb : Extent) :
  contiguous start es -> (a < b)%nat ->
  nth_error es a = Some ea -> nth_error es b = Some eb ->
  VirtualOffset ea + TotalSize ea <= VirtualOffset eb.
Proof.
  intros Hc Hab Ea Eb.
  destruct (contiguous_nth es start a ea Hc Ea) as (Ha & _ & Hstep & _).
  destruct (contiguous_nth es start b eb Hc Eb) as (Hb & _).
  pose proof (sum_sizes_firstn_mono es start (S a) b Hc ltac:(lia)). lia.
Qed.

(** ** The lookup *)

Lemma getExtentForOffset_eq (ctx : VMDKContext) (offset : Z) :
  getExtentForOffset ctx offset =
  let n := sort_Search (length (extents ctx)) (starts_after (extents ctx) offset) in
  if (n <? 1)%nat || (length (extents ctx) <? n)%nat then Err EOF
  else
    match nth_error (extents ctx) (n - 1) with
    | None => Panic "index out of range"
    | Some extent =>
        if (VirtualOffset extent >? offset)
           || (Int64.add (VirtualOffset extent) (TotalSize extent) <? offset)
        then Err EOF
        else Ok extent
    end.
Proof. reflexivity. Qed.

(** What [getExtentForOffset] answers on a list sorted by virtual offset:
    the last extent that starts at or before [offset], unless [offset] lies
    beyond its end. *)
Lemma getExtentForOffset_sorted (ctx : VMDKContext) (offset : Z) :
  sorted_offsets (extents ctx) ->
  match getExtentForOffset ctx offset with
  | Ok e =>
      exists k, nth_error (extents ctx) k = Some e
        /\ VirtualOffset e <= offset
        /\ offset <= Int64.add (VirtualOffset e) (TotalSize e)
        /\ (forall j ej, (k < j)%nat -> nth_error (extents ctx) j = Some ej ->
              offset < VirtualOffset ej)
  | Err err =>
      err = EOF
      /\ ((forall j ej, nth_error (extents ctx) j = Some ej -> offset < VirtualOffset ej)
          \/ exists k e, nth_error (extents ctx) k = Some e
               /\ VirtualOffset e <= offset
               /\ Int64.add (VirtualOffset e) (TotalSize e) < offset
               /\ (forall j ej, (k < j)%nat -> nth_error (extents ctx) j = Some ej ->
                     offset < VirtualOffset ej))
  | Panic _ => False
  end.
Proof.
  intros Hs. rewrite getExtentForOffset_eq. cbv zeta.
  destruct (sort_Search_spec (length (extents ctx)) (starts_after (extents ctx) offset)
              (starts_after_monotone _ offset Hs)) as (Hn & Hlow & Hhigh).
  set (n := sort_Search (length (extents ctx)) (starts_after (extents ctx) offset)) in *.
  assert (Hafter : forall j ej, (n <= j)%nat -> nth_error (extents ctx) j = Some ej ->
                                offset < VirtualOffset ej).
  { intros j ej Hj Ej.
    assert (Hlen : (j < length (extents ctx))%nat)
      by (apply nth_error_Some; congruence).
    specialize (Hhigh j ltac:(lia)). unfold starts_after in Hhigh.
    rewrite Ej in Hhigh. apply Z.gtb_lt in Hhigh. lia. }
  destruct (n <? 1)%nat eqn:Hn1; simpl.
  - apply Nat.ltb_lt in Hn1. split; [reflexivity|]. left.
    intros j ej Ej. apply (Hafter j ej); [lia | exact Ej].
  - apply Nat.ltb_ge in Hn1.
    replace (length (extents ctx) <? n)%nat with false
      by (symmetry; apply Nat.ltb_ge; lia).
    destruct (nth_error (extents ctx) (n - 1)) as [e|] eqn:Ee.
    + assert (Hvo : VirtualOffset e <= offset).
      { specialize (Hlow (n - 1)%nat ltac:(lia)). unfold starts_after in Hlow.
        rewrite Ee in Hlow. rewrite Z.gtb_ltb in Hlow. apply Z.ltb_ge in Hlow. lia. }
      replace (VirtualOffset e >? offset) with false
        by (symmetry; rewrite Z.gtb_ltb; apply Z.ltb_ge; lia).
      simpl.
      destruct (Int64.add (VirtualOffset e) (TotalSize e) <? offset) eqn:Hend.
      * apply Z.ltb_lt in Hend. split; [reflexivity|]. right.
        exists (n - 1)%nat, e. repeat split; auto.
        intros j ej Hj Ej. apply (Hafter j ej); [lia | exact Ej].
      * apply Z.ltb_ge in Hend. exists (n - 1)%nat. repeat split; auto.
        intros j ej Hj Ej. apply (Hafter j ej); [lia | exact Ej].
    + apply nth_error_None in Ee. lia.
Qed.

Lemma normalized_end_in_range (ctx : VMDKContext) (k : nat) (e : Extent) :
  normalized ctx -> nth_error (extents ctx) k = Some e ->
  0 <= VirtualOffset e
  /\ VirtualOffset e + TotalSize e <= total_size ctx
  /\ Int64.add (VirtualOffset e) (TotalSize e) = VirtualOffset e + TotalSize e.
Proof.
  intros (Hc & Htot & Hmax) Ee.
  destruct (contiguous_nth _ _ _ _ Hc Ee) as (Hvo & Hsz & Hstep & Hle).
  pose proof (sum_sizes_firstn_mono (extents ctx) 0 0 k Hc ltac:(lia)) as H0.
  simpl in H0.
  assert (0 <= VirtualOffset e) by lia.
  assert (VirtualOffset e + TotalSize e <= total_size ctx) by lia.
  repeat split; auto.
  apply add_small. int64_range.
Qed.

(** At the upper bound of the last extent the lookup answers the last
    extent. *)
Lemma getExtentForOffset_at_end (ctx : VMDKContext) (e : Extent) :
  normalized ctx ->
  nth_error (extents ctx) (length (extents ctx) - 1) = Some e ->
  getExtentForOffset ctx (total_size ctx) = Ok e.
Proof.
  intros Hnorm Ee. pose proof Hnorm as (Hc & Htot & Hmax).
  pose proof (getExtentForOffset_sorted ctx (total_size ctx) (contiguous_sorted _ _ Hc))
    as Hspec.
  assert (Hlen : (length (extents ctx) - 1 < length (extents ctx))%nat)
    by (apply nth_error_Some; congruence).
  destruct (contiguous_nth _ _ _ _ Hc Ee) as (Hvo & Hsz & Hstep & _).
  replace (S (length (extents ctx) - 1)) with (length (extents ctx)) in Hstep by lia.
  rewrite firstn_all in Hstep.
  destruct (normalized_end_in_range ctx _ e Hnorm Ee) as (Hvo0 & _ & Hadd).
  destruct (getExtentForOffset ctx (total_size ctx)) as [e'|err|msg]; [| |contradiction].
  - destruct Hspec as (k' & Ee' & Hvo' & _ & Hafter).
    assert (Hk' : (k' < length (extents ctx))%nat)
      by (apply nth_error_Some; congruence).
    destruct (Nat.eq_dec k' (length (extents ctx) - 1)) as [Heq|Hne].
    + subst k'. congruence.
    + pose proof (Hafter (length (extents ctx) - 1)%nat e ltac:(lia) Ee). lia.
  - destruct Hspec as (_ & [Hnone | (k' & e' & Ee' & Hvo' & Hend & Hafter)]).
    + pose proof (Hnone _ e Ee). lia.
    + destruct (normalized_end_in_range ctx k' e' Hnorm Ee') as (_ & Hle & Hadd').
      rewrite Hadd' in Hend.
      assert (Hk' : (k' < length (extents ctx))%nat)
        by (apply nth_error_Some; congruence).
      destruct (Nat.eq_dec k' (length (extents ctx) - 1)) as [Heq|Hne].
      * subst k'. assert (e' = e) by congruence. subst e'. lia.
      * pose proof (Hafter (length (extents ctx) - 1)%nat e ltac:(lia) Ee). lia.
Qed.

(** C6, as the code has it. In a normalized context the lookup answers the
    extent [k] whenever [extents[k].virtual_offset <= offset <
    extents[k].virtual_offset + extents[k].total_size]; the upper bound of
    the last extent is still answered with the last extent, not with EOF;
    and EOF is the answer below 0 and above that upper bound. Conversely an
    extent that is answered holds [offset] in that sense. *)
Theorem lookup_in_normalized (ctx : VMDKContext) (offset : Z) :
  normalized ctx ->
  (forall k e, nth_error (extents ctx) k = Some e ->
     VirtualOffset e <= offset < VirtualOffset e + TotalSize e ->
     getExtentForOffset ctx offset = Ok e)
  /\ (forall e, nth_error (extents ctx) (length (extents ctx) - 1) = Some e ->
        offset = total_size ctx -> getExtentForOffset ctx offset = Ok e)
  /\ (offset < 0 \/ total_size ctx < offset -> getExtentForOffset ctx offset = Err EOF)
  /\ (forall e, getExtentForOffset ctx offset = Ok e ->
        exists k, nth_error (extents ctx) k = Some e
          /\ VirtualOffset e <= offset
          /\ (offset < VirtualOffset e + TotalSize e
              \/ (offset = total_size ctx /\ k = (length (extents ctx) - 1)%nat))).
Proof.
  intros Hnorm. pose proof Hnorm as (Hc & Htot & Hmax).
  pose proof (getExtentForOffset_sorted ctx offset (contiguous_sorted _ _ Hc)) as Hspec.
  split; [|split; [|split]].
  - intros k e Ee [Hlo Hhi].
    destruct (getExtentForOffset ctx offset) as [e'|err|msg]; [| |contradiction].
    + destruct Hspec as (k' & Ee' & Hvo' & _ & Hafter).
      destruct (Nat.lt_trichotomy k k') as [Hlt|[Heq|Hgt]].
      * pose proof (contiguous_later _ _ _ _ _ _ Hc Hlt Ee Ee'). lia.
      * subst k'. congruence.
      * pose proof (Hafter k e Hgt Ee). lia.
    + destruct Hspec as (_ & [Hnone | (k' & e' & Ee' & Hvo' & Hend & Hafter)]).
      * pose proof (Hnone k e Ee). lia.
      * destruct (normalized_end_in_range ctx k' e' Hnorm Ee') as (_ & _ & Hadd).
        rewrite Hadd in Hend.
        destruct (Nat.lt_trichotomy k k') as [Hlt|[Heq|Hgt]].
        -- pose proof (contiguous_later _ _ _ _ _ _ Hc Hlt Ee Ee'). lia.
        -- subst k'. assert (e' = e) by congruence. subst e'. lia.
        -- pose proof (Hafter k e Hgt Ee). lia.
  - intros e Ee ->. apply getExtentForOffset_at_end; assumption.
  - intros Hout.
    destruct (getExtentForOffset ctx offset) as [e'|err|msg]; [| |contradiction].
    + destruct Hspec as (k' & Ee' & Hvo' & Hend & _).
      destruct (normalized_end_in_range ctx k' e' Hnorm Ee') as (Hvo0 & Hle & Hadd).
      rewrite Hadd in Hend. lia.
    + destruct Hspec as (-> & _). reflexivity.
  - intros e He. rewrite He in Hspec.
    destruct Hspec as (k & Ee & Hvo & Hend & Hafter).
    destruct (normalized_end_in_range ctx k e Hnorm Ee) as (Hvo0 & Hle & Hadd).
    rewrite Hadd in Hend.
    exists k. repeat split; auto.
    destruct (Z.lt_ge_cases offset (VirtualOffset e + TotalSize e)) as [Hin|Hat];
      [left; exact Hin|right].
    assert (Hk : (k < length (extents ctx))%nat)
      by (apply nth_error_Some; congruence).
    destruct (nth_error (extents ctx) (S k)) as [e2|] eqn:E2.
    + pose proof (Hafter (S k) e2 ltac:(lia) E2).
      destruct (contiguous_nth _ _ _ _ Hc Ee) as (Hv1 & _ & Hstep & _).
      destruct (contiguous_nth _ _ _ _ Hc E2) as (Hv2 & _).
      lia.
    + apply nth_error_None in E2.
      assert (k = (length (extents ctx) - 1)%nat) by lia. subst k.
      destruct (contiguous_nth _ _ _ _ Hc Ee) as (Hv1 & _ & Hstep & _).
      replace (S (length (extents ctx) - 1)) with (length (extents ctx)) in Hstep by lia.
      rewrite firstn_all in Hstep. split; [lia | reflexivity].
Qed.

(** ** The extents of an opened disk *)

Lemma running_total_app (start : Z) (xs ys : list Extent) :
  running_total start (xs ++ ys) = running_total (running_total start xs) ys.
Proof. unfold running_total. apply fold_left_app. Qed.

Lemma chained_app (start : Z) (xs : list Extent) (e : Extent) :
  chained start xs -> VirtualOffset e = running_total start xs ->
  chained start (xs ++ [e]).
Proof.
  revert start. induction xs as [|x xs IH]; simpl; intros start Hc Hvo.
  - split; [exact Hvo | exact I].
  - destruct Hc as (Hx & Hrest). split; [exact Hx|].
    apply IH; assumption.
Qed.

Lemma parse_inv_snoc (es : list Extent) (total : Z) (e : Extent) :
  parse_inv es total -> VirtualOffset e = total ->
  parse_inv (es ++ [e]) (Int64.add total (TotalSize e)).
Proof.
  intros (Hc & Ht) Hvo. split.
  - apply chained_app; [exact Hc | congruence].
  - rewrite running_total_app. simpl. congruence.
Qed.

Lemma running_total_wrap (a : Z) (es : list Extent) :
  running_total (Int64.wrap a) es = Int64.wrap (a + sum_sizes es).
Proof.
  revert a. induction es as [|e es IH]; intros a; simpl.
  - f_equal. lia.
  - unfold Int64.add. rewrite wrap_add_l. fold (running_total (Int64.wrap (a + TotalSize e)) es).
    rewrite IH. f_equal. fold (sum_sizes es). lia.
Qed.

Lemma chained_adjacent (es : list Extent) (start : Z) (i : nat) (e1 e2 : Extent) :
  chained start es ->
  nth_error es i = Some e1 -> nth_error es (S i) = Some e2 ->
  Int64.add (VirtualOffset e1) (TotalSize e1) = VirtualOffset e2.
Proof.
  revert start i. induction es as [|x es IH]; intros start i Hc E1 E2.
  - destruct i; discriminate.
  - simpl in Hc. destruct Hc as (Hx & Hrest).
    destruct i as [|i]; simpl in E1, E2.
    + inversion E1; subst x. destruct es as [|y es]; [discriminate|].
      simpl in E2. inversion E2; subst y. simpl in Hrest.
      destruct Hrest as (Hy & _). congruence.
    + apply (IH _ i Hrest E1 E2).
Qed.

(** On a chained list the normalization has no gap to fill. *)
Lemma normalize_loop_chained (es acc : list Extent) (offset : Z) :
  chained offset es -> normalize_loop es acc offset = acc ++ es.
Proof.
  revert acc offset. induction es as [|e es IH]; intros acc offset Hc; simpl.
  - rewrite app_nil_r. reflexivity.
  - simpl in Hc. destruct Hc as (Hvo & Hrest).
    replace (VirtualOffset e >? offset) with false
      by (symmetry; rewrite Z.gtb_ltb; apply Z.ltb_ge; lia).
    rewrite (IH _ _ Hrest). rewrite <- app_assoc. reflexivity.
Qed.

(** A chained list whose sizes are not negative and add up within
    [int64] is contiguous. *)
Lemma chained_contiguous (es : list Extent) (start : Z) :
  chained start es -> 0 <= start ->
  (forall e, In e es -> 0 <= TotalSize e) ->
  start + sum_sizes es <= Int64.max_int ->
  contiguous start es.
Proof.
  revert start. induction es as [|e es IH]; simpl; intros start Hc H0 Hsz Hfit; [exact I|].
  destruct Hc as (Hvo & Hrest).
  assert (He : 0 <= TotalSize e) by (apply Hsz; left; reflexivity).
  assert (Hs : 0 <= sum_sizes es).
  { clear - Hsz. induction es as [|x xs IHx]; simpl; [lia|].
    assert (0 <= TotalSize x) by (apply Hsz; right; left; reflexivity).
    assert (0 <= sum_sizes xs).
    { apply IHx. intros e0 [H0|H0]; apply Hsz; [left; exact H0 | right; right; exact H0]. }
    unfold sum_sizes in *. lia. }
  fold (sum_sizes es) in Hfit.
  rewrite add_small in Hrest by int64_range.
  split; [exact Hvo|]. split; [exact He|].
  apply IH; [exact Hrest | lia | | lia].
  intros e0 H. apply Hsz. right. exact H.
Qed.

Section OpenInvariant.

Variable GetSparseExtent : ReaderAt -> outcome SparseExtent.
Variable opener : Opener.

Lemma add_extent_inv (p p' : Parse) (m : list string) :
  parse_inv (p_extents p) (p_total_size p) ->
  add_extent GetSparseExtent opener p m = Ok p' ->
  parse_inv (p_extents p') (p_total_size p').
Proof.
  intros Hinv. unfold add_extent, bind.
  destruct (opener (group m 4)) as [[rd cl]|e|msg]; try discriminate.
  destruct (String.eqb (group m 3) "SPARSE").
  - destruct (GetSparseExtent rd) as [ext|e|msg]; try discriminate.
    intros H. inversion H; subst p'; clear H. simpl.
    match goal with
    | |- parse_inv (_ ++ [?e]) _ => apply (parse_inv_snoc _ _ e Hinv)
    end. reflexivity.
  - destruct (String.eqb (group m 3) "FLAT"); [|discriminate].
    destruct (ParseInt (group m 2)) as [sectors|e|msg]; try discriminate.
    destruct (ParseInt (group m 5)) as [offsetSectors|e|msg]; try discriminate.
    simpl. intros H. inversion H; subst p'; clear H. simpl.
    match goal with
    | |- parse_inv (_ ++ [?e]) _ => apply (parse_inv_snoc _ _ e Hinv)
    end. reflexivity.
Qed.

Lemma step_inv (p p' : Parse) (line : string) :
  parse_inv (p_extents p) (p_total_size p) ->
  step GetSparseExtent opener p line = Ok p' ->
  parse_inv (p_extents p') (p_total_size p').
Proof.
  intros Hinv. unfold step.
  repeat match goal with
  | |- context [if ?b then Ok (set_state _ _) else _] =>
      destruct b; [intros H; inversion H; subst p'; exact Hinv|]
  end.
  destruct (state p).
  - intros H; inversion H; subst p'; exact Hinv.
  - destruct (Str.Contains _ _); intros H; inversion H; subst p'; exact Hinv.
  - intros H; inversion H; subst p'; exact Hinv.
  - destruct (FindStringSubmatch _) as [|g m] eqn:Hm.
    + intros H; inversion H; subst p'; exact Hinv.
    + apply add_extent_inv. exact Hinv.
  - intros H; inversion H; subst p'; exact Hinv.
Qed.

Lemma lines_loop_inv (lines : list string) (p p' : Parse) :
  parse_inv (p_extents p) (p_total_size p) ->
  lines_loop GetSparseExtent opener p lines = Ok p' ->
  parse_inv (p_extents p') (p_total_size p').
Proof.
  revert p. induction lines as [|line rest IH]; simpl; intros p Hinv H.
  - inversion H; subst p'; exact Hinv.
  - unfold bind in H.
    destruct (step GetSparseExtent opener p line) as [p1|e|msg] eqn:Hstep;
      try discriminate.
    apply (IH p1); [|exact H].
    apply (step_inv p p1 line Hinv Hstep).
Qed.

(** What [GetVMDKContext] returns was read from a loop that ended well. *)
Lemma GetVMDKContext_Ok (reader : ReaderAt) (size : Z) (ctx : VMDKContext) :
  GetVMDKContext GetSparseExtent opener reader size = Ok ctx ->
  exists (p0 p : Parse) (lines : list string),
    p_extents p0 = [] /\ p_total_size p0 = 0
    /\ lines_loop GetSparseExtent opener p0 lines = Ok p
    /\ ctx = normalizeExtents
               (mkVMDKContext (p_config p) reader (p_extents p) (p_total_size p)).
Proof.
  unfold GetVMDKContext.
  destruct ((if size >? 64 * 1024 then 64 * 1024 else size) <? 0); [discriminate|].
  destruct (io_ReadAt reader _ 0) as [[buf n] err].
  destruct (is_real_error err); [destruct err; discriminate|].
  destruct (blen buf <? 4); [discriminate|].
  unfold bind.
  match goal with
  | |- context [lines_loop _ _ ?p0 ?ls] =>
      destruct (lines_loop GetSparseExtent opener p0 ls) as [p|e|msg] eqn:Hloop;
        try discriminate;
      intros H; inversion H; exists p0, p, ls
  end.
  repeat split; auto.
Qed.

End OpenInvariant.


(** ** The read path *)

Lemma zero_fill_length (b : Buffer) (n : Z) : length (zero_fill b n) = length b.
Proof.
  unfold zero_fill, zeros. rewrite length_app, repeat_length, length_skipn. lia.
Qed.

(** An extent writes within the buffer it is given and reports a count
    between 0 and the length of that buffer. *)
Lemma Extent_ReadAt_shape (e : Extent) (buf : Buffer) (off : Z) :
  length (fst (fst (Extent_ReadAt e buf off))) = length buf
  /\ 0 <= snd (fst (Extent_ReadAt e buf off)) <= blen buf.
Proof.
  pose proof (blen_nonneg buf) as Hb.
  destruct e as [f|s|n]; simpl.
  - unfold FlatExtent_ReadAt.
    destruct ((off <? 0) || (off >=? flat_total_size f)); simpl; [split; [reflexivity|lia]|].
    match goal with
    | |- context [io_ReadAt ?r ?p ?o] =>
        pose proof (io_ReadAt_length r p o) as Hl;
        pose proof (io_ReadAt_count r p o) as Hc;
        destruct (io_ReadAt r p o) as [[sub k] err]
    end.
    simpl in *. unfold blen in *. rewrite length_firstn in Hc.
    rewrite length_app, Hl, length_firstn, length_skipn. split; lia.
  - unfold SparseExtent_ReadAt.
    pose proof (io_ReadAt_length (mkReaderAt (sparse_read s) (sparse_scratch s)) buf off) as Hl.
    pose proof (io_ReadAt_count (mkReaderAt (sparse_read s) (sparse_scratch s)) buf off) as Hc.
    split; assumption.
  - unfold NullExtent_ReadAt.
    destruct (off <? 0) eqn:Hneg; simpl; [split; [reflexivity|lia]|].
    destruct (off >=? null_total_size n) eqn:Hpast; simpl; [split; [reflexivity|lia]|].
    rewrite Z.geb_leb in Hpast. apply Z.leb_gt in Hpast.
    rewrite zero_fill_length. split; [reflexivity|lia].
Qed.

(** The loop of [ReadAt] ends within the turns it is given. *)
Lemma ReadAt_loop_total (self : VMDKContext) (len buf_len offset : Z) :
  forall (fuel : nat) (arr : Buffer) (i : Z),
    (Z.to_nat (buf_len - i) < fuel)%nat ->
    exists r, ReadAt_loop fuel self arr len buf_len offset i = Some r.
Proof.
  induction fuel as [|fuel IH]; intros arr i Hfuel; [lia|].
  simpl. destruct (i <? buf_len) eqn:Hi; [|eexists; reflexivity].
  apply Z.ltb_lt in Hi.
  destruct (getExtentForOffset self (Int64.add offset i)) as [extent|e|msg];
    [|eexists; reflexivity|eexists; reflexivity].
  match goal with
  | |- context [if ?c <? 0 then _ else _] => destruct (c <? 0)
  end; [eexists; reflexivity|].
  match goal with
  | |- context [Extent_ReadAt ?e ?b ?o] =>
      pose proof (Extent_ReadAt_shape e b o) as (_ & Hn);
      destruct (Extent_ReadAt e b o) as [[sub n] err]
  end.
  simpl in Hn.
  destruct (is_real_error err); [eexists; reflexivity|].
  destruct (n =? 0) eqn:Hn0; [eexists; reflexivity|].
  apply Z.eqb_neq in Hn0. apply IH. lia.
Qed.

(** The loop of [ReadAt] never reports EOF. *)
Lemma ReadAt_loop_no_EOF (self : VMDKContext) (len buf_len offset : Z) :
  forall (fuel : nat) (arr : Buffer) (i : Z) (b : Buffer) (n : Z) (err : option error),
    ReadAt_loop fuel self arr len buf_len offset i = Some (Returns (b, n, err)) ->
    err <> Some EOF.
Proof.
  induction fuel as [|fuel IH]; intros arr i b n err; simpl; [discriminate|].
  destruct (i <? buf_len); [|intros H; inversion H; discriminate].
  destruct (getExtentForOffset self (Int64.add offset i)) as [extent|e|msg];
    [|intros H; inversion H; discriminate|discriminate].
  match goal with
  | |- context [if ?c <? 0 then _ else _] => destruct (c <? 0)
  end; [discriminate|].
  match goal with
  | |- context [Extent_ReadAt ?e ?b ?o] =>
      destruct (Extent_ReadAt e b o) as [[sub k] err']
  end.
  destruct (is_real_error err') eqn:Hreal.
  - intros H; inversion H; subst. intros ->. discriminate.
  - destruct (k =? 0); [intros H; inversion H; discriminate|].
    apply IH.
Qed.

(** [VMDKContext.ReadAt] always comes back with what its loop has
    computed: the turns it is given are enough. *)
Lemma VMDKContext_ReadAt_loop (ctx : VMDKContext) (buf : Buffer) (offset : Z) :
  0 <= offset <= total_size ctx ->
  exists r,
    ReadAt_loop (S (length buf)) ctx buf
      (if blen buf >? Int64.sub (total_size ctx) offset
       then Int64.sub (total_size ctx) offset else blen buf)
      (blen buf) offset 0 = Some r
    /\ VMDKContext_ReadAt ctx buf offset = r.
Proof.
  intros [Hlo Hhi]. unfold VMDKContext_ReadAt.
  replace (offset >? total_size ctx) with false
    by (symmetry; rewrite Z.gtb_ltb; apply Z.ltb_ge; lia).
  replace (offset <? 0) with false by (symmetry; apply Z.ltb_ge; lia).
  cbn [orb].
  match goal with
  | |- context [ReadAt_loop ?f ?s ?a ?l ?bl ?o ?i] =>
      destruct (ReadAt_loop_total s l bl o f a i) as (r & Hr);
        [unfold blen; lia|]
  end.
  exists r. rewrite Hr. split; reflexivity.
Qed.

Lemma normalized_total_nonneg (ctx : VMDKContext) :
  normalized ctx -> 0 <= total_size ctx.
Proof.
  intros (Hc & Ht & _). rewrite Ht. apply (contiguous_sum_nonneg _ _ Hc).
Qed.

Lemma normalized_last_end (ctx : VMDKContext) (e : Extent) :
  normalized ctx ->
  nth_error (extents ctx) (length (extents ctx) - 1) = Some e ->
  VirtualOffset e + TotalSize e = total_size ctx /\ 0 <= TotalSize e.
Proof.
  intros (Hc & Ht & _) Ee.
  assert (Hlen : (length (extents ctx) - 1 < length (extents ctx))%nat)
    by (apply nth_error_Some; congruence).
  destruct (contiguous_nth _ _ _ _ Hc Ee) as (Hvo & Hsz & Hstep & _).
  replace (S (length (extents ctx) - 1)) with (length (extents ctx)) in Hstep by lia.
  rewrite firstn_all in Hstep. split; lia.
Qed.

(** Reading an empty window at the end of an extent. *)
Lemma Extent_ReadAt_at_end (e : Extent) :
  0 <= TotalSize e ->
  exists err,
    Extent_ReadAt e [] (TotalSize e) = ([], 0, err)
    /\ ((forall s, e <> Sparse s) -> err = Some EOF).
Proof.
  intros Hsz. destruct e as [f|s|n]; simpl in *.
  - exists (Some EOF). unfold FlatExtent_ReadAt, FlatExtent_TotalSize in *.
    replace (flat_total_size f >=? flat_total_size f) with true
      by (symmetry; apply Z.geb_le; lia).
    rewrite orb_true_r. split; [reflexivity | intros _; reflexivity].
  - unfold SparseExtent_ReadAt, io_ReadAt. simpl.
    destruct (sparse_read s 0%nat (sparse_total_size s)) as [data err]. simpl.
    exists err. split; [|intros H; exfalso; apply (H s); reflexivity].
    destruct (sparse_scratch s [] (sparse_total_size s)) as [|b q]; reflexivity.
  - exists (Some EOF). unfold NullExtent_ReadAt.
    replace (null_total_size n >=? null_total_size n) with true
      by (symmetry; apply Z.geb_le; lia).
    rewrite orb_true_r. split; [reflexivity | intros _; reflexivity].
Qed.

(** At [offset == total_size] a normalized context reads nothing and
    reports no EOF. *)
Lemma ReadAt_at_total_size (ctx : VMDKContext) (buf : Buffer) :
  normalized ctx ->
  exists err,
    VMDKContext_ReadAt ctx buf (total_size ctx) = Returns (buf, 0, err)
    /\ err <> Some EOF
    /\ ((forall s, nth_error (extents ctx) (length (extents ctx) - 1) <> Some (Sparse s)) ->
        err = None).
Proof.
  intros Hnorm. pose proof (normalized_total_nonneg ctx Hnorm) as Hpos.
  pose proof Hnorm as (Hc & Ht & Hmax).
  unfold VMDKContext_ReadAt.
  replace (total_size ctx >? total_size ctx) with false
    by (symmetry; rewrite Z.gtb_ltb; apply Z.ltb_ge; lia).
  replace (total_size ctx <? 0) with false by (symmetry; apply Z.ltb_ge; lia).
  cbn [orb].
  rewrite (sub_small (total_size ctx) (total_size ctx)) by int64_range.
  replace (total_size ctx - total_size ctx) with 0 by lia.
  pose proof (blen_nonneg buf) as Hb.
  assert (Hlen : (if blen buf >? 0 then 0 else blen buf) = 0).
  { destruct (blen buf >? 0) eqn:H; [reflexivity|].
    rewrite Z.gtb_ltb in H. apply Z.ltb_ge in H. lia. }
  rewrite Hlen. cbn [ReadAt_loop].
  destruct (0 <? blen buf) eqn:Hnonempty.
  2:{ exists None. repeat split; auto; discriminate. }
  apply Z.ltb_lt in Hnonempty.
  rewrite (add_small (total_size ctx) 0) by int64_range.
  replace (total_size ctx + 0) with (total_size ctx) by lia.
  destruct (nth_error (extents ctx) (length (extents ctx) - 1)) as [e|] eqn:Elast.
  - rewrite (getExtentForOffset_at_end ctx e Hnorm Elast).
    destruct (normalized_last_end ctx e Hnorm Elast) as (Hsum & Hsz).
    assert (Hvo : 0 <= VirtualOffset e)
      by (apply (normalized_end_in_range ctx _ e Hnorm Elast)).
    rewrite (sub_small (total_size ctx) (VirtualOffset e)) by int64_range.
    replace (total_size ctx - VirtualOffset e) with (TotalSize e) by lia.
    rewrite (sub_small (TotalSize e) (TotalSize e)) by int64_range.
    replace (TotalSize e - TotalSize e) with 0 by lia.
    replace (blen buf - 0 >? 0) with true by (symmetry; apply Z.gtb_lt; lia).
    replace (0 <? 0) with false by reflexivity.
    change (slice buf 0 (0 + 0)) with (@nil byte).
    destruct (Extent_ReadAt_at_end e Hsz) as (err & Hread & Hflat).
    rewrite Hread. change (splice buf 0 []) with buf.
    destruct (is_real_error err) eqn:Hreal.
    + exists err. split; [reflexivity|]. split.
      * intros ->. discriminate.
      * intros Hns. rewrite Hflat in Hreal; [discriminate|].
        intros s ->. apply (Hns s). reflexivity.
    + exists None. repeat split; auto; discriminate.
  - apply nth_error_None in Elast.
    assert (Hnil : extents ctx = []).
    { destruct (extents ctx); [reflexivity | simpl in Elast; lia]. }
    rewrite getExtentForOffset_eq, Hnil. cbn.
    exists None. repeat split; auto; discriminate.
Qed.

(** C1, as the code has it. The top-level [ReadAt] answers [(0, EOF)] for
    every offset below 0 or above [total_size], and for no other offset: at
    [offset == total_size] the guard lets the call through, and on a
    normalized context the call returns 0 bytes without EOF. *)
Theorem read_at_eof_guard (ctx : VMDKContext) (buf : Buffer) (offset : Z) :
  (offset < 0 \/ total_size ctx < offset ->
     VMDKContext_ReadAt ctx buf offset = Returns (buf, 0, Some EOF))
  /\ (0 <= offset <= total_size ctx ->
      forall b n err,
        VMDKContext_ReadAt ctx buf offset = Returns (b, n, err) -> err <> Some EOF)
  /\ (normalized ctx ->
      exists err,
        VMDKContext_ReadAt ctx buf (total_size ctx) = Returns (buf, 0, err)
        /\ err <> Some EOF
        /\ ((forall s, nth_error (extents ctx) (length (extents ctx) - 1)
                       <> Some (Sparse s)) -> err = None)).
Proof.
  split; [|split].
  - intros Hout. unfold VMDKContext_ReadAt.
    destruct Hout as [Hneg|Hpast].
    + apply Z.ltb_lt in Hneg. rewrite Hneg, orb_true_r. reflexivity.
    + replace (offset >? total_size ctx) with true
        by (symmetry; apply Z.gtb_lt; lia).
      reflexivity.
  - intros Hin b n err Hret.
    destruct (VMDKContext_ReadAt_loop ctx buf offset Hin) as (r & Hloop & Hr).
    rewrite Hr in Hret. subst r.
    apply (ReadAt_loop_no_EOF _ _ _ _ _ _ _ _ _ _ Hloop).
  - apply ReadAt_at_total_size.
Qed.

(** ** The magic number *)

(** C10, as the code has it. [GetVMDKContext] slices the first four bytes
    of its buffer whatever the declared size, after the first read. With
    a negative size it panics on [make], before it reads. With a size from
    0 to 3 it panics on the slice when the first read has gone through or
    has ended with EOF, and it returns the error of the first read when
    that is another error. Whenever it returns a context the size was at
    least 4. *)
Theorem open_short_input_panics
    (GetSparseExtent : ReaderAt -> outcome SparseExtent) (opener : Opener)
    (reader : ReaderAt) (size : Z) :
  (size < 0 ->
   GetVMDKContext GetSparseExtent opener reader size
   = Panic "makeslice: len out of range")
  /\ (0 <= size < 4 ->
      (is_real_error (snd (reader_at reader (Z.to_nat size) 0)) = false ->
       GetVMDKContext GetSparseExtent opener reader size
       = Panic "slice bounds out of range")
      /\ (forall err,
            snd (reader_at reader (Z.to_nat size) 0) = Some err ->
            is_real_error (Some err) = true ->
            GetVMDKContext GetSparseExtent opener reader size = Err err))
  /\ (forall ctx, GetVMDKContext GetSparseExtent opener reader size = Ok ctx ->
      4 <= size).
Proof.
  assert (Hneg : size < 0 ->
            GetVMDKContext GetSparseExtent opener reader size
            = Panic "makeslice: len out of range").
  { intros Hlt. unfold GetVMDKContext.
    replace (size >? 64 * 1024) with false
      by (symmetry; rewrite Z.gtb_ltb; apply Z.ltb_ge; lia).
    apply Z.ltb_lt in Hlt. rewrite Hlt. reflexivity. }
  assert (Hshort : 0 <= size < 4 ->
            GetVMDKContext GetSparseExtent opener reader size
            = match snd (reader_at reader (Z.to_nat size) 0) with
              | Some err =>
                  if is_real_error (Some err) then Err err
                  else Panic "slice bounds out of range"
              | None => Panic "slice bounds out of range"
              end).
  { intros [Hlo Hhi]. unfold GetVMDKContext.
    replace (size >? 64 * 1024) with false
      by (symmetry; rewrite Z.gtb_ltb; apply Z.ltb_ge; lia).
    replace (size <? 0) with false by (symmetry; apply Z.ltb_ge; lia).
    pose proof (io_ReadAt_length reader (zeros (Z.to_nat size)) 0) as Hl.
    assert (Herr : snd (io_ReadAt reader (zeros (Z.to_nat size)) 0)
                   = snd (reader_at reader (Z.to_nat size) 0)).
    { unfold io_ReadAt, zeros. rewrite repeat_length.
      destruct (reader_at reader (Z.to_nat size) 0) as [data err]. reflexivity. }
    destruct (io_ReadAt reader (zeros (Z.to_nat size)) 0) as [[buf n] err].
    cbn [fst snd] in Hl, Herr. rewrite <- Herr.
    unfold zeros in Hl. rewrite repeat_length in Hl.
    assert (Hb : (blen buf <? 4) = true)
      by (apply Z.ltb_lt; unfold blen; rewrite Hl; lia).
    destruct err as [err|].
    - destruct (is_real_error (Some err)); [reflexivity|]. rewrite Hb. reflexivity.
    - cbn [is_real_error]. rewrite Hb. reflexivity. }
  split; [exact Hneg|]. split.
  - intros Hsz. rewrite (Hshort Hsz). split.
    + intros Hread.
      destruct (snd (reader_at reader (Z.to_nat size) 0)) as [err|]; [|reflexivity].
      rewrite Hread. reflexivity.
    + intros err -> Hreal. rewrite Hreal. reflexivity.
  - intros ctx Hopen. destruct (Z.lt_ge_cases size 4) as [Hlt|Hge]; [|exact Hge].
    exfalso. destruct (Z.lt_ge_cases size 0) as [Hn|Hp].
    + rewrite (Hneg Hn) in Hopen. discriminate.
    + rewrite (Hshort ltac:(lia)) in Hopen.
      destruct (snd (reader_at reader (Z.to_nat size) 0)) as [err|];
        [destruct (is_real_error (Some err))|]; discriminate.
Qed.

(** ** The extent line and its regular expression *)

Section ExtentLine.

Local Open Scope string_scope.

Lemma append_assoc (a b c : string) : (a ++ b) ++ c = a ++ (b ++ c).
Proof. induction a as [|x a IH]; simpl; [reflexivity | rewrite IH; reflexivity]. Qed.

Lemma expect_Some (c : ascii) (s r : string) :
  expect c s = Some r <-> s = String c r.
Proof.
  unfold expect. destruct s as [|c' s'].
  - split; discriminate.
  - destruct (Ascii.eqb c' c) eqn:E.
    + apply Ascii.eqb_eq in E. subst c'. split; intros H; inversion H; reflexivity.
    + apply Ascii.eqb_neq in E. split; [discriminate|].
      intros H; inversion H; congruence.
Qed.

Lemma span_spec (p : ascii -> bool) (s a b : string) :
  Str.span p s = (a, b) -> s = a ++ b /\ all_chars p a = true.
Proof.
  revert a b. induction s as [|c s IH]; simpl; intros a b H.
  - inversion H. split; reflexivity.
  - destruct (p c) eqn:Hc.
    + destruct (Str.span p s) as [a' b'] eqn:Hs. inversion H; subst a b.
      destruct (IH a' b' eq_refl) as (-> & Hall). simpl. rewrite Hc, Hall.
      split; reflexivity.
    + inversion H; subst a b. split; reflexivity.
Qed.

Lemma span_app (p : ascii -> bool) (a : string) (c : ascii) (r : string) :
  all_chars p a = true -> p c = false ->
  Str.span p (a ++ String c r) = (a, String c r).
Proof.
  intros Ha Hc. induction a as [|x a IH]; simpl in *.
  - rewrite Hc. reflexivity.
  - apply andb_true_iff in Ha. destruct Ha as (Hx & Ha).
    rewrite Hx, (IH Ha). reflexivity.
Qed.

Lemma lang_Lit (c : ascii) (s : string) : lang (Lit c) s <-> s = String c "".
Proof.
  unfold Lit. simpl. split.
  - intros (c' & -> & H). apply Ascii.eqb_eq in H. subst c'. reflexivity.
  - intros ->. exists c. split; [reflexivity | apply Ascii.eqb_refl].
Qed.

Lemma lang_Star_Class (p : ascii -> bool) (s : string) :
  lang (Star (Class p)) s <-> all_chars p s = true.
Proof.
  simpl. split.
  - intros (ss & -> & Hall). induction Hall as [|x ss Hx _ IH]; simpl.
    + reflexivity.
    + destruct Hx as (c & -> & Hc). simpl. rewrite Hc, IH. reflexivity.
  - intros Hall. induction s as [|c s IH]; simpl in Hall.
    + exists []%list. split; [reflexivity | constructor].
    + apply andb_true_iff in Hall. destruct Hall as (Hc & Hs).
      destruct (IH Hs) as (ss & -> & Hss).
      exists (String c "" :: ss)%list. split; [reflexivity|].
      constructor; [|exact Hss]. exists c. split; [reflexivity | exact Hc].
Qed.

Lemma lang_Plus_Class (p : ascii -> bool) (s : string) :
  lang (Plus (Class p)) s <-> s <> "" /\ all_chars p s = true.
Proof.
  unfold Plus. split.
  - intros (s1 & s2 & -> & (c & -> & Hc) & Hstar).
    apply lang_Star_Class in Hstar. simpl. rewrite Hc, Hstar.
    split; [discriminate | reflexivity].
  - intros (Hne & Hall). destruct s as [|c s]; [congruence|].
    simpl in Hall. apply andb_true_iff in Hall. destruct Hall as (Hc & Hs).
    exists (String c ""), s. split; [reflexivity|]. split.
    + exists c. split; [reflexivity | exact Hc].
    + apply lang_Star_Class. exact Hs.
Qed.

Lemma plus_spec (p : ascii -> bool) (s a b : string) :
  plus p s = Some (a, b) -> s = a ++ b /\ lang (Plus (Class p)) a.
Proof.
  unfold plus. destruct (Str.span p s) as [a' b'] eqn:Hs.
  destruct (span_spec p s a' b' Hs) as (Hsplit & Hall).
  destruct a' as [|c a']; [discriminate|].
  intros H; inversion H; subst a b. split; [exact Hsplit|].
  apply lang_Plus_Class. split; [discriminate | exact Hall].
Qed.

Lemma plus_complete (p : ascii -> bool) (a : string) (c : ascii) (r : string) :
  lang (Plus (Class p)) a -> p c = false ->
  plus p (a ++ String c r) = Some (a, String c r).
Proof.
  intros Ha Hc. apply lang_Plus_Class in Ha. destruct Ha as (Hne & Hall).
  unfold plus. rewrite (span_app p a c r Hall Hc).
  destruct a; [congruence | reflexivity].
Qed.

Lemma opt_offset_sound (s g5 tail : string) :
  opt_offset s = (g5, tail) ->
  exists post, s = tail ++ post
    /\ lang (Opt (Cat (Lit " ") (Plus (Class is_digit)))) tail.
Proof.
  unfold opt_offset. destruct (expect " " s) as [s1|] eqn:E1.
  - apply expect_Some in E1. subst s.
    destruct (plus is_digit s1) as [[g r]|] eqn:E2.
    + destruct (plus_spec _ _ _ _ E2) as (-> & Hg).
      intros H; inversion H; subst g5 tail. exists r. split; [reflexivity|].
      left. exists " ", g. split; [reflexivity|]. split; [|exact Hg].
      apply lang_Lit. reflexivity.
    + intros H; inversion H; subst. eexists. split; [reflexivity|].
      right. reflexivity.
  - intros H; inversion H; subst. exists s. split; [reflexivity|].
    right. reflexivity.
Qed.

Lemma ExtentRegex_tail_sound (g1 s : string) (m : list string) :
  ExtentRegex_tail g1 s = Some m ->
  exists w post, s = w ++ post /\ lang ExtentRegex_rest w /\ length m = 6%nat.
Proof.
  unfold ExtentRegex_tail.
  destruct (expect " " s) as [s1|] eqn:E1; [|discriminate].
  destruct (plus is_digit s1) as [[g2 s2]|] eqn:E2; [|discriminate].
  destruct (expect " " s2) as [s3|] eqn:E3; [|discriminate].
  destruct (plus is_upper s3) as [[g3 s4]|] eqn:E4; [|discriminate].
  destruct (expect " " s4) as [s5|] eqn:E5; [|discriminate].
  destruct (expect dquote s5) as [s6|] eqn:E6; [|discriminate].
  destruct (plus not_quote s6) as [[g4 s7]|] eqn:E7; [|discriminate].
  destruct (expect dquote s7) as [s8|] eqn:E8; [|discriminate].
  destruct (opt_offset s8) as [g5 tail] eqn:E9.
  intros H; inversion H; subst m; clear H.
  apply expect_Some in E1, E3, E5, E6, E8.
  destruct (plus_spec _ _ _ _ E2) as (H2 & L2).
  destruct (plus_spec _ _ _ _ E4) as (H4 & L4).
  destruct (plus_spec _ _ _ _ E7) as (H7 & L7).
  destruct (opt_offset_sound _ _ _ E9) as (post & H9 & L9).
  subst.
  exists (" " ++ g2 ++ " " ++ g3 ++ " " ++ String dquote g4 ++ String dquote tail), post.
  split; [|split; [|reflexivity]].
  - simpl. rewrite !append_assoc. simpl. rewrite !append_assoc. simpl.
    rewrite !append_assoc. reflexivity.
  - unfold ExtentRegex_rest. cbn [sequence].
    exists " ". eexists. split; [reflexivity|]. split; [apply lang_Lit; reflexivity|].
    exists g2. eexists. split; [reflexivity|]. split; [exact L2|].
    exists " ". eexists. split; [reflexivity|]. split; [apply lang_Lit; reflexivity|].
    exists g3. eexists. split; [reflexivity|]. split; [exact L4|].
    exists " ". eexists. split; [reflexivity|]. split; [apply lang_Lit; reflexivity|].
    exists (String dquote ""). eexists. split; [reflexivity|].
    split; [apply lang_Lit; reflexivity|].
    exists g4. eexists. split; [reflexivity|]. split; [exact L7|].
    exists (String dquote ""). eexists. split; [reflexivity|].
    split; [apply lang_Lit; reflexivity|].
    exact L9.
Qed.

Lemma HasPrefix_drop (p s : string) :
  Str.HasPrefix s p = true -> s = p ++ Str.drop (String.length p) s.
Proof.
  unfold Str.HasPrefix. revert s. induction p as [|c p IH]; intros s H.
  - reflexivity.
  - destruct s as [|c' s]; simpl in H; [discriminate|].
    destruct (ascii_dec c c') as [->|]; [|discriminate].
    simpl. rewrite <- (IH s H). reflexivity.
Qed.

Lemma ExtentRegex_at_sound (t : string) (m : list string) :
  ExtentRegex_at t = Some m ->
  exists w post, t = w ++ post /\ lang ExtentRegex w /\ length m = 6%nat.
Proof.
  unfold ExtentRegex_at.
  assert (HR : (if Str.HasPrefix t "R" then ExtentRegex_tail "R" (Str.drop 1 t) else None)
               = Some m ->
               exists w post, t = w ++ post /\ lang ExtentRegex w /\ length m = 6%nat).
  { destruct (Str.HasPrefix t "R") eqn:HpR; [|discriminate].
    intros Ht. apply HasPrefix_drop in HpR. simpl in HpR.
    destruct (ExtentRegex_tail_sound _ _ _ Ht) as (w & post & Hw & Hl & Hlen).
    exists ("R" ++ w), post. split; [|split; [|exact Hlen]].
    - rewrite HpR at 1. simpl in *. rewrite Hw. reflexivity.
    - exists "R", w. split; [reflexivity|]. split; [|exact Hl].
      right. apply lang_Lit. reflexivity. }
  destruct (Str.HasPrefix t "RW") eqn:HpRW; [|exact HR].
  destruct (ExtentRegex_tail "RW" (Str.drop 2 t)) as [m'|] eqn:Ht; [|exact HR].
  intros H; inversion H; subst m'; clear H.
  apply HasPrefix_drop in HpRW. simpl in HpRW.
  destruct (ExtentRegex_tail_sound _ _ _ Ht) as (w & post & Hw & Hl & Hlen).
  exists ("RW" ++ w), post. split; [|split; [|exact Hlen]].
  - rewrite HpRW at 1. simpl in *. rewrite Hw. reflexivity.
  - exists "RW", w. split; [reflexivity|]. split; [|exact Hl].
    left. exists "R", "W". split; [reflexivity|].
    split; apply lang_Lit; reflexivity.
Qed.

Lemma expect_hit (c : ascii) (r : string) : expect c (String c r) = Some r.
Proof. apply expect_Some. reflexivity. Qed.

Lemma ExtentRegex_tail_complete (g1 w post : string) :
  lang ExtentRegex_rest w ->
  exists m, ExtentRegex_tail g1 (w ++ post) = Some m.
Proof.
  unfold ExtentRegex_rest. cbn [sequence].
  intros (a1 & r1 & -> & L1 & a2 & r2 & -> & L2 & a3 & r3 & -> & L3
          & a4 & r4 & -> & L4 & a5 & r5 & -> & L5 & a6 & r6 & -> & L6
          & a7 & r7 & -> & L7 & a8 & a9 & -> & L8 & L9).
  apply lang_Lit in L1, L3, L5, L6, L8. subst a1 a3 a5 a6 a8.
  rewrite !append_assoc. cbn [append].
  unfold ExtentRegex_tail.
  rewrite expect_hit.
  rewrite (plus_complete is_digit a2 " " _ L2 eq_refl).
  rewrite expect_hit.
  rewrite (plus_complete is_upper a4 " " _ L4 eq_refl).
  rewrite !expect_hit.
  rewrite (plus_complete not_quote a7 dquote _ L7 eq_refl).
  rewrite expect_hit.
  destruct (opt_offset (a9 ++ post)) as [g5 tail]. eexists. reflexivity.
Qed.

Lemma HasPrefix_nil (s : string) : Str.HasPrefix s "" = true.
Proof. destruct s; reflexivity. Qed.

Lemma HasPrefix_cons (c : ascii) (s p : string) :
  Str.HasPrefix (String c s) (String c p) = Str.HasPrefix s p.
Proof.
  unfold Str.HasPrefix. simpl. destruct (ascii_dec c c); [reflexivity | congruence].
Qed.

Lemma HasPrefix_other (c c' : ascii) (s p : string) :
  c <> c' -> Str.HasPrefix (String c s) (String c' p) = false.
Proof.
  intros Hne. unfold Str.HasPrefix. simpl.
  destruct (ascii_dec c' c); [congruence | reflexivity].
Qed.

Lemma ExtentRegex_at_complete (w post : string) :
  lang ExtentRegex w -> exists m, ExtentRegex_at (w ++ post) = Some m.
Proof.
  change ExtentRegex
    with (Cat (Alt (Cat (Lit "R") (Lit "W")) (Lit "R")) ExtentRegex_rest).
  intros (s1 & s2 & -> & Hmode & Hrest).
  rewrite append_assoc.
  destruct (ExtentRegex_tail_complete "RW" s2 post Hrest) as (mRW & HmRW).
  destruct (ExtentRegex_tail_complete "R" s2 post Hrest) as (mR & HmR).
  unfold ExtentRegex_at.
  destruct Hmode as [(a & b & -> & La & Lb) | LR].
  - apply lang_Lit in La, Lb. subst a b. cbn [append].
    rewrite !HasPrefix_cons, HasPrefix_nil. cbn [Str.drop].
    rewrite HmRW. eexists. reflexivity.
  - apply lang_Lit in LR. subst s1.
    assert (Hsp : exists r, s2 = String " " r).
    { revert Hrest. unfold ExtentRegex_rest. cbn [sequence].
      intros (a1 & r1 & -> & L1 & _). apply lang_Lit in L1. subst a1.
      eexists. reflexivity. }
    destruct Hsp as (r & ->). cbn [append] in *.
    rewrite (HasPrefix_cons "R" _ "W"), (HasPrefix_other " " "W") by discriminate.
    rewrite HasPrefix_cons, HasPrefix_nil. cbn [Str.drop].
    rewrite HmR. eexists. reflexivity.
Qed.

Lemma FindStringSubmatch_eq (s : string) :
  FindStringSubmatch s =
  match ExtentRegex_at s with
  | Some m => m
  | None =>
      match s with
      | EmptyString => []%list
      | String _ rest => FindStringSubmatch rest
      end
  end.
Proof. destruct s; reflexivity. Qed.

Lemma FindStringSubmatch_sound (s : string) :
  FindStringSubmatch s <> []%list ->
  exists pre t, s = pre ++ t /\ ExtentRegex_at t = Some (FindStringSubmatch s).
Proof.
  induction s as [|c s IH]; rewrite FindStringSubmatch_eq.
  - destruct (ExtentRegex_at "") as [m|] eqn:E; [|congruence].
    intros _. exists "", "". split; [reflexivity | exact E].
  - destruct (ExtentRegex_at (String c s)) as [m|] eqn:E.
    + intros _. exists "", (String c s). split; [reflexivity | exact E].
    + intros Hne. destruct (IH Hne) as (pre & t & -> & Ht).
      exists (String c pre), t. split; [reflexivity | exact Ht].
Qed.

Lemma FindStringSubmatch_complete (pre t : string) (m : list string) :
  ExtentRegex_at t = Some m -> FindStringSubmatch (pre ++ t) <> []%list.
Proof.
  intros Ht. destruct (ExtentRegex_at_sound t m Ht) as (_ & _ & _ & _ & Hlen).
  induction pre as [|c pre IH]; cbn [append]; rewrite FindStringSubmatch_eq.
  - rewrite Ht. intros ->. discriminate.
  - destruct (ExtentRegex_at (String c (pre ++ t))) as [m'|] eqn:E; [|exact IH].
    destruct (ExtentRegex_at_sound _ _ E) as (_ & _ & _ & _ & Hlen').
    intros ->. discriminate.
Qed.

(** [FindStringSubmatch] finds a match exactly on the lines that hold one
    of [ExtentRegex]. *)
Lemma FindStringSubmatch_iff (s : string) :
  FindStringSubmatch s <> []%list <-> contains_match ExtentRegex s.
Proof.
  split.
  - intros Hne. destruct (FindStringSubmatch_sound s Hne) as (pre & t & -> & Ht).
    destruct (ExtentRegex_at_sound _ _ Ht) as (w & post & -> & Hw & _).
    exists pre, w, post. split; [reflexivity | exact Hw].
  - intros (pre & w & post & -> & Hw).
    destruct (ExtentRegex_at_complete w post Hw) as (m & Hm).
    apply (FindStringSubmatch_complete pre (w ++ post) m Hm).
Qed.

Lemma FindStringSubmatch_length (s : string) :
  FindStringSubmatch s = []%list \/ length (FindStringSubmatch s) = 6%nat.
Proof.
  destruct (FindStringSubmatch s) as [|g m] eqn:E; [left; reflexivity|right].
  assert (Hne : FindStringSubmatch s <> []%list) by (rewrite E; discriminate).
  destruct (FindStringSubmatch_sound s Hne) as (pre & t & _ & Ht).
  destruct (ExtentRegex_at_sound _ _ Ht) as (_ & _ & _ & _ & Hlen).
  rewrite E in Hlen. exact Hlen.
Qed.

End ExtentLine.

(** ** The loop over the lines *)

Section Loop.

Variable GetSparseExtent : ReaderAt -> outcome SparseExtent.
Variable opener : Opener.

Lemma GetVMDKContext_eq (reader : ReaderAt) (size : Z) :
  GetVMDKContext GetSparseExtent opener reader size =
  bind (open_prologue reader size) (fun start =>
    bind (lines_loop GetSparseExtent opener
            (mkParse (fst start) NewVMDKConfig [] 0) (snd start))
      (fun p => Ok (normalizeExtents
                      (mkVMDKContext (p_config p) reader (p_extents p)
                         (p_total_size p))))).
Proof.
  unfold GetVMDKContext, open_prologue.
  destruct ((if size >? 64 * 1024 then 64 * 1024 else size) <? 0); [reflexivity|].
  destruct (io_ReadAt reader _ 0) as [[buf n] err].
  destruct (is_real_error err); [destruct err; reflexivity|].
  destruct (blen buf <? 4); reflexivity.
Qed.

Lemma lines_loop_app (pre rest : list string) (p : Parse) :
  lines_loop GetSparseExtent opener p (pre ++ rest) =
  bind (lines_loop GetSparseExtent opener p pre)
    (fun p1 => lines_loop GetSparseExtent opener p1 rest).
Proof.
  revert p. induction pre as [|l pre IH]; intros p; simpl; [reflexivity|].
  destruct (step GetSparseExtent opener p l) as [p1|e|msg]; simpl;
    [apply IH | reflexivity | reflexivity].
Qed.

(** A line on which the body of the loop returns an error or panics ends
    [GetVMDKContext] with that error or that panic. *)
Lemma open_aborts_at (reader : ReaderAt) (size : Z)
    (p : Parse) (line : string) (rest : list string) :
  reaches GetSparseExtent opener reader size p line rest ->
  (forall e, step GetSparseExtent opener p line = Err e ->
     GetVMDKContext GetSparseExtent opener reader size = Err e)
  /\ (forall msg, step GetSparseExtent opener p line = Panic msg ->
        GetVMDKContext GetSparseExtent opener reader size = Panic msg).
Proof.
  intros (st0 & pre & Hpro & Hpre).
  split; intros x Hstep; rewrite GetVMDKContext_eq, Hpro; cbn [bind fst snd];
    rewrite lines_loop_app, Hpre; cbn [bind lines_loop]; rewrite Hstep; reflexivity.
Qed.

(** In the extent section, on a line that opens no section, the body of
    the loop is the lookup of [ExtentRegex]. *)
Lemma step_in_extents (p : Parse) (line : string) :
  state p = Extents -> no_header (Str.TrimSpace line) ->
  step GetSparseExtent opener p line =
  match FindStringSubmatch (Str.TrimSpace line) with
  | [] => Ok (set_state p INIT)
  | m => add_extent GetSparseExtent opener p m
  end.
Proof.
  intros Hst (H1 & H2 & H3). unfold step. rewrite H1, H2, H3, Hst. reflexivity.
Qed.

(** An extent line that goes through adds one extent and stays in the
    extent section. *)
Lemma add_extent_Ok (p p' : Parse) (m : list string) :
  add_extent GetSparseExtent opener p m = Ok p' ->
  state p' = state p /\ p_config p' = p_config p
  /\ exists e, p_extents p' = p_extents p ++ [e]
               /\ VirtualOffset e = p_total_size p
               /\ p_total_size p' = Int64.add (p_total_size p) (TotalSize e).
Proof.
  unfold add_extent, bind.
  destruct (opener (group m 4)) as [[rd cl]|e|msg]; try discriminate.
  destruct (String.eqb (group m 3) "SPARSE").
  - destruct (GetSparseExtent rd) as [ext|e|msg]; try discriminate.
    intros H; inversion H; subst p'; clear H.
    cbn [state p_config p_extents p_total_size].
    repeat split; auto. eexists. repeat split; reflexivity.
  - destruct (String.eqb (group m 3) "FLAT"); [|discriminate].
    destruct (ParseInt (group m 2)) as [sectors|e|msg]; try discriminate.
    destruct (ParseInt (group m 5)) as [offsetSectors|e|msg]; try discriminate.
    cbn. intros H; inversion H; subst p'; clear H.
    cbn [state p_config p_extents p_total_size].
    repeat split; auto. eexists. repeat split; reflexivity.
Qed.

End Loop.

(** C9, as the code has it. In the extent section, a line that opens no
    section is taken for an extent declaration exactly when it holds,
    anywhere, a match of [ExtentRegex], the expression without an anchor
    and with single spaces; then the body of the loop is [add_extent],
    which adds one extent and stays in the section when it goes through.
    On every other line the parser leaves the section and adds nothing. *)
Theorem extent_line_matching
    (GetSparseExtent : ReaderAt -> outcome SparseExtent) (opener : Opener)
    (p : Parse) (line : string) :
  state p = Extents -> no_header (Str.TrimSpace line) ->
  (FindStringSubmatch (Str.TrimSpace line) <> []
   <-> contains_match ExtentRegex (Str.TrimSpace line))
  /\ (~ contains_match ExtentRegex (Str.TrimSpace line) ->
      step GetSparseExtent opener p line = Ok (set_state p INIT))
  /\ (contains_match ExtentRegex (Str.TrimSpace line) ->
      step GetSparseExtent opener p line
      = add_extent GetSparseExtent opener p (FindStringSubmatch (Str.TrimSpace line))
      /\ forall p', step GetSparseExtent opener p line = Ok p' ->
           state p' = Extents /\ exists e, p_extents p' = p_extents p ++ [e]).
Proof.
  intros Hst Hhdr.
  pose proof (step_in_extents GetSparseExtent opener p line Hst Hhdr) as Hstep.
  pose proof (FindStringSubmatch_iff (Str.TrimSpace line)) as Hiff.
  split; [exact Hiff|]. split.
  - intros Hno. rewrite Hstep.
    destruct (FindStringSubmatch (Str.TrimSpace line)) as [|g m]; [reflexivity|].
    exfalso. apply Hno, Hiff. discriminate.
  - intros Hyes. apply Hiff in Hyes.
    assert (Hadd : step GetSparseExtent opener p line
                   = add_extent GetSparseExtent opener p
                       (FindStringSubmatch (Str.TrimSpace line))).
    { rewrite Hstep.
      destruct (FindStringSubmatch (Str.TrimSpace line)) as [|g m];
        [congruence | reflexivity]. }
    split; [exact Hadd|].
    intros p' Hok. rewrite Hadd in Hok.
    destruct (add_extent_Ok _ _ _ _ _ Hok) as (Hs & _ & e & He & _).
    split; [congruence|]. exists e. exact He.
Qed.

(** ** Kinds of extents and their numbers *)

Lemma step_on_match
    (GetSparseExtent : ReaderAt -> outcome SparseExtent) (opener : Opener)
    (p : Parse) (line : string) (m : list string) :
  state p = Extents -> no_header (Str.TrimSpace line) ->
  FindStringSubmatch (Str.TrimSpace line) = m -> m <> [] ->
  step GetSparseExtent opener p line = add_extent GetSparseExtent opener p m.
Proof.
  intros Hst Hhdr Hm Hne.
  rewrite (step_in_extents GetSparseExtent opener p line Hst Hhdr), Hm.
  destruct m; [congruence | reflexivity].
Qed.

Lemma ParseInt_inl (s : string) (n : Z) :
  strconv_ParseInt s = inl n -> ParseInt s = Ok n.
Proof. unfold ParseInt. intros ->. reflexivity. Qed.

Lemma ParseInt_inr (s : string) (err : error) :
  strconv_ParseInt s = inr err ->
  ParseInt s = Panic ("Invalid integer in descriptor: " ++ s).
Proof. unfold ParseInt. intros ->. reflexivity. Qed.

(** C2, as the code has it. On an extent line whose file the opener opens,
    [parser/context.go] builds for the kind [FLAT], with a sector count and
    a sector offset that are integers, a flat extent of that count and
    that offset whose virtual offset is the running [total_size]; every
    kind but [SPARSE] and [FLAT], [VMFS] among them, ends [GetVMDKContext]
    with the error of an unsupported extent type. The variant of the file
    that knows no settings builds the flat extent for [FLAT] and for [VMFS]
    alike, with the offset 0 when the line declares none. *)
Theorem extent_kinds
    (GetSparseExtent : ReaderAt -> outcome SparseExtent) (opener : Opener)
    (reader : ReaderAt) (size : Z) (p : Parse) (line : string)
    (rest : list string) (m : list string) (rd : ReaderAt) (cl : option Closer) :
  reaches GetSparseExtent opener reader size p line rest ->
  state p = Extents -> no_header (Str.TrimSpace line) ->
  FindStringSubmatch (Str.TrimSpace line) = m -> m <> [] ->
  opener (group m 4) = Ok (rd, cl) ->
  (group m 3 = "FLAT"%string ->
   forall S B,
     strconv_ParseInt (group m 2) = inl S ->
     strconv_ParseInt (group m 5) = inl B ->
     step GetSparseExtent opener p line =
     Ok (mkParse Extents (p_config p)
           (p_extents p ++
            [Flat {| flat_reader := rd;
                     flat_header := {| Reader := rd;
                                       Offset := Int64.mul B SECTOR_SIZE |};
                     flat_total_size := Int64.mul S SECTOR_SIZE;
                     flat_offset := p_total_size p;
                     flat_filename := group m 4;
                     flat_closer := cl |}])
           (Int64.add (p_total_size p) (Int64.mul S SECTOR_SIZE))))
  /\ (group m 3 <> "SPARSE"%string -> group m 3 <> "FLAT"%string ->
      GetVMDKContext GetSparseExtent opener reader size
      = Err (ErrMsg ("Unsupported extent type " ++ group m 3)))
  /\ (group m 3 = "VMFS"%string ->
      GetVMDKContext GetSparseExtent opener reader size
      = Err (ErrMsg "Unsupported extent type VMFS"))
  /\ (forall (q : Permissive.Parse) (S B : Z),
        group m 3 = "FLAT"%string \/ group m 3 = "VMFS"%string ->
        strconv_ParseInt (group m 2) = inl S ->
        (group m 5 = ""%string /\ B = 0)
        \/ (group m 5 <> ""%string /\ strconv_ParseInt (group m 5) = inl B) ->
        Permissive.add_extent GetSparseExtent opener q m =
        Ok (Permissive.mkParse (Permissive.state q)
              (Permissive.p_extents q ++
               [Flat {| flat_reader := rd;
                        flat_header := {| Reader := rd;
                                          Offset := Int64.mul B SECTOR_SIZE |};
                        flat_total_size := Int64.mul S SECTOR_SIZE;
                        flat_offset := Permissive.p_total_size q;
                        flat_filename := group m 4;
                        flat_closer := cl |}])
              (Int64.add (Permissive.p_total_size q) (Int64.mul S SECTOR_SIZE)))).
Proof.
  intros Hreach Hst Hhdr Hm Hne Hopen.
  pose proof (step_on_match GetSparseExtent opener p line m Hst Hhdr Hm Hne) as Hstep.
  assert (Hunsupported :
            group m 3 <> "SPARSE"%string -> group m 3 <> "FLAT"%string ->
            GetVMDKContext GetSparseExtent opener reader size
            = Err (ErrMsg ("Unsupported extent type " ++ group m 3))).
  { intros Hs Hf.
    apply (proj1 (open_aborts_at GetSparseExtent opener reader size p line rest Hreach)).
    rewrite Hstep. unfold add_extent. rewrite Hopen. cbn [bind].
    apply String.eqb_neq in Hs, Hf. rewrite Hs, Hf. reflexivity. }
  split; [|split; [|split]].
  - intros Hkind S B HS HB. rewrite Hstep. unfold add_extent.
    rewrite Hopen. cbn [bind]. rewrite Hkind. cbn [String.eqb Ascii.eqb Bool.eqb].
    rewrite (ParseInt_inl _ _ HS), (ParseInt_inl _ _ HB). cbn [bind].
    unfold GetFlatExtent, FlatExtent_TotalSize. cbn [flat_total_size].
    rewrite Hst. reflexivity.
  - exact Hunsupported.
  - intros Hkind. rewrite Hunsupported; rewrite Hkind; [reflexivity | | ]; discriminate.
  - intros q S B Hkind HS HB.
    assert (Hlen : length m = 6%nat).
    { destruct (FindStringSubmatch_length (Str.TrimSpace line)) as [H|H];
        rewrite Hm in H; [congruence | exact H]. }
    unfold Permissive.add_extent, Permissive.parseInt.
    rewrite HS, Hlen. cbn [bind Nat.leb andb].
    assert (Hoff :
              (if negb (String.eqb (group m 5) "")
               then match match strconv_ParseInt (group m 5) with
                          | inl n => Ok n
                          | inr err => Err err
                          end with
                    | Err err => Err (ErrWrap "error occured while parsing offsetSectors" err)
                    | r => r
                    end
               else Ok 0) = Ok B).
    { destruct HB as [(He & ->) | (Hn & HB)].
      - rewrite He. reflexivity.
      - apply String.eqb_neq in Hn. rewrite Hn, HB. reflexivity. }
    rewrite Hoff. cbn [bind]. rewrite Hopen. cbn [bind].
    assert (Hk : String.eqb (group m 3) "SPARSE" = false
                 /\ (String.eqb (group m 3) "FLAT" || String.eqb (group m 3) "VMFS") = true).
    { destruct Hkind as [-> | ->]; split; reflexivity. }
    destruct Hk as (Hk1 & Hk2). rewrite Hk1, Hk2. reflexivity.
Qed.

(** C4, as the code has it. On a [FLAT] extent line whose file the opener
    opens, a sector count that is no [int64], or a sector offset that is
    written and is no [int64], makes [parser/context.go] panic in
    [ParseInt]: [GetVMDKContext] returns neither an error nor a context. The
    variant of the file that knows no settings returns the error of
    [strconv.ParseInt] instead, before it opens the file. *)
Theorem malformed_integer_panics
    (GetSparseExtent : ReaderAt -> outcome SparseExtent) (opener : Opener)
    (reader : ReaderAt) (size : Z) (p : Parse) (line : string)
    (rest : list string) (m : list string) (rd : ReaderAt) (cl : option Closer) :
  reaches GetSparseExtent opener reader size p line rest ->
  state p = Extents -> no_header (Str.TrimSpace line) ->
  FindStringSubmatch (Str.TrimSpace line) = m -> m <> [] ->
  group m 3 = "FLAT"%string ->
  opener (group m 4) = Ok (rd, cl) ->
  (forall err,
     strconv_ParseInt (group m 2) = inr err ->
     GetVMDKContext GetSparseExtent opener reader size
     = Panic ("Invalid integer in descriptor: " ++ group m 2))
  /\ (forall S err,
        strconv_ParseInt (group m 2) = inl S ->
        group m 5 <> ""%string ->
        strconv_ParseInt (group m 5) = inr err ->
        GetVMDKContext GetSparseExtent opener reader size
        = Panic ("Invalid integer in descriptor: " ++ group m 5))
  /\ (forall (q : Permissive.Parse) err,
        strconv_ParseInt (group m 2) = inr err ->
        Permissive.add_extent GetSparseExtent opener q m = Err err).
Proof.
  intros Hreach Hst Hhdr Hm Hne Hkind Hopen.
  pose proof (step_on_match GetSparseExtent opener p line m Hst Hhdr Hm Hne) as Hstep.
  pose proof (proj2 (open_aborts_at GetSparseExtent opener reader size p line rest Hreach))
    as Habort.
  split; [|split].
  - intros err Herr. apply Habort. rewrite Hstep. unfold add_extent.
    rewrite Hopen. cbn [bind]. rewrite Hkind. cbn [String.eqb Ascii.eqb Bool.eqb].
    rewrite (ParseInt_inr _ _ Herr). reflexivity.
  - intros S err HS _ Herr. apply Habort. rewrite Hstep. unfold add_extent.
    rewrite Hopen. cbn [bind]. rewrite Hkind. cbn [String.eqb Ascii.eqb Bool.eqb].
    rewrite (ParseInt_inl _ _ HS), (ParseInt_inr _ _ Herr). reflexivity.
  - intros q err Herr. unfold Permissive.add_extent, Permissive.parseInt.
    rewrite Herr. reflexivity.
Qed.

(** ** Closing *)

Lemma Extent_Close_spec (e : Extent) (w : World) :
  Extent_Close e w
  = (released e, match extent_closer e with Some closer => closer w | None => w end).
Proof.
  destruct e as [f|s|n]; simpl.
  - unfold FlatExtent_Close. destruct (flat_closer f); reflexivity.
  - unfold SparseExtent_Close. destruct s as [o t name [c|] rd scr]; reflexivity.
  - reflexivity.
Qed.

Lemma Close_loop_spec (es : list Extent) (w : World) :
  Close_loop es w = (map released es, run_closers (closers_of es) w).
Proof.
  revert w. induction es as [|e es IH]; intros w; simpl; [reflexivity|].
  rewrite Extent_Close_spec, IH. unfold closers_of, run_closers. simpl.
  destruct (extent_closer e); reflexivity.
Qed.

Lemma released_no_sparse (es : list Extent) :
  (forall s, ~ In (Sparse s) es) -> map released es = es.
Proof.
  induction es as [|e es IH]; intros H; simpl; [reflexivity|].
  rewrite IH by (intros s Hs; apply (H s); right; exact Hs).
  destruct e as [f|s|n]; [reflexivity | | reflexivity].
  exfalso. apply (H s). left. reflexivity.
Qed.

Lemma run_log_closers (names : list string) (w : World) :
  run_closers (map log_closer names) w = w ++ names.
Proof.
  revert w. induction names as [|n names IH]; intros w; simpl.
  - rewrite app_nil_r. reflexivity.
  - unfold run_closers in *. simpl. rewrite IH. unfold log_closer.
    rewrite <- app_assoc. reflexivity.
Qed.

(** C8, as the code has it. [FlatExtent.Close] runs the closer at every
    call and leaves it in place: closing an extent twice runs its closer
    twice. Closing the context closes every extent once, in the order of
    the list, that of their construction: the closers of the extents run
    one after the other in that order. It leaves the flat and the null
    extents as they were. The sparse extent, whose [Close] the
    specification describes, runs its closer once and has none left: its
    second close does nothing. *)
Theorem close_runs_every_closer :
  (forall (e : FlatExtent) (closer : Closer) (w : World),
      flat_closer e = Some closer ->
      FlatExtent_Close e w = (e, closer w)
      /\ FlatExtent_Close_twice e w = (e, closer (closer w)))
  /\ (forall (ctx : VMDKContext) (w : World),
        extents (fst (VMDKContext_Close ctx w)) = map released (extents ctx)
        /\ snd (VMDKContext_Close ctx w) = run_closers (closers_of (extents ctx)) w)
  /\ (forall (ctx : VMDKContext) (w : World),
        (forall s, ~ In (Sparse s) (extents ctx)) ->
        extents (fst (VMDKContext_Close ctx w)) = extents ctx)
  /\ (forall (ctx : VMDKContext) (names : list string) (w : World),
        closers_of (extents ctx) = map log_closer names ->
        snd (VMDKContext_Close ctx w) = w ++ names)
  /\ (forall (s : SparseExtent) (closer : Closer) (w w' : World),
        sparse_closer s = Some closer ->
        snd (SparseExtent_Close s w) = closer w
        /\ SparseExtent_Close (fst (SparseExtent_Close s w)) w'
           = (fst (SparseExtent_Close s w), w')).
Proof.
  assert (Hctx : forall ctx w,
             extents (fst (VMDKContext_Close ctx w)) = map released (extents ctx)
             /\ snd (VMDKContext_Close ctx w) = run_closers (closers_of (extents ctx)) w).
  { intros ctx w. unfold VMDKContext_Close. rewrite Close_loop_spec.
    split; reflexivity. }
  split; [|split; [|split; [|split]]].
  - intros e closer w Hc. unfold FlatExtent_Close_twice, FlatExtent_Close.
    rewrite Hc. split; [reflexivity|]. rewrite Hc. reflexivity.
  - exact Hctx.
  - intros ctx w Hflat. rewrite (proj1 (Hctx ctx w)).
    apply released_no_sparse, Hflat.
  - intros ctx names w Hnames. rewrite (proj2 (Hctx ctx w)), Hnames.
    apply run_log_closers.
  - intros s closer w w' Hc. unfold SparseExtent_Close. rewrite Hc.
    split; reflexivity.
Qed.

(** ** The zero padding *)

(** C7. When the lookup fails after bytes have been read, [ReadAt] zeroes
    its buffer from index 0, the bytes it has read included. On a context
    whose second extent overlaps the first: the first turn reads four
    bytes, the lookup at 4 fails, and the eight bytes of the buffer come
    back as zeroes. On the disk of a descriptor whose second sector count
    wraps around: 1024 bytes are read, the lookup at 1024 fails, and the
    first 512 bytes come back as zeroes with the count 512. *)
Theorem zero_pad_overwrites_read_bytes :
  (getExtentForOffset Sample.overlapping 0
   = Ok (Flat (Sample.flat "a.vmdk" Sample.file_a 0 4))
   /\ Extent_ReadAt (Flat (Sample.flat "a.vmdk" Sample.file_a 0 4))
        (slice (repeat xff 8) 0 4) 0
      = (repeat x01 4, 4, None)
   /\ getExtentForOffset Sample.overlapping 4 = Err EOF
   /\ VMDKContext_ReadAt Sample.overlapping (repeat xff 8) 0
      = Returns (repeat x00 8, 8, None))
  /\ (exists ctx,
        Sample.open Sample.wrapping = Ok ctx
        /\ total_size ctx = 512
        /\ map VirtualOffset (extents ctx) = [0; 1024]
        /\ map TotalSize (extents ctx) = [1024; -512]
        /\ getExtentForOffset ctx 1024 = Err EOF
        /\ VMDKContext_ReadAt ctx (repeat xff 1025) 0
           = Returns (repeat x00 512 ++ repeat x01 512 ++ [xff], 512, None)).
Proof.
  split.
  - repeat split; vm_compute; reflexivity.
  - eexists. split; [vm_compute; reflexivity|].
    repeat split; vm_compute; reflexivity.
Qed.

(** * Further properties *)

(** ** The lookup on any list *)

Lemma Search_loop_bounds (f : nat -> bool) :
  forall (fuel i j : nat), (i <= j)%nat ->
    (i <= Search_loop fuel i j f <= j)%nat.
Proof.
  induction fuel as [|fuel IH]; intros i j Hij; simpl; [lia|].
  destruct (i <? j)%nat eqn:Hlt; [|lia].
  apply Nat.ltb_lt in Hlt. pose proof (div2_between i j Hlt) as Hh.
  destruct (f (Nat.div2 (i + j))); simpl.
  - pose proof (IH i (Nat.div2 (i + j)) ltac:(lia)). lia.
  - pose proof (IH (Nat.div2 (i + j) + 1)%nat j ltac:(lia)). lia.
Qed.

(** What [getExtentForOffset] can answer. *)
Lemma getExtentForOffset_cases (ctx : VMDKContext) (offset : Z) :
  getExtentForOffset ctx offset = Err EOF
  \/ exists e,
       getExtentForOffset ctx offset = Ok e
       /\ In e (extents ctx)
       /\ VirtualOffset e <= offset
       /\ offset <= Int64.add (VirtualOffset e) (TotalSize e).
Proof.
  rewrite getExtentForOffset_eq. cbv zeta.
  pose proof (Search_loop_bounds (starts_after (extents ctx) offset)
                (length (extents ctx)) 0%nat (length (extents ctx)) ltac:(lia)) as Hn.
  fold (sort_Search (length (extents ctx)) (starts_after (extents ctx) offset)) in Hn.
  set (n := sort_Search (length (extents ctx)) (starts_after (extents ctx) offset)) in *.
  destruct (n <? 1)%nat eqn:Hn1; simpl; [left; reflexivity|].
  apply Nat.ltb_ge in Hn1.
  replace (length (extents ctx) <? n)%nat with false
    by (symmetry; apply Nat.ltb_ge; lia).
  destruct (nth_error (extents ctx) (n - 1)) as [e|] eqn:Ee.
  - destruct (VirtualOffset e >? offset) eqn:Hvo; simpl; [left; reflexivity|].
    destruct (Int64.add (VirtualOffset e) (TotalSize e) <? offset) eqn:Hend;
      [left; reflexivity|].
    right. exists e. rewrite Z.gtb_ltb in Hvo. apply Z.ltb_ge in Hvo, Hend.
    repeat split; auto. apply (nth_error_In _ _ Ee).
  - apply nth_error_None in Ee. lia.
Qed.

(** X1. Whatever the list of extents, sorted or not, [getExtentForOffset]
    does not index out of range: it never panics, it answers nothing but
    EOF on an empty list, and an extent it answers is one of the list that
    starts at or before [offset] and does not end before it, in the
    arithmetic of [int64]. *)
Theorem lookup_never_panics (ctx : VMDKContext) (offset : Z) :
  (forall msg, getExtentForOffset ctx offset <> Panic msg)
  /\ (forall err, getExtentForOffset ctx offset = Err err -> err = EOF)
  /\ (extents ctx = [] -> getExtentForOffset ctx offset = Err EOF)
  /\ (forall e, getExtentForOffset ctx offset = Ok e ->
        In e (extents ctx)
        /\ VirtualOffset e <= offset
        /\ offset <= Int64.add (VirtualOffset e) (TotalSize e)).
Proof.
  destruct (getExtentForOffset_cases ctx offset) as [Herr | (e & Hok & Hin & Hlo & Hhi)].
  - rewrite Herr. split; [congruence|]. split; [congruence|].
    split; [reflexivity|]. intros e H. discriminate.
  - rewrite Hok. split; [congruence|]. split; [congruence|]. split.
    + intros Hnil. rewrite Hnil in Hin. destruct Hin.
    + intros e' H. inversion H; subst e'. repeat split; assumption.
Qed.

(** ** Normalization *)

Lemma normalize_loop_app (xs ys acc : list Extent) (offset : Z) :
  normalize_loop (xs ++ ys) acc offset
  = normalize_loop ys (normalize_loop xs acc offset) (running_total offset xs).
Proof.
  revert acc offset. induction xs as [|x xs IH]; intros acc offset; simpl.
  - reflexivity.
  - rewrite IH. reflexivity.
Qed.

Lemma contiguous_chained (es : list Extent) (start : Z) :
  contiguous start es -> 0 <= start -> start + sum_sizes es <= Int64.max_int ->
  chained start es /\ running_total start es = start + sum_sizes es.
Proof.
  revert start. induction es as [|e es IH]; simpl; intros start Hc H0 Hfit.
  - split; [exact I | unfold running_total; simpl; lia].
  - destruct Hc as (Hvo & Hsz & Hrest). fold (sum_sizes es) in *.
    pose proof (contiguous_sum_nonneg es _ Hrest) as Hs.
    assert (Hadd : Int64.add start (TotalSize e) = start + TotalSize e)
      by (apply add_small; int64_range).
    destruct (IH (start + TotalSize e) Hrest ltac:(lia) ltac:(lia)) as (Hch & Hrun).
    split.
    + split; [exact Hvo|]. rewrite Hadd. exact Hch.
    + unfold running_total in *. simpl. rewrite Hadd, Hrun. lia.
Qed.

Lemma normalize_loop_filter (es acc : list Extent) (offset : Z) :
  filter (fun e => negb (is_null e)) (normalize_loop es acc offset)
  = filter (fun e => negb (is_null e)) acc ++ filter (fun e => negb (is_null e)) es.
Proof.
  revert acc offset. induction es as [|e es IH]; intros acc offset; simpl.
  - rewrite app_nil_r. reflexivity.
  - rewrite IH. destruct (VirtualOffset e >? offset); rewrite !filter_app; simpl;
      destruct (is_null e); simpl; rewrite <- ?app_assoc; simpl;
      rewrite ?app_nil_r; reflexivity.
Qed.

Lemma normalize_loop_length (es acc : list Extent) (offset : Z) :
  (length acc + length es <= length (normalize_loop es acc offset)
   <= length acc + 2 * length es)%nat.
Proof.
  revert acc offset. induction es as [|e es IH]; intros acc offset; simpl; [lia|].
  match goal with
  | |- context [normalize_loop es ?a ?o] => pose proof (IH a o) as H
  end.
  destruct (VirtualOffset e >? offset); rewrite !length_app in H; simpl in H; lia.
Qed.

(** X2. [normalizeExtents] keeps every declared extent, in the declared
    order: what it adds are null extents, at most one before each extent.
    It leaves [total_size] and the settings as they were, so the size of
    the disk does not count the gaps it has filled. *)
Theorem normalize_keeps_declared (ctx : VMDKContext) :
  filter (fun e => negb (is_null e)) (extents (normalizeExtents ctx))
  = filter (fun e => negb (is_null e)) (extents ctx)
  /\ (length (extents ctx) <= length (extents (normalizeExtents ctx))
      <= 2 * length (extents ctx))%nat
  /\ Size (normalizeExtents ctx) = Size ctx
  /\ config (normalizeExtents ctx) = config ctx.
Proof.
  unfold normalizeExtents, Size; cbn [extents total_size config].
  split; [|split; [|split; reflexivity]].
  - apply (normalize_loop_filter (extents ctx) [] 0).
  - pose proof (normalize_loop_length (extents ctx) [] 0) as H. simpl in H. lia.
Qed.

Lemma sum_sizes_app (xs ys : list Extent) :
  sum_sizes (xs ++ ys) = sum_sizes xs + sum_sizes ys.
Proof.
  induction xs as [|x xs IH]; simpl; [reflexivity|].
  fold (sum_sizes (xs ++ ys)). fold (sum_sizes xs). lia.
Qed.

Lemma contiguous_app (xs ys : list Extent) (start : Z) :
  contiguous start xs -> contiguous (start + sum_sizes xs) ys ->
  contiguous start (xs ++ ys).
Proof.
  revert start. induction xs as [|x xs IH]; simpl; intros start Hx Hy.
  - replace (start + 0) with start in Hy by lia. exact Hy.
  - destruct Hx as (Hv & Hz & Hr). fold (sum_sizes xs) in Hy.
    repeat split; auto. apply IH; [exact Hr|].
    replace (start + TotalSize x + sum_sizes xs)
      with (start + (TotalSize x + sum_sizes xs)) by lia. exact Hy.
Qed.

(** X3. A gap before the last extent is filled: when the extents but the
    last tile [0, s) and the last one starts beyond [s], normalization
    puts one null extent over [s, virtual_offset) before it, and the list
    it leaves is contiguous from 0. *)
Theorem normalize_fills_trailing_gap (ctx : VMDKContext) (pre : list Extent) (e : Extent) :
  extents ctx = pre ++ [e] ->
  contiguous 0 pre ->
  sum_sizes pre < VirtualOffset e ->
  0 <= TotalSize e ->
  VirtualOffset e + TotalSize e <= Int64.max_int ->
  extents (normalizeExtents ctx)
  = pre ++ [Null {| null_offset := sum_sizes pre;
                    null_total_size := VirtualOffset e - sum_sizes pre |}; e]
  /\ contiguous 0 (extents (normalizeExtents ctx))
  /\ sum_sizes (extents (normalizeExtents ctx)) = VirtualOffset e + TotalSize e.
Proof.
  intros Hes Hc Hgap Hsz Hfit.
  pose proof (contiguous_sum_nonneg pre 0 Hc) as Hs.
  destruct (contiguous_chained pre 0 Hc ltac:(lia) ltac:(int64_range)) as (Hch & Hrun).
  assert (Hnorm : extents (normalizeExtents ctx)
                  = pre ++ [Null {| null_offset := sum_sizes pre;
                                    null_total_size := VirtualOffset e - sum_sizes pre |}; e]).
  { unfold normalizeExtents; cbn [extents]. rewrite Hes, normalize_loop_app.
    rewrite (normalize_loop_chained pre [] 0 Hch), Hrun. cbn [app normalize_loop].
    replace (0 + sum_sizes pre) with (sum_sizes pre) by lia.
    replace (VirtualOffset e >? sum_sizes pre) with true
      by (symmetry; apply Z.gtb_lt; lia).
    rewrite (sub_small (VirtualOffset e) (sum_sizes pre)) by int64_range.
    rewrite <- !app_assoc. reflexivity. }
  rewrite Hnorm. split; [reflexivity|]. split.
  - apply contiguous_app; [exact Hc|]. simpl. repeat split; lia.
  - rewrite sum_sizes_app. simpl. lia.
Qed.

(** X4. The running offset of [normalizeExtents] grows by the sizes of the
    declared extents only, not by the null extents it inserts. So when an
    extent follows one that came after a gap, a second null extent is
    inserted before it, as large as the first gap: it starts at the sum of
    the sizes of the declared extents before it, which is not where the
    gapped extent ends, and the list is no longer contiguous. *)
Theorem normalize_lags_after_gap (ctx : VMDKContext) (pre : list Extent) (e e' : Extent) :
  extents ctx = pre ++ [e; e'] ->
  contiguous 0 pre ->
  sum_sizes pre < VirtualOffset e ->
  0 <= TotalSize e ->
  VirtualOffset e' = VirtualOffset e + TotalSize e ->
  VirtualOffset e' <= Int64.max_int ->
  extents (normalizeExtents ctx)
  = pre ++ [Null {| null_offset := sum_sizes pre;
                    null_total_size := VirtualOffset e - sum_sizes pre |};
            e;
            Null {| null_offset := sum_sizes pre + TotalSize e;
                    null_total_size := VirtualOffset e - sum_sizes pre |};
            e']
  /\ ~ contiguous 0 (extents (normalizeExtents ctx)).
Proof.
  intros Hes Hc Hgap Hsz Hnext Hfit.
  pose proof (contiguous_sum_nonneg pre 0 Hc) as Hs.
  destruct (contiguous_chained pre 0 Hc ltac:(lia) ltac:(int64_range)) as (Hch & Hrun).
  assert (Hnorm : extents (normalizeExtents ctx)
                  = pre ++ [Null {| null_offset := sum_sizes pre;
                                    null_total_size := VirtualOffset e - sum_sizes pre |};
                            e;
                            Null {| null_offset := sum_sizes pre + TotalSize e;
                                    null_total_size := VirtualOffset e - sum_sizes pre |};
                            e']).
  { unfold normalizeExtents; cbn [extents]. rewrite Hes, normalize_loop_app.
    rewrite (normalize_loop_chained pre [] 0 Hch), Hrun. cbn [app normalize_loop].
    replace (0 + sum_sizes pre) with (sum_sizes pre) by lia.
    replace (VirtualOffset e >? sum_sizes pre) with true
      by (symmetry; apply Z.gtb_lt; lia).
    rewrite (sub_small (VirtualOffset e) (sum_sizes pre)) by int64_range.
    rewrite (add_small (sum_sizes pre) (TotalSize e)) by int64_range.
    replace (VirtualOffset e' >? sum_sizes pre + TotalSize e) with true
      by (symmetry; apply Z.gtb_lt; lia).
    rewrite (sub_small (VirtualOffset e') (sum_sizes pre + TotalSize e)) by int64_range.
    replace (VirtualOffset e' - (sum_sizes pre + TotalSize e))
      with (VirtualOffset e - sum_sizes pre) by lia.
    rewrite <- !app_assoc. reflexivity. }
  rewrite Hnorm. split; [reflexivity|].
  intros Hcont.
  assert (Hsplit : forall xs ys start,
             contiguous start (xs ++ ys) -> contiguous (start + sum_sizes xs) ys).
  { induction xs as [|x xs IH]; simpl; intros ys start H.
    - replace (start + 0) with start by lia. exact H.
    - destruct H as (_ & _ & Hr). fold (sum_sizes xs).
      replace (start + (TotalSize x + sum_sizes xs))
        with (start + TotalSize x + sum_sizes xs) by lia.
      apply IH. exact Hr. }
  apply Hsplit in Hcont. simpl in Hcont.
  destruct Hcont as (_ & _ & Hve & _ & Hnull & _). lia.
Qed.

(** ** What an extent holds *)

Lemma flat_serves (f : FlatExtent) (content : list byte) :
  flat_reader f = FileReader content ->
  0 <= Offset (flat_header f) ->
  0 <= flat_total_size f ->
  Offset (flat_header f) + flat_total_size f <= blen content ->
  Offset (flat_header f) + flat_total_size f <= Int64.max_int ->
  serves (Flat f)
    (firstn (Z.to_nat (flat_total_size f)) (skipn (Z.to_nat (Offset (flat_header f))) content)).
Proof.
  intros Hrd Hbase Hsz Hfile Hfit. unfold blen in Hfile.
  split.
  - unfold blen. simpl. unfold FlatExtent_TotalSize.
    rewrite length_firstn, length_skipn. lia.
  - intros buf idx Hidx Hbuf. cbn [TotalSize] in Hidx. simpl.
    unfold FlatExtent_TotalSize, FlatExtent_ReadAt in *.
    pose proof (blen_nonneg buf) as Hb.
    replace (idx <? 0) with false by (symmetry; apply Z.ltb_ge; lia).
    cbn [orb].
    destruct (idx >=? flat_total_size f) eqn:Hend.
    + exists (Some EOF). split; [reflexivity|].
      apply Z.geb_le in Hend. assert (idx = flat_total_size f) by lia. subst idx.
      rewrite Z.sub_diag, Z.min_r by lia. reflexivity.
    + rewrite Z.geb_leb in Hend. apply Z.leb_gt in Hend.
      rewrite (add_small idx (blen buf)) by int64_range.
      rewrite (sub_small (flat_total_size f) idx) by int64_range.
      rewrite (add_small (Offset (flat_header f)) idx) by int64_range.
      assert (Hmin : (if idx + blen buf >? flat_total_size f
                      then flat_total_size f - idx else blen buf)
                     = Z.min (blen buf) (flat_total_size f - idx)).
      { destruct (idx + blen buf >? flat_total_size f) eqn:H.
        - apply Z.gtb_lt in H. lia.
        - rewrite Z.gtb_ltb in H. apply Z.ltb_ge in H. lia. }
      rewrite Hmin. set (t := Z.min (blen buf) (flat_total_size f - idx)).
      assert (Ht : 0 <= t <= blen buf /\ t <= flat_total_size f - idx) by (subst t; lia).
      rewrite Hrd. unfold io_ReadAt, FileReader; cbn [reader_at reader_scratch].
      rewrite Nat.eqb_refl.
      replace (Offset (flat_header f) + idx <? 0) with false
        by (symmetry; apply Z.ltb_ge; lia).
      replace (Offset (flat_header f) + idx >=? blen content) with false
        by (symmetry; rewrite Z.geb_leb; apply Z.leb_gt; unfold blen; lia).
      unfold blen in *.
      assert (Hlenw : length (firstn (Z.to_nat t) buf) = Z.to_nat t)
        by (rewrite length_firstn; lia).
      rewrite Hlenw.
      set (d := firstn (Z.to_nat t) (skipn (Z.to_nat (Offset (flat_header f) + idx)) content)).
      assert (Hd : length d = Z.to_nat t).
      { subst d. rewrite length_firstn, length_skipn. lia. }
      rewrite Hd, Nat.ltb_irrefl.
      exists None. split; [reflexivity|].
      rewrite (firstn_all2 d) by lia. rewrite Hd.
      rewrite (skipn_all2 (firstn (Z.to_nat t) buf)) by lia.
      rewrite app_nil_r. rewrite Z2Nat.id by lia.
      f_equal. f_equal. f_equal. subst d.
      rewrite skipn_firstn_comm, firstn_firstn.
      rewrite skipn_skipn.
      replace (Nat.min (Z.to_nat t) (Z.to_nat (flat_total_size f) - Z.to_nat idx))
        with (Z.to_nat t) by lia.
      replace (Z.to_nat idx + Z.to_nat (Offset (flat_header f)))%nat
        with (Z.to_nat (Offset (flat_header f) + idx)) by lia.
      reflexivity.
Qed.


(** ** Reading the image *)

Lemma contiguous_covering (es : list Extent) (start x : Z) :
  contiguous start es -> start <= x < start + sum_sizes es ->
  exists k e, nth_error es k = Some e
              /\ VirtualOffset e <= x < VirtualOffset e + TotalSize e.
Proof.
  revert start. induction es as [|e es IH]; simpl; intros start Hc Hx; [lia|].
  destruct Hc as (Hvo & Hsz & Hrest). fold (sum_sizes es) in Hx.
  destruct (Z.lt_ge_cases x (start + TotalSize e)) as [Hin|Hout].
  - exists 0%nat, e. split; [reflexivity | lia].
  - destruct (IH (start + TotalSize e) Hrest ltac:(lia)) as (k & e' & Ek & Hk).
    exists (S k), e'. split; assumption.
Qed.

Lemma serves_image_length (es : list Extent) (bss : list (list byte)) :
  Forall2 serves es bss -> blen (image bss) = sum_sizes es.
Proof.
  unfold image, blen. induction 1 as [|e bs es bss (Hlen & _) _ IH]; simpl; [reflexivity|].
  rewrite length_app. fold (sum_sizes es). unfold blen in Hlen. lia.
Qed.

Lemma serves_window (es : list Extent) (bss : list (list byte)) :
  Forall2 serves es bss ->
  forall k e, nth_error es k = Some e ->
    exists bs rest,
      serves e bs
      /\ skipn (Z.to_nat (sum_sizes (firstn k es))) (image bss) = bs ++ rest.
Proof.
  unfold image. induction 1 as [|e0 bs0 es bss Hs0 Hall IH]; intros k e Ek.
  - destruct k; discriminate.
  - destruct k as [|k]; simpl in Ek.
    + inversion Ek; subst e0. exists bs0, (concat bss). split; [exact Hs0|].
      reflexivity.
    + destruct (IH k e Ek) as (bs & rest & Hs & Hwin).
      exists bs, rest. split; [exact Hs|].
      cbn [firstn sum_sizes fold_right concat]. fold (sum_sizes (firstn k es)).
      destruct Hs0 as (Hlen0 & _). unfold blen in Hlen0.
      assert (Hnn : 0 <= sum_sizes (firstn k es)).
      { pose proof (serves_image_length (firstn k es) (firstn k bss)) as Hl.
        assert (Hf : Forall2 serves (firstn k es) (firstn k bss)).
        { clear - Hall. revert k. induction Hall; intros [|k]; simpl; constructor; auto. }
        specialize (Hl Hf). unfold blen in Hl. lia. }
      replace (Z.to_nat (TotalSize e0 + sum_sizes (firstn k es)))
        with (length bs0 + Z.to_nat (sum_sizes (firstn k es)))%nat by lia.
      rewrite skipn_app.
      rewrite skipn_all2 by lia.
      replace (length bs0 + Z.to_nat (sum_sizes (firstn k es)) - length bs0)%nat
        with (Z.to_nat (sum_sizes (firstn k es))) by lia.
      exact Hwin.
Qed.

(** The lookup of an offset that an extent of a normalized context holds. *)
Lemma getExtentForOffset_within (ctx : VMDKContext) (k : nat) (e : Extent) (offset : Z) :
  normalized ctx -> nth_error (extents ctx) k = Some e ->
  VirtualOffset e <= offset < VirtualOffset e + TotalSize e ->
  getExtentForOffset ctx offset = Ok e.
Proof.
  intros Hnorm Ee [Hlo Hhi]. pose proof Hnorm as (Hc & _ & _).
  pose proof (getExtentForOffset_sorted ctx offset (contiguous_sorted _ _ Hc)) as Hspec.
  destruct (getExtentForOffset ctx offset) as [e'|err|msg]; [| |contradiction].
  - destruct Hspec as (k' & Ee' & Hvo' & _ & Hafter).
    destruct (Nat.lt_trichotomy k k') as [Hlt|[Heq|Hgt]].
    + pose proof (contiguous_later _ _ _ _ _ _ Hc Hlt Ee Ee'). lia.
    + subst k'. congruence.
    + pose proof (Hafter k e Hgt Ee). lia.
  - destruct Hspec as (_ & [Hnone | (k' & e' & Ee' & Hvo' & Hend & Hafter)]).
    + pose proof (Hnone k e Ee). lia.
    + destruct (normalized_end_in_range ctx k' e' Hnorm Ee') as (_ & _ & Hadd).
      rewrite Hadd in Hend.
      destruct (Nat.lt_trichotomy k k') as [Hlt|[Heq|Hgt]].
      * pose proof (contiguous_later _ _ _ _ _ _ Hc Hlt Ee Ee'). lia.
      * subst k'. assert (e' = e) by congruence. subst e'. lia.
      * pose proof (Hafter k e Hgt Ee). lia.
Qed.

Lemma firstn_plus {A : Type} (l : list A) (a b : nat) :
  firstn (a + b) l = firstn a l ++ firstn b (skipn a l).
Proof.
  revert l. induction a as [|a IH]; intros l; simpl; [reflexivity|].
  destruct l as [|x l]; simpl.
  - rewrite firstn_nil. reflexivity.
  - rewrite IH. reflexivity.
Qed.

Section Image.

Variable ctx : VMDKContext.
Variable bss : list (list byte).
Variable buf0 : Buffer.
Variable off : Z.

Hypothesis Hnorm : normalized ctx.
Hypothesis Hserve : Forall2 serves (extents ctx) bss.
Hypothesis Hoff : 0 <= off <= total_size ctx.


Lemma data_length : blen (skipn (Z.to_nat off) (image bss)) = total_size ctx - off.
Proof.
  destruct Hnorm as (_ & Htot & _).
  pose proof (serves_image_length _ _ Hserve) as Hl.
  unfold blen in *. rewrite length_skipn. lia.
Qed.

Lemma expected_length (i : Z) :
  0 <= i <= read_count ctx buf0 off ->
  length (read_result bss buf0 off i) = length buf0.
Proof.
  intros Hi. pose proof data_length as Hd. unfold read_result, read_count, blen in *.
  set (data := skipn (Z.to_nat off) (image bss)) in *.
  rewrite length_app, length_firstn, length_skipn. lia.
Qed.

Lemma ReadAt_loop_image :
  forall (fuel : nat) (i : Z),
    0 <= i <= (read_count ctx buf0 off) -> (Z.to_nat (blen buf0 - i) < fuel)%nat ->
    ReadAt_loop fuel ctx (read_result bss buf0 off i) (read_count ctx buf0 off) (blen buf0) off i
    = Some (Returns (read_result bss buf0 off (read_count ctx buf0 off), (read_count ctx buf0 off), None)).
Proof.
  pose proof Hnorm as (Hc & Htot & Hmax).
  pose proof (normalized_total_nonneg ctx Hnorm) as Htot0.
  pose proof (blen_nonneg buf0) as Hb.
  pose proof data_length as Hdata.
  induction fuel as [|fuel IH]; intros i Hi Hfuel; [lia|].
  cbn [ReadAt_loop].
  destruct (i <? blen buf0) eqn:Hlt.
  2:{ apply Z.ltb_ge in Hlt. assert (i = (read_count ctx buf0 off)) by (unfold read_count in *; lia). subst i.
      reflexivity. }
  apply Z.ltb_lt in Hlt.
  rewrite (add_small off i) by (unfold read_count in *; int64_range).
  destruct (Z.eq_dec i (read_count ctx buf0 off)) as [HiN|HiN].
  - (* the end of the disk *)
    assert (Hx : off + i = total_size ctx) by (unfold read_count in *; lia).
    rewrite Hx.
    destruct (nth_error (extents ctx) (length (extents ctx) - 1)) as [e|] eqn:Elast.
    + rewrite (getExtentForOffset_at_end ctx e Hnorm Elast).
      destruct (normalized_last_end ctx e Hnorm Elast) as (Hsum & Hsz).
      assert (Hvo : 0 <= VirtualOffset e)
        by (apply (normalized_end_in_range ctx _ e Hnorm Elast)).
      rewrite (sub_small (total_size ctx) (VirtualOffset e)) by int64_range.
      replace (total_size ctx - VirtualOffset e) with (TotalSize e) by lia.
      rewrite (sub_small (TotalSize e) (TotalSize e)) by int64_range.
      replace (TotalSize e - TotalSize e) with 0 by lia.
      replace (blen buf0 - i >? 0) with true by (symmetry; apply Z.gtb_lt; lia).
      replace (0 <? 0) with false by reflexivity.
      replace (slice (read_result bss buf0 off i) i (i + 0)) with (@nil byte)
        by (unfold slice; replace (i + 0 - i) with 0 by lia; reflexivity).
      destruct (Extent_ReadAt_shape e [] (TotalSize e)) as (Hl & Hn).
      destruct (Extent_ReadAt e [] (TotalSize e)) as [[sub n] err] eqn:Hread.
      simpl in Hl, Hn. unfold blen in Hn. simpl in Hn.
      assert (n = 0) by lia. subst n.
      destruct sub; [|discriminate].
      assert (Herr : is_real_error err = false).
      { destruct (serves_window _ _ Hserve _ e Elast) as (bs & rest & (_ & Hs) & _).
        destruct (Hs [] (TotalSize e) ltac:(lia) ltac:(unfold blen; simpl; int64_range))
          as (err' & Hreal & Heq).
        rewrite Hread in Heq. inversion Heq; subst. exact Hreal. }
      rewrite Herr. cbn [Z.eqb].
      replace (splice (read_result bss buf0 off i) i []) with (read_result bss buf0 off i).
      * subst i. reflexivity.
      * unfold splice. cbn [app length]. rewrite Nat.add_0_r, firstn_skipn. reflexivity.
    + apply nth_error_None in Elast.
      assert (Hnil : extents ctx = []).
      { destruct (extents ctx); [reflexivity | simpl in Elast; lia]. }
      rewrite getExtentForOffset_eq, Hnil. cbn.
      assert (HN0 : (read_count ctx buf0 off) = 0).
      { rewrite Hnil in Htot. simpl in Htot. unfold read_count in *. lia. }
      rewrite <- HiN, HN0 in *. subst i. reflexivity.
  - (* within the disk *)
    assert (Hx : 0 <= off + i < total_size ctx) by (unfold read_count in *; lia).
    destruct (contiguous_covering (extents ctx) 0 (off + i) Hc ltac:(lia))
      as (k & e & Ek & Hin).
    rewrite (getExtentForOffset_within ctx k e (off + i) Hnorm Ek Hin).
    destruct (normalized_end_in_range ctx k e Hnorm Ek) as (Hvo0 & Hend & _).
    rewrite (sub_small (off + i) (VirtualOffset e)) by int64_range.
    rewrite (sub_small (TotalSize e) (off + i - VirtualOffset e)) by int64_range.
    set (idx := off + i - VirtualOffset e).
    set (t := if blen buf0 - i >? TotalSize e - idx then TotalSize e - idx
              else blen buf0 - i).
    assert (Ht : 0 < t /\ t <= blen buf0 - i /\ t <= TotalSize e - idx).
    { subst t idx. destruct (blen buf0 - i >? TotalSize e - (off + i - VirtualOffset e)) eqn:H.
      - apply Z.gtb_lt in H. lia.
      - rewrite Z.gtb_ltb in H. apply Z.ltb_ge in H. lia. }
    replace (t <? 0) with false by (symmetry; apply Z.ltb_ge; lia).
    pose proof (expected_length i Hi) as Hlen.
    assert (Hwlen : blen (slice (read_result bss buf0 off i) i (i + t)) = t).
    { unfold slice, blen in *. rewrite length_firstn, length_skipn, Hlen.
      replace (i + t - i) with t by lia. lia. }
    destruct (serves_window _ _ Hserve k e Ek) as (bs & rest & (Hbs & Hs) & Hwin).
    destruct (Hs (slice (read_result bss buf0 off i) i (i + t)) idx ltac:(subst idx; lia)
                ltac:(rewrite Hwlen; subst idx; int64_range))
      as (err & Hreal & Hread).
    rewrite Hread, Hwlen. rewrite Z.min_l by lia.
    rewrite Hreal.
    replace (t =? 0) with false by (symmetry; apply Z.eqb_neq; lia).
    assert (Hsub : firstn (Z.to_nat t) (skipn (Z.to_nat idx) bs)
                   = firstn (Z.to_nat t) (skipn (Z.to_nat i) (skipn (Z.to_nat off) (image bss)))).
    { rewrite skipn_skipn.
      destruct (contiguous_nth _ _ _ _ Hc Ek) as (Hvk & _).
      replace (Z.to_nat i + Z.to_nat off)%nat
        with (Z.to_nat idx + Z.to_nat (sum_sizes (firstn k (extents ctx))))%nat
        by (subst idx; lia).
      rewrite <- skipn_skipn, Hwin, skipn_app, firstn_app.
      unfold blen in Hbs.
      replace (Z.to_nat t - length (skipn (Z.to_nat idx) bs))%nat with 0%nat
        by (rewrite length_skipn; subst idx; lia).
      cbn [firstn]. rewrite app_nil_r. reflexivity. }
    assert (Hnext : splice (read_result bss buf0 off i) i
                      (firstn (Z.to_nat t) (skipn (Z.to_nat idx) bs)
                       ++ skipn (Z.to_nat t) (slice (read_result bss buf0 off i) i (i + t)))
                    = read_result bss buf0 off (i + t)).
    { rewrite (skipn_all2 (slice (read_result bss buf0 off i) i (i + t)))
        by (unfold blen in Hwlen; lia).
      rewrite app_nil_r, Hsub. unfold splice.
      assert (Hfl : length (firstn (Z.to_nat t) (skipn (Z.to_nat i) (skipn (Z.to_nat off) (image bss)))) = Z.to_nat t).
      { rewrite length_firstn, length_skipn. unfold blen in Hdata. unfold read_count in *. lia. }
      rewrite Hfl.
      assert (Hfi : length (firstn (Z.to_nat i) (skipn (Z.to_nat off) (image bss))) = Z.to_nat i).
      { rewrite length_firstn. unfold blen in Hdata. unfold read_count in *. lia. }
      unfold read_result at 1 2.
      rewrite firstn_app, Hfi, Nat.sub_diag. cbn [firstn].
      rewrite app_nil_r, firstn_firstn, Nat.min_id.
      rewrite skipn_app, Hfi.
      rewrite (skipn_all2 (firstn (Z.to_nat i) (skipn (Z.to_nat off) (image bss)))) by lia.
      replace (Z.to_nat i + Z.to_nat t - Z.to_nat i)%nat with (Z.to_nat t) by lia.
      rewrite skipn_skipn. cbn [app].
      unfold read_result. rewrite Z2Nat.inj_add by lia.
      rewrite firstn_plus, <- app_assoc. rewrite ?skipn_skipn.
      f_equal. f_equal. f_equal. lia. }
    rewrite Hnext. apply IH; unfold read_count in *; lia.
Qed.

End Image.

Lemma VMDKContext_ReadAt_image (ctx : VMDKContext) (bss : list (list byte))
    (buf : Buffer) (off : Z) :
  normalized ctx -> Forall2 serves (extents ctx) bss ->
  0 <= off <= total_size ctx ->
  VMDKContext_ReadAt ctx buf off
  = Returns (read_result bss buf off (read_count ctx buf off),
             read_count ctx buf off, None).
Proof.
  intros Hnorm Hserve Hoff. pose proof Hnorm as (_ & _ & Hmax).
  pose proof (blen_nonneg buf) as Hb.
  unfold VMDKContext_ReadAt.
  replace (off >? total_size ctx) with false
    by (symmetry; rewrite Z.gtb_ltb; apply Z.ltb_ge; lia).
  replace (off <? 0) with false by (symmetry; apply Z.ltb_ge; lia).
  cbn [orb].
  rewrite (sub_small (total_size ctx) off) by int64_range.
  assert (Hlen : (if blen buf >? total_size ctx - off
                  then total_size ctx - off else blen buf)
                 = read_count ctx buf off).
  { unfold read_count. destruct (blen buf >? total_size ctx - off) eqn:H.
    - apply Z.gtb_lt in H. lia.
    - rewrite Z.gtb_ltb in H. apply Z.ltb_ge in H. lia. }
  rewrite Hlen.
  pose proof (ReadAt_loop_image ctx bss buf off Hnorm Hserve Hoff
                (S (length buf)) 0) as Hloop.
  change (read_result bss buf off 0) with buf in Hloop.
  rewrite Hloop; [reflexivity | unfold read_count; lia | unfold blen; lia].
Qed.

(** X5. On a normalized context whose extents hold the bytes [bss], a read
    at an offset within [0, total_size] returns the bytes of the image from
    that offset on, as many as fit the buffer and the disk; it keeps the
    rest of the buffer and reports no error. A read that fits the disk
    fills the buffer; what the buffer held before does not matter. *)
Theorem read_at_image (ctx : VMDKContext) (bss : list (list byte))
    (buf : Buffer) (off : Z) :
  normalized ctx -> Forall2 serves (extents ctx) bss ->
  0 <= off <= total_size ctx ->
  VMDKContext_ReadAt ctx buf off
  = Returns (firstn (Z.to_nat (read_count ctx buf off))
               (skipn (Z.to_nat off) (image bss))
             ++ skipn (Z.to_nat (read_count ctx buf off)) buf,
             read_count ctx buf off, None)
  /\ (off + blen buf <= total_size ctx ->
      VMDKContext_ReadAt ctx buf off
      = Returns (firstn (length buf) (skipn (Z.to_nat off) (image bss)),
                 blen buf, None))
  /\ (forall buf', length buf' = length buf ->
      exists r r',
        VMDKContext_ReadAt ctx buf off = Returns (r, read_count ctx buf off, None)
        /\ VMDKContext_ReadAt ctx buf' off = Returns (r', read_count ctx buf off, None)
        /\ firstn (Z.to_nat (read_count ctx buf off)) r
           = firstn (Z.to_nat (read_count ctx buf off)) r').
Proof.
  intros Hnorm Hserve Hoff.
  pose proof (VMDKContext_ReadAt_image ctx bss buf off Hnorm Hserve Hoff) as Hread.
  pose proof (blen_nonneg buf) as Hb.
  pose proof (serves_image_length _ _ Hserve) as Himg.
  pose proof Hnorm as (_ & Htot & _).
  split; [exact Hread|]. split.
  - intros Hfit. rewrite Hread. unfold read_result, read_count.
    rewrite Z.min_l by lia. unfold blen. rewrite Nat2Z.id.
    rewrite skipn_all, app_nil_r. reflexivity.
  - intros buf' Hlen.
    pose proof (VMDKContext_ReadAt_image ctx bss buf' off Hnorm Hserve Hoff) as Hread'.
    assert (Hcnt : read_count ctx buf' off = read_count ctx buf off)
      by (unfold read_count, blen; rewrite Hlen; reflexivity).
    rewrite Hcnt in Hread'.
    eexists. eexists. split; [exact Hread|]. split; [exact Hread'|].
    unfold read_result.
    assert (Hl : length (firstn (Z.to_nat (read_count ctx buf off))
                           (skipn (Z.to_nat off) (image bss)))
                 = Z.to_nat (read_count ctx buf off)).
    { rewrite length_firstn, length_skipn. unfold read_count, blen in *. lia. }
    rewrite !firstn_app, Hl, Nat.sub_diag. cbn [firstn]. reflexivity.
Qed.

(** X6. Reads compose: on such a context, within the disk, a read into two
    buffers laid end to end returns what a read into the first and a read
    into the second, at the offset where the first has stopped, return one
    after the other. *)
Theorem read_at_composes (ctx : VMDKContext) (bss : list (list byte))
    (buf1 buf2 : Buffer) (off : Z) :
  normalized ctx -> Forall2 serves (extents ctx) bss ->
  0 <= off -> off + blen buf1 + blen buf2 <= total_size ctx ->
  exists r1 r2,
    VMDKContext_ReadAt ctx buf1 off = Returns (r1, blen buf1, None)
    /\ VMDKContext_ReadAt ctx buf2 (off + blen buf1) = Returns (r2, blen buf2, None)
    /\ VMDKContext_ReadAt ctx (buf1 ++ buf2) off
       = Returns (r1 ++ r2, blen buf1 + blen buf2, None).
Proof.
  intros Hnorm Hserve Hoff Hfit.
  pose proof (blen_nonneg buf1) as Hb1. pose proof (blen_nonneg buf2) as Hb2.
  assert (Hb12 : blen (buf1 ++ buf2) = blen buf1 + blen buf2)
    by (unfold blen; rewrite length_app; lia).
  assert (Hfull : forall b o, read_result bss b o (blen b)
                              = firstn (length b) (skipn (Z.to_nat o) (image bss))).
  { intros b o. unfold read_result, blen. rewrite Nat2Z.id, skipn_all, app_nil_r.
    reflexivity. }
  rewrite (VMDKContext_ReadAt_image ctx bss buf1 off Hnorm Hserve ltac:(lia)).
  rewrite (VMDKContext_ReadAt_image ctx bss buf2 (off + blen buf1) Hnorm Hserve ltac:(lia)).
  rewrite (VMDKContext_ReadAt_image ctx bss (buf1 ++ buf2) off Hnorm Hserve ltac:(lia)).
  unfold read_count. rewrite !Z.min_l by lia.
  rewrite <- Hb12, !Hfull.
  eexists. eexists. split; [reflexivity|]. split; [reflexivity|].
  f_equal. f_equal. f_equal.
  rewrite length_app, firstn_plus, skipn_skipn.
  f_equal. f_equal. f_equal. unfold blen. lia.
Qed.

(** ** Reading within bounds *)

Lemma splice_length (arr sub : Buffer) (i : Z) :
  (Z.to_nat i + length sub <= length arr)%nat ->
  length (splice arr i sub) = length arr.
Proof.
  intros H. unfold splice. rewrite !length_app, length_firstn, length_skipn. lia.
Qed.

(** A window written back leaves the array as it was beyond the window. *)
Lemma splice_skipn (arr sub : Buffer) (i : Z) (k : nat) :
  (Z.to_nat i + length sub <= length arr)%nat -> (Z.to_nat i + length sub <= k)%nat ->
  skipn k (splice arr i sub) = skipn k arr.
Proof.
  intros Hfit Hk. unfold splice.
  rewrite skipn_app, length_firstn.
  rewrite (skipn_all2 (firstn (Z.to_nat i) arr)) by (rewrite length_firstn; lia).
  cbn [app]. rewrite skipn_app.
  rewrite (skipn_all2 sub) by lia. cbn [app].
  rewrite skipn_skipn. f_equal. lia.
Qed.

Lemma ReadAt_loop_bounds (ctx : VMDKContext) (buf0 : Buffer) (off : Z) :
  within_disk ctx -> 0 <= off <= total_size ctx ->
  forall (fuel : nat) (arr : Buffer) (i : Z),
    0 <= i <= read_count ctx buf0 off ->
    length arr = length buf0 ->
    skipn (Z.to_nat (read_count ctx buf0 off)) arr
    = skipn (Z.to_nat (read_count ctx buf0 off)) buf0 ->
    (Z.to_nat (blen buf0 - i) < fuel)%nat ->
    exists b n err,
      ReadAt_loop fuel ctx arr (read_count ctx buf0 off) (blen buf0) off i
      = Some (Returns (b, n, err))
      /\ i <= n <= read_count ctx buf0 off
      /\ length b = length buf0
      /\ err <> Some EOF
      /\ skipn (Z.to_nat (read_count ctx buf0 off)) b
         = skipn (Z.to_nat (read_count ctx buf0 off)) buf0.
Proof.
  intros (Hmax & Hwithin) Hoff.
  pose proof (blen_nonneg buf0) as Hb.
  set (N := read_count ctx buf0 off).
  assert (HN : N = Z.min (blen buf0) (total_size ctx - off)) by reflexivity.
  induction fuel as [|fuel IH]; intros arr i Hi Hlen Hframe Hfuel; [lia|].
  cbn [ReadAt_loop].
  destruct (i <? blen buf0) eqn:Hlt.
  2:{ apply Z.ltb_ge in Hlt. assert (i = N) by lia. subst i.
      exists arr, N, None. repeat split; auto; try lia. discriminate. }
  apply Z.ltb_lt in Hlt.
  rewrite (add_small off i) by int64_range.
  destruct (getExtentForOffset_cases ctx (off + i))
    as [Herr | (e & Hok & Hin & Hlo & Hhi)].
  - rewrite Herr. exists (zero_fill arr N), N, None.
    assert (Hz : skipn (Z.to_nat N) (zero_fill arr N) = skipn (Z.to_nat N) buf0).
    { unfold zero_fill, zeros. unfold blen in *.
      rewrite skipn_app, repeat_length.
      rewrite skipn_all2 by (rewrite repeat_length; lia).
      replace (Z.to_nat N - Nat.min (Z.to_nat N) (length arr))%nat with 0%nat by lia.
      cbn [app skipn]. exact Hframe. }
    repeat split; auto; try lia.
    + rewrite zero_fill_length. exact Hlen.
    + discriminate.
  - rewrite Hok.
    destruct (Hwithin e Hin) as (Hvo0 & Hsz & Hend).
    rewrite (add_small (VirtualOffset e) (TotalSize e)) in Hhi by int64_range.
    rewrite (sub_small (off + i) (VirtualOffset e)) by int64_range.
    rewrite (sub_small (TotalSize e) (off + i - VirtualOffset e)) by int64_range.
    set (idx := off + i - VirtualOffset e).
    set (t := if blen buf0 - i >? TotalSize e - idx then TotalSize e - idx
              else blen buf0 - i).
    assert (Ht : 0 <= t /\ t <= N - i).
    { subst t idx. destruct (blen buf0 - i >? TotalSize e - (off + i - VirtualOffset e)) eqn:H.
      - apply Z.gtb_lt in H. lia.
      - rewrite Z.gtb_ltb in H. apply Z.ltb_ge in H. lia. }
    replace (t <? 0) with false by (symmetry; apply Z.ltb_ge; lia).
    assert (Hw : slice arr i (i + t) = firstn (Z.to_nat t) (skipn (Z.to_nat i) arr)).
    { unfold slice. replace (i + t - i) with t by lia. reflexivity. }
    assert (Hwlen : length (slice arr i (i + t)) = Z.to_nat t).
    { rewrite Hw, length_firstn, length_skipn. unfold blen in *. lia. }
    destruct (Extent_ReadAt_shape e (slice arr i (i + t)) idx) as (Hsl & Hn).
    destruct (Extent_ReadAt e (slice arr i (i + t)) idx) as [[sub n] err].
    cbn [fst snd] in Hsl, Hn. unfold blen in Hn. rewrite Hwlen in Hsl, Hn.
    assert (Hfit : (Z.to_nat i + length sub <= length arr)%nat)
      by (unfold blen in *; lia).
    assert (Hlen' : length (splice arr i sub) = length buf0)
      by (rewrite splice_length; [exact Hlen | exact Hfit]).
    assert (HkeepN : skipn (Z.to_nat N) (splice arr i sub) = skipn (Z.to_nat N) buf0).
    { rewrite (splice_skipn arr sub i (Z.to_nat N) Hfit) by lia. exact Hframe. }
    destruct (is_real_error err) eqn:Hreal.
    + exists (splice arr i sub), i, err. repeat split; auto; try lia.
      intros ->. discriminate.
    + destruct (n =? 0) eqn:Hn0.
      * apply Z.eqb_eq in Hn0. subst n.
        exists (splice arr i sub), i, None. repeat split; auto; try lia.
        discriminate.
      * apply Z.eqb_neq in Hn0.
        destruct (IH (splice arr i sub) (i + n) ltac:(lia) Hlen' HkeepN ltac:(lia))
          as (b & m & err' & Hloop & Hm & Hbl & Herr' & HbN).
        exists b, m, err'. repeat split; auto; lia.
Qed.

(** X7. On a context whose extents lie within [0, total_size), whatever
    the readers behind them deliver and whatever they leave in the buffer
    they are handed, a read at an offset within [0, total_size] does not
    panic; it returns a count between 0 and the smaller of the length of
    the buffer and [total_size - offset], a buffer of the length it was
    given, and never EOF; it changes no byte beyond that bound. *)
Theorem read_at_stays_in_bounds (ctx : VMDKContext) (buf : Buffer) (off : Z) :
  within_disk ctx -> 0 <= off <= total_size ctx ->
  exists b n err,
    VMDKContext_ReadAt ctx buf off = Returns (b, n, err)
    /\ 0 <= n <= blen buf
    /\ n <= total_size ctx - off
    /\ length b = length buf
    /\ err <> Some EOF
    /\ skipn (Z.to_nat (read_count ctx buf off)) b
       = skipn (Z.to_nat (read_count ctx buf off)) buf.
Proof.
  intros Hdisk Hoff. pose proof Hdisk as (Hmax & _).
  pose proof (blen_nonneg buf) as Hb.
  unfold VMDKContext_ReadAt.
  replace (off >? total_size ctx) with false
    by (symmetry; rewrite Z.gtb_ltb; apply Z.ltb_ge; lia).
  replace (off <? 0) with false by (symmetry; apply Z.ltb_ge; lia).
  cbn [orb].
  rewrite (sub_small (total_size ctx) off) by int64_range.
  assert (Hlen : (if blen buf >? total_size ctx - off
                  then total_size ctx - off else blen buf)
                 = read_count ctx buf off).
  { unfold read_count. destruct (blen buf >? total_size ctx - off) eqn:H.
    - apply Z.gtb_lt in H. lia.
    - rewrite Z.gtb_ltb in H. apply Z.ltb_ge in H. lia. }
  rewrite Hlen.
  destruct (ReadAt_loop_bounds ctx buf off Hdisk Hoff (S (length buf)) buf 0
              ltac:(unfold read_count; lia) eq_refl eq_refl ltac:(unfold blen; lia))
    as (b & n & err & Hloop & Hn & Hbl & Herr & HbN).
  rewrite Hloop. exists b, n, err.
  unfold read_count in Hn. repeat split; auto; lia.
Qed.

(** ** What a matched extent line holds *)

Section Groups.

Local Open Scope string_scope.

Lemma opt_offset_groups (s g5 tail : string) :
  opt_offset s = (g5, tail) ->
  (g5 = "" /\ tail = "")
  \/ (g5 <> "" /\ all_chars is_digit g5 = true /\ tail = String " " g5).
Proof.
  unfold opt_offset. destruct (expect " " s) as [s1|].
  - destruct (plus is_digit s1) as [[g r]|] eqn:E.
    + destruct (plus_spec _ _ _ _ E) as (_ & Hg). apply lang_Plus_Class in Hg.
      intros H; inversion H; subst. right. tauto.
    + intros H; inversion H; subst. left. tauto.
  - intros H; inversion H; subst. left. tauto.
Qed.

Lemma ExtentRegex_tail_groups (g1 s : string) (m : list string) :
  ExtentRegex_tail g1 s = Some m ->
  groups_of m g1 /\ exists post, g1 ++ s = group m 0 ++ post.
Proof.
  unfold ExtentRegex_tail.
  destruct (expect " " s) as [s1|] eqn:E1; [|discriminate].
  destruct (plus is_digit s1) as [[g2 s2]|] eqn:E2; [|discriminate].
  destruct (expect " " s2) as [s3|] eqn:E3; [|discriminate].
  destruct (plus is_upper s3) as [[g3 s4]|] eqn:E4; [|discriminate].
  destruct (expect " " s4) as [s5|] eqn:E5; [|discriminate].
  destruct (expect dquote s5) as [s6|] eqn:E6; [|discriminate].
  destruct (plus not_quote s6) as [[g4 s7]|] eqn:E7; [|discriminate].
  destruct (expect dquote s7) as [s8|] eqn:E8; [|discriminate].
  destruct (opt_offset s8) as [g5 tail] eqn:E9.
  intros H; inversion H as [Hm]; clear H.
  destruct (plus_spec _ _ _ _ E2) as (P2 & L2). apply lang_Plus_Class in L2.
  destruct (plus_spec _ _ _ _ E4) as (P4 & L4). apply lang_Plus_Class in L4.
  destruct (plus_spec _ _ _ _ E7) as (P7 & L7). apply lang_Plus_Class in L7.
  split.
  - exists g2, g3, g4, g5, tail. split; [reflexivity|].
    repeat split; try tauto. apply (opt_offset_groups _ _ _ E9).
  - destruct (opt_offset_sound _ _ _ E9) as (post & P9 & _).
    apply expect_Some in E1, E3, E5, E6, E8.
    exists post. cbn [group nth].
    rewrite E1, P2, E3, P4, E5, E6, P7, E8, P9.
    repeat (rewrite ?append_assoc; cbn [append]). reflexivity.
Qed.

Lemma ExtentRegex_at_groups (t : string) (m : list string) :
  ExtentRegex_at t = Some m ->
  exists g1, (g1 = "RW" \/ g1 = "R") /\ groups_of m g1
             /\ exists post, t = group m 0 ++ post.
Proof.
  unfold ExtentRegex_at.
  assert (HR : (if Str.HasPrefix t "R" then ExtentRegex_tail "R" (Str.drop 1 t) else None)
               = Some m ->
               exists g1, (g1 = "RW" \/ g1 = "R") /\ groups_of m g1
                          /\ exists post, t = group m 0 ++ post).
  { destruct (Str.HasPrefix t "R") eqn:HpR; [|discriminate].
    intros Ht. destruct (ExtentRegex_tail_groups _ _ _ Ht) as (Hg & post & Hpost).
    exists "R". split; [tauto|]. split; [exact Hg|].
    exists post. rewrite <- Hpost. apply (HasPrefix_drop "R" t HpR). }
  destruct (Str.HasPrefix t "RW") eqn:HpRW; [|exact HR].
  destruct (ExtentRegex_tail "RW" (Str.drop 2 t)) as [m'|] eqn:Ht; [|exact HR].
  intros H; inversion H; subst m'; clear H.
  destruct (ExtentRegex_tail_groups _ _ _ Ht) as (Hg & post & Hpost).
  exists "RW". split; [tauto|]. split; [exact Hg|].
  exists post. rewrite <- Hpost. apply (HasPrefix_drop "RW" t HpRW).
Qed.

Lemma FindStringSubmatch_groups (line : string) :
  FindStringSubmatch line <> []%list ->
  exists g1, (g1 = "RW" \/ g1 = "R") /\ groups_of (FindStringSubmatch line) g1
             /\ exists pre post, line = pre ++ group (FindStringSubmatch line) 0 ++ post.
Proof.
  intros Hne.
  destruct (FindStringSubmatch_sound line Hne) as (pre & t & Hline & Ht).
  destruct (ExtentRegex_at_groups t _ Ht) as (g1 & H1 & Hg & post & Hpost).
  exists g1. split; [exact H1|]. split; [exact Hg|].
  exists pre, post. rewrite Hline at 1. rewrite Hpost at 1. reflexivity.
Qed.

End Groups.

(** X8. The groups of a match of [ExtentRegex]: the access mode is [RW] or
    [R]; the sector count is a string of digits, not empty; the kind is a
    string of capital letters, not empty; the file name is not empty and
    holds no double quote; the sector offset is empty or a string of
    digits; and the whole match, which the line holds, is these groups
    with single spaces and the quotes between them. *)
Theorem extent_line_groups (line : string) (m : list string) :
  FindStringSubmatch line = m -> m <> [] ->
  length m = 6%nat
  /\ (group m 1 = "RW" \/ group m 1 = "R")%string
  /\ (group m 2 <> "" /\ all_chars is_digit (group m 2) = true)%string
  /\ (group m 3 <> "" /\ all_chars is_upper (group m 3) = true)%string
  /\ (group m 4 <> "" /\ all_chars not_quote (group m 4) = true)%string
  /\ (group m 5 = "" \/ all_chars is_digit (group m 5) = true)%string
  /\ (group m 0
      = group m 1 ++ " " ++ group m 2 ++ " " ++ group m 3 ++ " "
          ++ String dquote (group m 4)
          ++ String dquote (if String.eqb (group m 5) "" then ""
                            else String " " (group m 5)))%string
  /\ exists pre post, (line = pre ++ group m 0 ++ post)%string.
Proof.
  intros Hm Hne. subst m.
  destruct (FindStringSubmatch_groups line Hne) as (g1 & H1 & Hg & Hline).
  destruct Hg as (g2 & g3 & g4 & g5 & tail & Heq & H2 & H3 & H4 & H5).
  revert Hline. rewrite Heq. cbn [group nth length]. intros Hline.
  split; [reflexivity|]. split; [exact H1|]. split; [exact H2|]. split; [exact H3|].
  split; [exact H4|]. split.
  { destruct H5 as [(-> & _) | (_ & Hd & _)]; [left; reflexivity | right; exact Hd]. }
  split; [|exact Hline].
  destruct H5 as [(-> & ->) | (Hn & _ & ->)]; [reflexivity|].
  apply String.eqb_neq in Hn. rewrite Hn. reflexivity.
Qed.

(** ** The numbers of a matched line *)

Lemma digits_value_digits (s : string) :
  all_chars is_digit s = true ->
  forall acc, 0 <= acc -> exists v, digits_value s acc = Some v /\ acc <= v.
Proof.
  induction s as [|c s IH]; simpl; intros Hall acc Hacc.
  - exists acc. split; [reflexivity | lia].
  - apply andb_true_iff in Hall. destruct Hall as (Hc & Hs). rewrite Hc.
    unfold is_digit in Hc. apply andb_true_iff in Hc. destruct Hc as (Hlo & Hhi).
    apply Nat.leb_le in Hlo, Hhi.
    destruct (IH Hs (10 * acc + (Z.of_nat (nat_of_ascii c) - 48)) ltac:(lia))
      as (v & Hv & Hle).
    exists v. split; [exact Hv | lia].
Qed.

(** X9. The sector count of a matched extent line is a number: the only
    way [ParseInt] can fail on it is the range of [int64]. Below [2^63]
    [ParseInt] returns its value, and so does [parseInt] of the variant;
    from [2^63] on [ParseInt] panics, where [parseInt] returns an error. *)
Theorem matched_count_parses (line : string) (m : list string) :
  FindStringSubmatch line = m -> m <> [] ->
  exists v,
    0 <= v
    /\ digits_value (group m 2) 0 = Some v
    /\ (v < 2 ^ 63 ->
        ParseInt (group m 2) = Ok v /\ Permissive.parseInt (group m 2) = Ok v)
    /\ (2 ^ 63 <= v ->
        ParseInt (group m 2) = Panic ("Invalid integer in descriptor: " ++ group m 2)
        /\ exists err, Permissive.parseInt (group m 2) = Err err).
Proof.
  intros Hm Hne. subst m.
  destruct (FindStringSubmatch_groups line Hne) as (g1 & _ & Hg & _).
  destruct Hg as (g2 & g3 & g4 & g5 & tail & Heq & (Hne2 & Hd2) & _).
  rewrite Heq. cbn [group nth].
  destruct (digits_value_digits g2 Hd2 0 ltac:(lia)) as (v & Hv & Hv0).
  exists v. split; [exact Hv0|]. split; [exact Hv|].
  destruct g2 as [|c g2']; [congruence|].
  assert (Hsign : Ascii.eqb c "+" = false /\ Ascii.eqb c "-" = false).
  { simpl in Hd2. apply andb_true_iff in Hd2. destruct Hd2 as (Hc & _).
    split; apply Ascii.eqb_neq; intros ->; discriminate. }
  destruct Hsign as (Hplus & Hminus).
  assert (Hparse : strconv_ParseInt (String c g2')
                   = if v >=? 2 ^ 63
                     then inr (ErrMsg ("strconv.ParseInt: parsing " ++ String c g2'
                                        ++ ": value out of range"))
                     else inl v).
  { unfold strconv_ParseInt. rewrite Hplus, Hminus. cbn [orb negb andb].
    rewrite Hv. destruct (v >=? 2 ^ 63); reflexivity. }
  unfold ParseInt, Permissive.parseInt. rewrite Hparse.
  split.
  - intros Hlt. replace (v >=? 2 ^ 63) with false
      by (symmetry; rewrite Z.geb_leb; apply Z.leb_gt; lia).
    split; reflexivity.
  - intros Hge. replace (v >=? 2 ^ 63) with true by (symmetry; apply Z.geb_le; lia).
    split; [reflexivity|]. eexists. reflexivity.
Qed.

(** ** Settings *)

Lemma SplitN_eq_2_free (line : string) :
  free_of "=" line = true -> Str.SplitN_eq_2 line = [line].
Proof.
  induction line as [|c s IH]; simpl; [reflexivity|].
  intros H. apply andb_true_iff in H. destruct H as (Hc & Hs).
  apply negb_true_iff in Hc. rewrite Hc. rewrite (IH Hs). reflexivity.
Qed.

Lemma SplitN_eq_2_first (k v : string) :
  free_of "=" k = true -> Str.SplitN_eq_2 (k ++ String "=" v) = [k; v].
Proof.
  induction k as [|c s IH]; simpl; [reflexivity|].
  intros H. apply andb_true_iff in H. destruct H as (Hc & Hs).
  apply negb_true_iff in Hc. rewrite Hc. rewrite (IH Hs). reflexivity.
Qed.

Ltac by_key key' :=
  unfold field; cbn [assoc];
  repeat match goal with
  | |- context [String.eqb ?a key'] =>
      destruct (String.eqb_spec a key'); [subst; try congruence; try reflexivity|]
  end; try reflexivity.

(** The setter of a key writes the field of that key and no other. *)
Lemma setter_sets_field (key val : string) (c : VMDKConfig) :
  match assoc key (VMDKConfigSetters c) with
  | Some setter =>
      In key known_keys
      /\ field key (setter val) = Some val
      /\ forall key', key' <> key -> field key' (setter val) = field key' c
  | None => ~ In key known_keys /\ field key c = None
  end.
Proof.
  unfold VMDKConfigSetters. cbn [assoc].
  repeat match goal with
  | |- context [String.eqb ?a key] =>
      destruct (String.eqb_spec a key) as [<-|];
      [ split; [vm_compute; tauto|]; split; [reflexivity|];
        intros key' Hkey'; by_key key' |]
  end.
  split.
  - vm_compute. intuition congruence.
  - by_key key.
Qed.

(** X10. A line [k=v] of the descriptor section whose key, trimmed, has a
    setter stores [v], trimmed and without the quotes around it, in the
    field of that key and leaves the other fields as they were; an unknown
    key changes nothing, and neither does a line without [=]. *)
Theorem descriptor_setting (k v : string) (c : VMDKConfig) :
  free_of "=" k = true ->
  (In (Str.TrimSpace k) known_keys ->
   field (Str.TrimSpace k) (saveDescriptorSetting (k ++ String "=" v) c)
   = Some (Str.Trim_char (Str.TrimSpace v) dquote))
  /\ (forall key', key' <> Str.TrimSpace k ->
        field key' (saveDescriptorSetting (k ++ String "=" v) c) = field key' c)
  /\ (~ In (Str.TrimSpace k) known_keys ->
      saveDescriptorSetting (k ++ String "=" v) c = c)
  /\ (forall line, free_of "=" line = true -> saveDescriptorSetting line c = c).
Proof.
  intros Hk.
  assert (Hsave : saveDescriptorSetting (k ++ String "=" v) c
                  = match assoc (Str.TrimSpace k) (VMDKConfigSetters c) with
                    | Some setter => setter (Str.Trim_char (Str.TrimSpace v) dquote)
                    | None => c
                    end).
  { unfold saveDescriptorSetting. rewrite (SplitN_eq_2_first k v Hk). reflexivity. }
  pose proof (setter_sets_field (Str.TrimSpace k)
                (Str.Trim_char (Str.TrimSpace v) dquote) c) as Hset.
  rewrite Hsave.
  destruct (assoc (Str.TrimSpace k) (VMDKConfigSetters c)) as [setter|].
  - destruct Hset as (Hin & Hfield & Hframe).
    split; [intros _; exact Hfield|]. split; [exact Hframe|].
    split; [intros Hnot; contradiction|].
    intros line Hline. unfold saveDescriptorSetting.
    rewrite (SplitN_eq_2_free line Hline). reflexivity.
  - destruct Hset as (Hnot & _).
    split; [intros Hin; contradiction|]. split; [reflexivity|].
    split; [reflexivity|].
    intros line Hline. unfold saveDescriptorSetting.
    rewrite (SplitN_eq_2_free line Hline). reflexivity.
Qed.

(** ** The body of the loop, section by section *)

Section Sections.

Variable GetSparseExtent : ReaderAt -> outcome SparseExtent.
Variable opener : Opener.

(** Outside the extent section the body of the loop goes through, opens no
    file and keeps the extents. *)
Lemma step_outside_extents (p : Parse) (line : string) :
  state p <> Extents ->
  exists p',
    (forall gse opn, step gse opn p line = Ok p')
    /\ p_extents p' = p_extents p /\ p_total_size p' = p_total_size p
    /\ (state p' = Extents ->
        Str.HasPrefix (Str.TrimSpace line) "# Extent description" = true)
    /\ (p_config p' <> p_config p ->
        (state p = Descriptor \/ state p = DiskDataBase) /\ state p' = state p).
Proof.
  intros Hst. unfold step.
  destruct (Str.HasPrefix (Str.TrimSpace line) "# Disk DescriptorFile").
  { eexists. split; [intros; reflexivity|]. cbn. repeat split; congruence. }
  destruct (Str.HasPrefix (Str.TrimSpace line) "# Extent description").
  { eexists. split; [intros; reflexivity|]. cbn. repeat split; congruence. }
  destruct (Str.HasPrefix (Str.TrimSpace line) "# The Disk Data Base").
  { eexists. split; [intros; reflexivity|]. cbn. repeat split; congruence. }
  destruct (state p) eqn:E; try congruence.
  - eexists. split; [intros; reflexivity|]. repeat split; congruence.
  - destruct (Str.Contains (Str.TrimSpace line) "# Disk DescriptorFile").
    + eexists. split; [intros; reflexivity|]. cbn. repeat split; congruence.
    + eexists. split; [intros; reflexivity|]. repeat split; congruence.
  - eexists. split; [intros; reflexivity|]. cbn. rewrite E.
    repeat split; try congruence. left; reflexivity.
  - eexists. split; [intros; reflexivity|]. cbn. rewrite E.
    repeat split; try congruence. right; reflexivity.
Qed.

(** What does not go through is an extent line. *)
Lemma step_fails_in_extents (p : Parse) (line : string) :
  (forall p', step GetSparseExtent opener p line <> Ok p') ->
  state p = Extents /\ no_header (Str.TrimSpace line)
  /\ FindStringSubmatch (Str.TrimSpace line) <> []
  /\ step GetSparseExtent opener p line
     = add_extent GetSparseExtent opener p (FindStringSubmatch (Str.TrimSpace line)).
Proof.
  intros Hfail.
  assert (Hdec : state p = Extents \/ state p <> Extents)
    by (destruct (state p); (left; reflexivity) || (right; discriminate)).
  destruct Hdec as [Hst|Hst].
  2:{ destruct (step_outside_extents p line Hst) as (p' & Hok & _).
      exfalso. apply (Hfail p'). apply Hok. }
  assert (Hhdr : no_header (Str.TrimSpace line)).
  { unfold no_header. revert Hfail. unfold step.
    destruct (Str.HasPrefix (Str.TrimSpace line) "# Disk DescriptorFile");
      [intros H; exfalso; eapply H; reflexivity|].
    destruct (Str.HasPrefix (Str.TrimSpace line) "# Extent description");
      [intros H; exfalso; eapply H; reflexivity|].
    destruct (Str.HasPrefix (Str.TrimSpace line) "# The Disk Data Base");
      [intros H; exfalso; eapply H; reflexivity|].
    tauto. }
  split; [exact Hst|]. split; [exact Hhdr|].
  pose proof (step_in_extents GetSparseExtent opener p line Hst Hhdr) as Hstep.
  destruct (FindStringSubmatch (Str.TrimSpace line)) as [|g m] eqn:Hm.
  - exfalso. eapply Hfail. exact Hstep.
  - split; [discriminate | exact Hstep].
Qed.

(** Lines that do not open the extent section, read from outside it, go
    through, for every opener, and add no extent. *)
Lemma lines_outside_extents (lines : list string) (p : Parse) :
  state p <> Extents ->
  Forall (fun line =>
            Str.HasPrefix (Str.TrimSpace line) "# Extent description" = false) lines ->
  exists p',
    (forall gse opn, lines_loop gse opn p lines = Ok p')
    /\ p_extents p' = p_extents p /\ p_total_size p' = p_total_size p.
Proof.
  intros Hst Hall. revert p Hst.
  induction Hall as [|line rest Hline Hrest IH]; intros p Hst.
  - exists p. split; [intros; reflexivity | split; reflexivity].
  - destruct (step_outside_extents p line Hst) as (p1 & Hok & He & Ht & Hs1 & _).
    assert (Hst1 : state p1 <> Extents).
    { intros E. apply Hs1 in E. congruence. }
    destruct (IH p1 Hst1) as (p' & Hloop & He' & Ht').
    exists p'. split; [|split; congruence].
    intros gse opn. cbn [lines_loop]. rewrite Hok. cbn [bind]. apply Hloop.
Qed.

End Sections.

(** X11. The body of the line loop by section. Outside the extent section
    it always goes through, whatever the opener, and keeps the extents and
    the total size; what it returns as an error or panics with comes from
    a line of the extent section that holds a match of [ExtentRegex]; and
    the settings change only on a line of the descriptor section or of the
    disk data base, which keeps the section. *)
Theorem parser_fails_only_on_extent_lines
    (GetSparseExtent : ReaderAt -> outcome SparseExtent) (opener : Opener)
    (p : Parse) (line : string) :
  (state p <> Extents ->
   exists p',
     (forall gse opn, step gse opn p line = Ok p')
     /\ p_extents p' = p_extents p /\ p_total_size p' = p_total_size p)
  /\ (forall e, step GetSparseExtent opener p line = Err e ->
        state p = Extents /\ contains_match ExtentRegex (Str.TrimSpace line))
  /\ (forall msg, step GetSparseExtent opener p line = Panic msg ->
        state p = Extents /\ contains_match ExtentRegex (Str.TrimSpace line))
  /\ (forall p', step GetSparseExtent opener p line = Ok p' ->
        p_config p' <> p_config p ->
        (state p = Descriptor \/ state p = DiskDataBase) /\ state p' = state p).
Proof.
  split; [|split; [|split]].
  - intros Hst.
    destruct (step_outside_extents p line Hst) as (p' & Hok & He & Ht & _).
    exists p'. tauto.
  - intros e He.
    destruct (step_fails_in_extents GetSparseExtent opener p line)
      as (Hst & _ & Hm & _); [intros p'; congruence|].
    split; [exact Hst|]. apply FindStringSubmatch_iff. exact Hm.
  - intros msg He.
    destruct (step_fails_in_extents GetSparseExtent opener p line)
      as (Hst & _ & Hm & _); [intros p'; congruence|].
    split; [exact Hst|]. apply FindStringSubmatch_iff. exact Hm.
  - intros p' Hok Hcfg.
    assert (Hdec : state p = Extents \/ state p <> Extents)
      by (destruct (state p); (left; reflexivity) || (right; discriminate)).
    destruct Hdec as [Hst|Hst].
    + exfalso. apply Hcfg. revert Hok. unfold step.
      repeat match goal with
      | |- context [if ?b then Ok (set_state _ _) else _] =>
          destruct b; [intros H; inversion H; reflexivity|]
      end.
      rewrite Hst.
      destruct (FindStringSubmatch (Str.TrimSpace line)) as [|g m].
      * intros H; inversion H; reflexivity.
      * intros H. apply add_extent_Ok in H. tauto.
    + destruct (step_outside_extents p line Hst) as (p1 & Hok1 & _ & _ & _ & Hc).
      rewrite Hok1 in Hok. inversion Hok; subst p1. apply Hc. exact Hcfg.
Qed.


Lemma ReadAt_empty (cfg : VMDKConfig) (rd : ReaderAt) (buf : Buffer) (off : Z) :
  VMDKContext_ReadAt (mkVMDKContext cfg rd [] 0) buf off
  = Returns (buf, 0, if off =? 0 then None else Some EOF).
Proof.
  unfold VMDKContext_ReadAt. cbn [total_size].
  destruct (off =? 0) eqn:E.
  - apply Z.eqb_eq in E. subst off. cbn [Z.gtb Z.ltb Z.compare orb].
    change (Int64.sub 0 0) with 0.
    destruct buf as [|b buf]; [reflexivity|].
    replace (blen (b :: buf) >? 0) with true
      by (symmetry; unfold blen; cbn [length]; rewrite Z.gtb_ltb; apply Z.ltb_lt; lia).
    cbn [ReadAt_loop].
    replace (0 <? blen (b :: buf)) with true
      by (symmetry; unfold blen; cbn [length]; apply Z.ltb_lt; lia).
    reflexivity.
  - apply Z.eqb_neq in E.
    replace ((off >? 0) || (off <? 0)) with true; [reflexivity|].
    symmetry. apply orb_true_iff. rewrite Z.gtb_ltb, !Z.ltb_lt. lia.
Qed.

(** X12. A file of four bytes or more in which no line opens the extent
    section is opened without an error, whatever the opener, which is
    never asked for a file: the context has no extent and the size 0,
    a read at offset 0 returns 0 bytes and no error, a read anywhere else
    returns EOF. *)
Theorem open_without_extent_section
    (GetSparseExtent : ReaderAt -> outcome SparseExtent) (opener : Opener)
    (reader : ReaderAt) (size : Z) (st0 : State) (lines : list string) :
  open_prologue reader size = Ok (st0, lines) ->
  Forall (fun line =>
            Str.HasPrefix (Str.TrimSpace line) "# Extent description" = false) lines ->
  exists ctx,
    (forall gse opn, GetVMDKContext gse opn reader size = Ok ctx)
    /\ GetVMDKContext GetSparseExtent opener reader size = Ok ctx
    /\ extents ctx = [] /\ Size ctx = 0
    /\ (forall buf, VMDKContext_ReadAt ctx buf 0 = Returns (buf, 0, None))
    /\ (forall buf off, off <> 0 ->
          VMDKContext_ReadAt ctx buf off = Returns (buf, 0, Some EOF)).
Proof.
  intros Hpro Hall.
  assert (Hst0 : st0 <> Extents).
  { revert Hpro. unfold open_prologue.
    destruct ((if size >? 64 * 1024 then 64 * 1024 else size) <? 0); [discriminate|].
    destruct (io_ReadAt reader _ 0) as [[buf n] err].
    destruct (is_real_error err); [destruct err; discriminate|].
    destruct (blen buf <? 4); [discriminate|].
    destruct (Uint32 (slice buf 0 4) =? SPARSE_MAGICNUMBER);
      intros H; inversion H; discriminate. }
  destruct (lines_outside_extents lines (mkParse st0 NewVMDKConfig [] 0) Hst0 Hall)
    as (p & Hloop & He & Ht).
  cbn [p_extents p_total_size] in He, Ht.
  assert (Hopen : forall gse opn,
            GetVMDKContext gse opn reader size
            = Ok (mkVMDKContext (p_config p) reader [] 0)).
  { intros gse opn. rewrite GetVMDKContext_eq, Hpro. cbn [bind fst snd].
    rewrite Hloop. cbn [bind]. rewrite He, Ht. reflexivity. }
  exists (mkVMDKContext (p_config p) reader [] 0).
  split; [exact Hopen|]. split; [apply Hopen|].
  split; [reflexivity|]. split; [reflexivity|]. split.
  - intros buf. rewrite ReadAt_empty. reflexivity.
  - intros buf off Hoff. rewrite ReadAt_empty.
    apply Z.eqb_neq in Hoff. rewrite Hoff. reflexivity.
Qed.

(** X13. The file of an extent line is opened before the kind and the
    numbers of the line are looked at: when the opener fails,
    [GetVMDKContext] ends with the opener's own error, not wrapped, also
    on a line whose kind is not supported or whose numbers are no
    [int64]; when the opener panics, so does [GetVMDKContext]. *)
Theorem opener_error_comes_first
    (GetSparseExtent : ReaderAt -> outcome SparseExtent) (opener : Opener)
    (reader : ReaderAt) (size : Z) (p : Parse) (line : string)
    (rest : list string) (m : list string) :
  reaches GetSparseExtent opener reader size p line rest ->
  state p = Extents -> no_header (Str.TrimSpace line) ->
  FindStringSubmatch (Str.TrimSpace line) = m -> m <> [] ->
  (forall e, opener (group m 4) = Err e ->
     step GetSparseExtent opener p line = Err e
     /\ GetVMDKContext GetSparseExtent opener reader size = Err e)
  /\ (forall msg, opener (group m 4) = Panic msg ->
        step GetSparseExtent opener p line = Panic msg
        /\ GetVMDKContext GetSparseExtent opener reader size = Panic msg).
Proof.
  intros Hreach Hst Hhdr Hm Hne.
  pose proof (step_on_match GetSparseExtent opener p line m Hst Hhdr Hm Hne) as Hstep.
  destruct (open_aborts_at GetSparseExtent opener reader size p line rest Hreach)
    as (Herr & Hpanic).
  split.
  - intros e He.
    assert (Hs : step GetSparseExtent opener p line = Err e).
    { rewrite Hstep. unfold add_extent. rewrite He. reflexivity. }
    split; [exact Hs | apply Herr; exact Hs].
  - intros msg He.
    assert (Hs : step GetSparseExtent opener p line = Panic msg).
    { rewrite Hstep. unfold add_extent. rewrite He. reflexivity. }
    split; [exact Hs | apply Hpanic; exact Hs].
Qed.

(** X14. A line of kind [SPARSE] whose file the opener opens: the extent
    that [GetSparseExtent] decodes is appended with the running total as
    its virtual offset, the file name and the closer of the line, and its
    own size, which the total grows by; the sector count and the offset
    that the line declares are not read. An error of [GetSparseExtent]
    ends [GetVMDKContext], wrapped with the file name. *)
Theorem sparse_extent_line
    (GetSparseExtent : ReaderAt -> outcome SparseExtent) (opener : Opener)
    (reader : ReaderAt) (size : Z) (p : Parse) (line : string)
    (rest : list string) (m : list string) (rd : ReaderAt) (cl : option Closer) :
  reaches GetSparseExtent opener reader size p line rest ->
  state p = Extents -> no_header (Str.TrimSpace line) ->
  FindStringSubmatch (Str.TrimSpace line) = m -> m <> [] ->
  group m 3 = "SPARSE"%string ->
  opener (group m 4) = Ok (rd, cl) ->
  (forall ext, GetSparseExtent rd = Ok ext ->
     step GetSparseExtent opener p line =
     Ok (mkParse Extents (p_config p)
           (p_extents p ++
            [Sparse {| sparse_offset := p_total_size p;
                       sparse_total_size := sparse_total_size ext;
                       sparse_filename := group m 4;
                       sparse_closer := cl;
                       sparse_read := sparse_read ext;
                       sparse_scratch := sparse_scratch ext |}])
           (Int64.add (p_total_size p) (sparse_total_size ext))))
  /\ (forall e, GetSparseExtent rd = Err e ->
        GetVMDKContext GetSparseExtent opener reader size
        = Err (ErrWrap ("While opening " ++ group m 4) e)).
Proof.
  intros Hreach Hst Hhdr Hm Hne Hkind Hopen.
  pose proof (step_on_match GetSparseExtent opener p line m Hst Hhdr Hm Hne) as Hstep.
  split.
  - intros ext Hext. rewrite Hstep. unfold add_extent. rewrite Hopen. cbn [bind].
    rewrite Hkind. cbn [String.eqb Ascii.eqb Bool.eqb]. rewrite Hext, Hst. reflexivity.
  - intros e Hext.
    apply (proj1 (open_aborts_at GetSparseExtent opener reader size p line rest Hreach)).
    rewrite Hstep. unfold add_extent. rewrite Hopen. cbn [bind].
    rewrite Hkind. cbn [String.eqb Ascii.eqb Bool.eqb]. rewrite Hext. reflexivity.
Qed.

(** ** Digits *)

Lemma strconv_digits (s : string) (v : Z) :
  s <> EmptyString -> all_chars is_digit s = true -> digits_value s 0 = Some v ->
  strconv_ParseInt s
  = if v >=? 2 ^ 63
    then inr (ErrMsg ("strconv.ParseInt: parsing " ++ s ++ ": value out of range"))
    else inl v.
Proof.
  intros Hne Hd Hv. destruct s as [|c s']; [congruence|].
  assert (Hsign : Ascii.eqb c "+" = false /\ Ascii.eqb c "-" = false).
  { simpl in Hd. apply andb_true_iff in Hd. destruct Hd as (Hc & _).
    split; apply Ascii.eqb_neq; intros ->; discriminate. }
  destruct Hsign as (Hplus & Hminus).
  unfold strconv_ParseInt. rewrite Hplus, Hminus. cbn [orb negb andb].
  rewrite Hv. destruct (v >=? 2 ^ 63); reflexivity.
Qed.

Lemma ParseInt_panics (s : string) (msg : string) :
  (s = EmptyString \/ all_chars is_digit s = true) ->
  ParseInt s = Panic msg ->
  msg = ("Invalid integer in descriptor: " ++ s)%string /\ no_int64 s.
Proof.
  intros Hs. unfold ParseInt.
  destruct (strconv_ParseInt s) as [n|err] eqn:E; [discriminate|].
  intros H; inversion H; subst msg. split; [reflexivity|].
  destruct s as [|c s']; [left; reflexivity|].
  destruct Hs as [Hs|Hd]; [discriminate|].
  right. split; [exact Hd|].
  destruct (digits_value_digits _ Hd 0 ltac:(lia)) as (v & Hv & Hv0).
  exists v. split; [exact Hv|].
  rewrite (strconv_digits (String c s') v ltac:(discriminate) Hd Hv) in E.
  destruct (v >=? 2 ^ 63) eqn:Hge; [|discriminate].
  apply Z.geb_le in Hge. exact Hge.
Qed.

Lemma parseInt_no_panic (s : string) (msg : string) :
  Permissive.parseInt s <> Panic msg.
Proof. unfold Permissive.parseInt. destruct (strconv_ParseInt s); discriminate. Qed.

(** ** What the loop keeps *)

Section Kept.

Variable GetSparseExtent : ReaderAt -> outcome SparseExtent.
Variable opener : Opener.

Lemma lines_loop_keeps (P : Parse -> Prop) :
  (forall p p' line,
     P p -> step GetSparseExtent opener p line = Ok p' -> P p') ->
  forall lines p p',
    P p -> lines_loop GetSparseExtent opener p lines = Ok p' -> P p'.
Proof.
  intros Hstep lines. induction lines as [|line rest IH]; intros p p' HP; cbn [lines_loop].
  - intros H; inversion H; subst; exact HP.
  - destruct (step GetSparseExtent opener p line) as [p1|e|msg] eqn:E;
      cbn [bind]; try discriminate.
    apply IH. apply (Hstep p p1 line HP E).
Qed.

(** A loop that panics has come to a line on which its body panics. *)
Lemma lines_loop_panics (lines : list string) (p : Parse) (msg : string) :
  lines_loop GetSparseExtent opener p lines = Panic msg ->
  exists p1 line, step GetSparseExtent opener p1 line = Panic msg.
Proof.
  revert p. induction lines as [|line rest IH]; intros p; cbn [lines_loop].
  - discriminate.
  - destruct (step GetSparseExtent opener p line) as [p1|e|m] eqn:E; cbn [bind].
    + apply IH.
    + discriminate.
    + intros H; inversion H; subst. exists p, line. exact E.
Qed.

(** The extent that a line adds carries the name the opener was asked for
    and the closer the opener gave. *)
Lemma add_extent_closer (p p' : Parse) (m : list string) :
  add_extent GetSparseExtent opener p m = Ok p' ->
  exists e rd cl,
    p_extents p' = p_extents p ++ [e]
    /\ opener (group m 4) = Ok (rd, cl)
    /\ extent_filename e = Some (group m 4)
    /\ extent_closer e = cl.
Proof.
  unfold add_extent, bind.
  destruct (opener (group m 4)) as [[rd cl]|e|msg]; try discriminate.
  destruct (String.eqb (group m 3) "SPARSE").
  - destruct (GetSparseExtent rd) as [ext|e|msg]; try discriminate.
    intros H; inversion H; subst p'; clear H. cbn [p_extents].
    eexists _, rd, cl. repeat split; reflexivity.
  - destruct (String.eqb (group m 3) "FLAT"); [|discriminate].
    destruct (ParseInt (group m 2)) as [sectors|e|msg]; try discriminate.
    destruct (ParseInt (group m 5)) as [offsetSectors|e|msg]; try discriminate.
    cbn. intros H; inversion H; subst p'; clear H. cbn [p_extents].
    eexists _, rd, cl. repeat split; reflexivity.
Qed.

Lemma step_extents (p p' : Parse) (line : string) :
  step GetSparseExtent opener p line = Ok p' ->
  p_extents p' = p_extents p
  \/ exists m, add_extent GetSparseExtent opener p m = Ok p'.
Proof.
  unfold step.
  repeat match goal with
  | |- context [if ?b then Ok (set_state _ _) else _] =>
      destruct b; [intros H; inversion H; left; reflexivity|]
  end.
  destruct (state p).
  - intros H; inversion H; left; reflexivity.
  - destruct (Str.Contains _ _); intros H; inversion H; left; reflexivity.
  - intros H; inversion H; left; reflexivity.
  - destruct (FindStringSubmatch _) as [|g m].
    + intros H; inversion H; left; reflexivity.
    + intros H. right. exists (g :: m). exact H.
  - intros H; inversion H; left; reflexivity.
Qed.

Lemma closers_of_app (es1 es2 : list Extent) :
  closers_of (es1 ++ es2) = closers_of es1 ++ closers_of es2.
Proof. unfold closers_of. apply flat_map_app. Qed.

Lemma filenames_app (es1 es2 : list Extent) :
  filenames (es1 ++ es2) = filenames es1 ++ filenames es2.
Proof. unfold filenames. apply flat_map_app. Qed.

End Kept.

(** X15. Closing a context that [GetVMDKContext] returned, when the
    closers of the opener write the name of their file into a log: the
    log grows by the file names of the extents, one entry for every
    extent, in the order of the extent lines; normalization has added no
    extent, so these are all the extents of the context. The extents stay
    in the list, the flat ones as they were, the sparse ones without the
    closer that has run. *)
Theorem close_releases_opened_files
    (GetSparseExtent : ReaderAt -> outcome SparseExtent) (opener : Opener)
    (reader : ReaderAt) (size : Z) (ctx : VMDKContext) (w : World) :
  logging opener ->
  GetVMDKContext GetSparseExtent opener reader size = Ok ctx ->
  snd (VMDKContext_Close ctx w) = w ++ filenames (extents ctx)
  /\ length (filenames (extents ctx)) = length (extents ctx)
  /\ extents (fst (VMDKContext_Close ctx w)) = map released (extents ctx)
  /\ forall e, In e (extents ctx) -> is_null e = false.
Proof.
  intros Hlog Hopen.
  destruct (GetVMDKContext_Ok _ _ _ _ _ Hopen)
    as (p0 & p & lines & He0 & Ht0 & Hloop & ->).
  assert (Hinv : parse_inv (p_extents p) (p_total_size p)).
  { apply (lines_loop_inv GetSparseExtent opener lines p0 p); [|exact Hloop].
    rewrite He0, Ht0. split; [exact I | reflexivity]. }
  destruct Hinv as (Hc & _).
  assert (Hkept : closers_of (p_extents p) = map log_closer (filenames (p_extents p))
                  /\ length (filenames (p_extents p)) = length (p_extents p)
                  /\ forall e, In e (p_extents p) -> is_null e = false).
  { apply (lines_loop_keeps GetSparseExtent opener
             (fun q => closers_of (p_extents q) = map log_closer (filenames (p_extents q))
                       /\ length (filenames (p_extents q)) = length (p_extents q)
                       /\ forall e, In e (p_extents q) -> is_null e = false))
      with (lines := lines) (p := p0); [| |exact Hloop].
    - intros q q' line (Hq & Hlen & Hnull) Hstep.
      destruct (step_extents _ _ _ _ _ Hstep) as [-> | (m & Hadd)]; [tauto|].
      destruct (add_extent_closer _ _ _ _ _ Hadd) as (e & rd & cl & -> & Ho & Hf & Hcl).
      pose proof (Hlog _ _ _ Ho) as Hcl'. subst cl.
      assert (Hc1 : closers_of [e] = [log_closer (group m 4)])
        by (unfold closers_of; cbn [flat_map app]; rewrite Hcl'; reflexivity).
      assert (Hf1 : filenames [e] = [group m 4])
        by (unfold filenames; cbn [flat_map app]; rewrite Hf; reflexivity).
      rewrite closers_of_app, filenames_app, map_app, !length_app, Hq, Hlen, Hc1, Hf1.
      split; [reflexivity|]. split; [reflexivity|].
      intros e' Hin. apply in_app_or in Hin. destruct Hin as [Hin|[<-|[]]].
      + apply Hnull, Hin.
      + destruct e; [reflexivity | reflexivity | discriminate].
    - rewrite He0. cbn. split; [reflexivity|]. split; [reflexivity|]. tauto. }
  destruct Hkept as (Hcl & Hlen & Hnull).
  unfold normalizeExtents, VMDKContext_Close. cbn [extents].
  rewrite (normalize_loop_chained _ [] 0 Hc). cbn [app].
  rewrite Close_loop_spec. cbn [fst snd extents].
  rewrite Hcl, run_log_closers. tauto.
Qed.

(** ** Panics *)

Lemma open_prologue_panics (reader : ReaderAt) (size : Z) (msg : string) :
  open_prologue reader size = Panic msg ->
  (size < 0 /\ msg = "makeslice: len out of range"%string)
  \/ (0 <= size < 4 /\ msg = "slice bounds out of range"%string).
Proof.
  unfold open_prologue.
  destruct (size >? 64 * 1024) eqn:Hbig.
  - cbn [Z.ltb Z.mul Z.compare Pos.mul]. 
    replace (64 * 1024 <? 0) with false by reflexivity.
    pose proof (io_ReadAt_length reader (zeros (Z.to_nat (64 * 1024))) 0) as Hlen.
    destruct (io_ReadAt reader _ 0) as [[buf n] err]. cbn [fst] in Hlen.
    destruct (is_real_error err) eqn:Herr.
    { destruct err; [discriminate | discriminate]. }
    replace (blen buf <? 4) with false; [discriminate|].
    symmetry. apply Z.ltb_ge. unfold blen. rewrite Hlen. unfold zeros.
    rewrite repeat_length. rewrite Z2Nat.id; lia.
  - rewrite Z.gtb_ltb in Hbig. apply Z.ltb_ge in Hbig.
    destruct (size <? 0) eqn:Hneg.
    { apply Z.ltb_lt in Hneg. intros H; inversion H. left. split; [lia | reflexivity]. }
    apply Z.ltb_ge in Hneg.
    pose proof (io_ReadAt_length reader (zeros (Z.to_nat size)) 0) as Hlen.
    destruct (io_ReadAt reader _ 0) as [[buf n] err]. cbn [fst] in Hlen.
    destruct (is_real_error err) eqn:Herr.
    { destruct err; [discriminate | discriminate]. }
    destruct (blen buf <? 4) eqn:Hshort; [|discriminate].
    apply Z.ltb_lt in Hshort. unfold blen in Hshort. rewrite Hlen in Hshort.
    unfold zeros in Hshort. rewrite repeat_length, Z2Nat.id in Hshort by lia.
    intros H; inversion H. right. split; [lia | reflexivity].
Qed.

(** X16. With an opener and a [GetSparseExtent] that do not panic,
    [GetVMDKContext] panics in three cases only: a negative size, a size
    below 4, and a number of a [FLAT] line that [ParseInt] refuses, which
    is a sector count or an offset from [2^63] on, or the offset of a
    line that declares none. *)
Theorem open_panics_only_on_size_and_numbers
    (GetSparseExtent : ReaderAt -> outcome SparseExtent) (opener : Opener)
    (reader : ReaderAt) (size : Z) (msg : string) :
  calm GetSparseExtent opener ->
  GetVMDKContext GetSparseExtent opener reader size = Panic msg ->
  (size < 0 /\ msg = "makeslice: len out of range"%string)
  \/ (0 <= size < 4 /\ msg = "slice bounds out of range"%string)
  \/ (4 <= size
      /\ exists s, msg = ("Invalid integer in descriptor: " ++ s)%string
                   /\ no_int64 s).
Proof.
  intros (Hgse & Hopn). rewrite GetVMDKContext_eq.
  destruct (open_prologue reader size) as [[st0 lines]|e|m] eqn:Hpro; cbn [bind].
  2: discriminate.
  2:{ intros [= ->].
      destruct (open_prologue_panics reader size msg Hpro); tauto. }
  cbn [fst snd].
  destruct (lines_loop GetSparseExtent opener _ lines) as [p|e|m] eqn:Hloop;
    cbn [bind]; try discriminate.
  intros [= ->].
  right. right. split.
  { (* the prologue went through *)
    revert Hpro. unfold open_prologue.
    destruct (size >? 64 * 1024) eqn:Hbig.
    - rewrite Z.gtb_ltb in Hbig. apply Z.ltb_lt in Hbig. lia.
    - destruct (size <? 0) eqn:Hneg; [discriminate|]. apply Z.ltb_ge in Hneg.
      pose proof (io_ReadAt_length reader (zeros (Z.to_nat size)) 0) as Hlen.
      destruct (io_ReadAt reader _ 0) as [[buf n] err]. cbn [fst] in Hlen.
      destruct (is_real_error err); [destruct err; discriminate|].
      destruct (blen buf <? 4) eqn:Hshort; [discriminate|].
      apply Z.ltb_ge in Hshort. unfold blen in Hshort. rewrite Hlen in Hshort.
      unfold zeros in Hshort. rewrite repeat_length, Z2Nat.id in Hshort by lia.
      intros _. exact Hshort. }
  destruct (lines_loop_panics _ _ _ _ _ Hloop) as (p1 & line & Hstep).
  destruct (step_fails_in_extents GetSparseExtent opener p1 line)
    as (_ & _ & Hm & Hadd); [intros p'; congruence|].
  rewrite Hadd in Hstep.
  destruct (FindStringSubmatch_groups _ Hm) as (g1 & _ & Hg & _).
  destruct Hg as (g2 & g3 & g4 & g5 & tail & Heq & (_ & Hd2) & _ & _ & H5).
  revert Hstep. rewrite Heq. unfold add_extent. cbn [group nth bind].
  destruct (opener g4) as [[rd cl]|e|m] eqn:Ho.
  2: discriminate.
  2:{ intros _. exfalso. apply (Hopn _ _ Ho). }
  cbn [bind].
  destruct (String.eqb g3 "SPARSE").
  { destruct (GetSparseExtent rd) as [ext|e|m] eqn:Hs; try discriminate.
    intros _. exfalso. apply (Hgse _ _ Hs). }
  destruct (String.eqb g3 "FLAT"); [|discriminate].
  destruct (ParseInt g2) as [sectors|e|m] eqn:H2; cbn [bind]; try discriminate.
  2:{ intros H; injection H as <-. exists g2.
      apply ParseInt_panics; [right; exact Hd2 | exact H2]. }
  destruct (ParseInt g5) as [offsetSectors|e|m] eqn:H5'; cbn [bind]; try discriminate.
  intros H; injection H as <-. exists g5.
  apply ParseInt_panics; [|exact H5'].
  destruct H5 as [(-> & _) | (_ & Hd5 & _)]; [left; reflexivity | right; exact Hd5].
Qed.

(** ** The variant that knows no settings *)

Section Variant.

Variable GetSparseExtent : ReaderAt -> outcome SparseExtent.
Variable opener : Opener.

Lemma permissive_add_extent (p : Permissive.Parse) (m : list string) :
  calm GetSparseExtent opener ->
  (forall msg, Permissive.add_extent GetSparseExtent opener p m <> Panic msg)
  /\ forall p', Permissive.add_extent GetSparseExtent opener p m = Ok p' ->
       Permissive.state p' = Permissive.state p
       /\ (parse_inv (Permissive.p_extents p) (Permissive.p_total_size p) ->
           parse_inv (Permissive.p_extents p') (Permissive.p_total_size p')).
Proof.
  intros (Hgse & Hopn). unfold Permissive.add_extent.
  pose proof (parseInt_no_panic (group m 2)) as Hn2.
  destruct (Permissive.parseInt (group m 2)) as [sectors|e|msg2]; cbn [bind].
  2: split; [discriminate | discriminate].
  2: exfalso; apply (Hn2 msg2); reflexivity.
  assert (Hoff : forall msg,
            (if (6 <=? length m)%nat && negb (String.eqb (group m 5) "")
             then match Permissive.parseInt (group m 5) with
                  | Err err => Err (ErrWrap "error occured while parsing offsetSectors" err)
                  | r => r
                  end
             else Ok 0) <> Panic msg).
  { intros msg. destruct ((6 <=? length m)%nat && negb (String.eqb (group m 5) ""));
      [|discriminate].
    pose proof (parseInt_no_panic (group m 5) msg) as Hn5.
    destruct (Permissive.parseInt (group m 5)); [discriminate | discriminate | exact Hn5]. }
  destruct (if (6 <=? length m)%nat && negb (String.eqb (group m 5) "")
            then match Permissive.parseInt (group m 5) with
                 | Err err => Err (ErrWrap "error occured while parsing offsetSectors" err)
                 | r => r
                 end
            else Ok 0) as [offsetSectors|e|msg5]; cbn [bind].
  2: split; [discriminate | discriminate].
  2: exfalso; apply (Hoff msg5); reflexivity.
  destruct (opener (group m 4)) as [[rd cl]|e|msgo] eqn:Ho; cbn [bind].
  2: split; [discriminate | discriminate].
  2: exfalso; apply (Hopn _ _ Ho).
  destruct (String.eqb (group m 3) "SPARSE").
  - destruct (GetSparseExtent rd) as [ext|e|msgs] eqn:Hs.
    + split; [discriminate|]. intros p' H; inversion H; subst p'; clear H.
      cbn [Permissive.state Permissive.p_extents Permissive.p_total_size].
      split; [reflexivity|]. intros Hinv.
      match goal with
      | |- parse_inv (_ ++ [?e]) _ => apply (parse_inv_snoc _ _ e Hinv)
      end. reflexivity.
    + split; [discriminate | discriminate].
    + exfalso. apply (Hgse _ _ Hs).
  - destruct (String.eqb (group m 3) "FLAT" || String.eqb (group m 3) "VMFS").
    + cbn. split; [discriminate|]. intros p' H; inversion H; subst p'; clear H.
      cbn [Permissive.state Permissive.p_extents Permissive.p_total_size].
      split; [reflexivity|]. intros Hinv.
      match goal with
      | |- parse_inv (_ ++ [?e]) _ => apply (parse_inv_snoc _ _ e Hinv)
      end. reflexivity.
    + split; [discriminate | discriminate].
Qed.

Lemma permissive_step (p : Permissive.Parse) (line : string) :
  calm GetSparseExtent opener ->
  (forall msg, Permissive.step GetSparseExtent opener p line <> Panic msg)
  /\ forall p', Permissive.step GetSparseExtent opener p line = Ok p' ->
       parse_inv (Permissive.p_extents p) (Permissive.p_total_size p) ->
       parse_inv (Permissive.p_extents p') (Permissive.p_total_size p').
Proof.
  intros Hcalm. unfold Permissive.step.
  destruct (Str.HasPrefix line "# Extent description").
  { split; [discriminate|]. intros p' H; inversion H; subst p'. tauto. }
  destruct (Permissive.state p).
  - split; [discriminate|]. intros p' H; inversion H; subst p'. tauto.
  - destruct (FindStringSubmatch line) as [|g m].
    + split; [discriminate|]. intros p' H; inversion H; subst p'. tauto.
    + destruct (permissive_add_extent p (g :: m) Hcalm) as (Hnp & Hok).
      split; [exact Hnp|]. intros p' H. apply (Hok p' H).
Qed.

Lemma permissive_lines_loop (lines : list string) (p : Permissive.Parse) :
  calm GetSparseExtent opener ->
  (forall msg, Permissive.lines_loop GetSparseExtent opener p lines <> Panic msg)
  /\ forall p', Permissive.lines_loop GetSparseExtent opener p lines = Ok p' ->
       parse_inv (Permissive.p_extents p) (Permissive.p_total_size p) ->
       parse_inv (Permissive.p_extents p') (Permissive.p_total_size p').
Proof.
  intros Hcalm. revert p.
  induction lines as [|line rest IH]; intros p; cbn [Permissive.lines_loop].
  - split; [discriminate|]. intros p' H; inversion H; subst p'. tauto.
  - destruct (permissive_step p line Hcalm) as (Hnp & Hok).
    destruct (Permissive.step GetSparseExtent opener p line) as [p1|e|msg] eqn:E;
      cbn [bind].
    + destruct (IH p1) as (Hnp1 & Hok1). split; [exact Hnp1|].
      intros p' H Hinv. apply (Hok1 p' H). apply (Hok p1 eq_refl Hinv).
    + split; [discriminate | discriminate].
    + exfalso. apply (Hnp msg). reflexivity.
Qed.

End Variant.

(** X17. The variant of [GetVMDKContext] that knows no settings, with an
    opener and a [GetSparseExtent] that do not panic, does not panic on
    any file whose size is not negative, shorter than four bytes or not:
    a number it cannot read is an error. In the context it returns every
    extent ends where the next one starts, the first one starts at 0 and
    [total_size] is the sum of the sizes, in [int64]. *)
Theorem permissive_open_never_panics
    (GetSparseExtent : ReaderAt -> outcome SparseExtent) (opener : Opener)
    (reader : ReaderAt) (size : Z) :
  calm GetSparseExtent opener -> 0 <= size ->
  (forall msg,
     Permissive.GetVMDKContext GetSparseExtent opener reader size <> Panic msg)
  /\ forall ctx,
       Permissive.GetVMDKContext GetSparseExtent opener reader size = Ok ctx ->
       (forall i e1 e2,
          nth_error (extents ctx) i = Some e1 ->
          nth_error (extents ctx) (S i) = Some e2 ->
          Int64.add (VirtualOffset e1) (TotalSize e1) = VirtualOffset e2)
       /\ (forall e, nth_error (extents ctx) 0 = Some e -> VirtualOffset e = 0)
       /\ total_size ctx = Int64.wrap (sum_sizes (extents ctx)).
Proof.
  intros Hcalm Hsize. unfold Permissive.GetVMDKContext.
  replace ((if size >? 64 * 1024 then 64 * 1024 else size) <? 0) with false
    by (symmetry; apply Z.ltb_ge; destruct (size >? 64 * 1024); lia).
  destruct (io_ReadAt reader _ 0) as [[buf n] err].
  destruct (is_real_error err) eqn:Herr.
  { destruct err; [|discriminate]. split; [discriminate | discriminate]. }
  destruct (permissive_lines_loop GetSparseExtent opener
              (Str.Split_newline (string_of_list_byte (slice buf 0 n)))
              (Permissive.mkParse Permissive.INIT [] 0) Hcalm) as (Hnp & Hok).
  destruct (Permissive.lines_loop GetSparseExtent opener _ _) as [p|e|msg];
    cbn [bind].
  2: split; [discriminate | discriminate].
  2: exfalso; apply (Hnp msg); reflexivity.
  split; [discriminate|].
  intros ctx H; inversion H; subst ctx; clear H.
  destruct (Hok p eq_refl) as (Hc & Ht).
  { split; [exact I | reflexivity]. }
  unfold normalizeExtents; cbn [extents total_size].
  rewrite (normalize_loop_chained _ [] 0 Hc). cbn [app].
  split; [|split].
  - intros i e1 e2 E1 E2. apply (chained_adjacent _ 0 i e1 e2 Hc E1 E2).
  - intros e E. destruct (Permissive.p_extents p) as [|x xs]; [discriminate|].
    simpl in E. inversion E; subst x. simpl in Hc. tauto.
  - rewrite Ht. change 0 with (Int64.wrap 0) at 1. rewrite running_total_wrap.
    f_equal.
Qed.

(** ** The magic number *)

Lemma lor_shiftl_add (a b n : Z) :
  0 <= n -> 0 <= a < 2 ^ n -> Z.lor a (Z.shiftl b n) = a + b * 2 ^ n.
Proof.
  intros Hn Ha.
  assert (Hland : Z.land a (Z.shiftl b n) = 0).
  { apply Z.bits_inj'. intros k Hk. rewrite Z.land_spec, Z.bits_0.
    destruct (Z.lt_ge_cases k n) as [Hlt|Hge].
    - rewrite (Z.shiftl_spec_low b n k Hlt). apply andb_false_r.
    - replace (Z.testbit a k) with false; [reflexivity|].
      symmetry. destruct (Z.eq_dec a 0) as [->|Hnz]; [apply Z.bits_0|].
      apply Z.bits_above_log2; [lia|].
      apply Z.lt_le_trans with n; [|exact Hge].
      apply Z.log2_lt_pow2; lia. }
  rewrite <- Z.lxor_lor by exact Hland.
  rewrite <- Z.add_nocarry_lxor by exact Hland.
  rewrite Z.shiftl_mul_pow2 by exact Hn. reflexivity.
Qed.

Lemma Uint32_sum (b0 b1 b2 b3 : byte) :
  Uint32 [b0; b1; b2; b3]
  = Z.of_N (Stdlib.Strings.Byte.to_N b0)
    + Z.of_N (Stdlib.Strings.Byte.to_N b1) * 2 ^ 8
    + Z.of_N (Stdlib.Strings.Byte.to_N b2) * 2 ^ 16
    + Z.of_N (Stdlib.Strings.Byte.to_N b3) * 2 ^ 24.
Proof.
  unfold Uint32. cbn [nth].
  pose proof (Stdlib.Strings.Byte.to_N_bounded b0) as H0.
  pose proof (Stdlib.Strings.Byte.to_N_bounded b1) as H1.
  pose proof (Stdlib.Strings.Byte.to_N_bounded b2) as H2.
  pose proof (Stdlib.Strings.Byte.to_N_bounded b3) as H3.
  rewrite (lor_shiftl_add _ _ 8) by lia.
  rewrite (lor_shiftl_add _ _ 16) by lia.
  rewrite (lor_shiftl_add _ _ 24) by lia.
  reflexivity.
Qed.

Lemma byte_of_code (b : byte) (n : N) (c : byte) :
  Stdlib.Strings.Byte.to_N b = n -> Stdlib.Strings.Byte.of_N n = Some c -> b = c.
Proof.
  intros <- H. rewrite Stdlib.Strings.Byte.of_to_N in H. congruence.
Qed.

(** The four bytes that make the magic number. *)
Lemma Uint32_magic (b0 b1 b2 b3 : byte) (rest : list byte) :
  (Uint32 (slice (b0 :: b1 :: b2 :: b3 :: rest) 0 4) =? SPARSE_MAGICNUMBER) = true
  <-> (b0 = x4b /\ b1 = x44 /\ b2 = x4d /\ b3 = x56).
Proof.
  change (slice (b0 :: b1 :: b2 :: b3 :: rest) 0 4) with [b0; b1; b2; b3].
  rewrite Uint32_sum, Z.eqb_eq. unfold SPARSE_MAGICNUMBER.
  split.
  - intros Hsum.
    pose proof (Stdlib.Strings.Byte.to_N_bounded b0) as H0.
    pose proof (Stdlib.Strings.Byte.to_N_bounded b1) as H1.
    pose proof (Stdlib.Strings.Byte.to_N_bounded b2) as H2.
    pose proof (Stdlib.Strings.Byte.to_N_bounded b3) as H3.
    assert (E0 : Stdlib.Strings.Byte.to_N b0 = 75%N) by lia.
    assert (E1 : Stdlib.Strings.Byte.to_N b1 = 68%N) by lia.
    assert (E2 : Stdlib.Strings.Byte.to_N b2 = 77%N) by lia.
    assert (E3 : Stdlib.Strings.Byte.to_N b3 = 86%N) by lia.
    repeat split; eapply byte_of_code; try eassumption; reflexivity.
  - intros (-> & -> & -> & ->). reflexivity.
Qed.

(** X18. The check of the magic number: the loop over the lines starts in
    the state [KDMV] exactly when the first four bytes read from the file
    are the letters K, D, M, V in this order, which is when they make
    [SPARSE_MAGICNUMBER] as a little-endian [uint32]; otherwise it starts
    in the state of the empty string. The bytes after the fourth play no
    part. *)
Theorem magic_number_is_KDMV (reader : ReaderAt) (size : Z)
    (st0 : State) (lines : list string) :
  open_prologue reader size = Ok (st0, lines) ->
  (st0 = KDMV <-> first_bytes reader size = [x4b; x44; x4d; x56])
  /\ (st0 <> KDMV -> st0 = INIT).
Proof.
  unfold open_prologue, first_bytes.
  destruct ((if size >? 64 * 1024 then 64 * 1024 else size) <? 0); [discriminate|].
  destruct (io_ReadAt reader _ 0) as [[buf n] err]. cbn [fst].
  destruct (is_real_error err); [destruct err; discriminate|].
  destruct (blen buf <? 4) eqn:Hshort; [discriminate|].
  apply Z.ltb_ge in Hshort. unfold blen in Hshort.
  destruct buf as [|b0 [|b1 [|b2 [|b3 rest]]]]; cbn [length] in Hshort; try lia.
  pose proof (Uint32_magic b0 b1 b2 b3 rest) as Hmagic.
  cbn [firstn].
  destruct (Uint32 (slice (b0 :: b1 :: b2 :: b3 :: rest) 0 4) =? SPARSE_MAGICNUMBER).
  - intros [= <- _]. split; [|congruence].
    split; [intros _|reflexivity].
    destruct (proj1 Hmagic eq_refl) as (-> & -> & -> & ->). reflexivity.
  - intros [= <- _]. split; [|reflexivity].
    split; [discriminate|].
    intros [= -> -> -> ->]. destruct Hmagic as (_ & Hm).
    discriminate Hm. tauto.
Qed.

(** ** A disk of flat extents *)

Lemma flat_over_serves (e : Extent) (content : list byte) :
  flat_over e content -> serves e (window e content).
Proof.
  destruct e as [f|s|n]; cbn [flat_over window]; [|tauto|tauto].
  intros (Hrd & Hbase & Hsz & Hfile & Hmax).
  apply flat_serves; auto. lia.
Qed.

Lemma windows_serve (es : list Extent) (contents : list (list byte)) :
  Forall2 flat_over es contents -> Forall2 serves es (windows es contents).
Proof.
  induction 1 as [|e content es contents He _ IH]; cbn [windows]; constructor.
  - apply flat_over_serves, He.
  - exact IH.
Qed.

Lemma flat_over_size (es : list Extent) (contents : list (list byte)) :
  Forall2 flat_over es contents -> forall e, In e es -> 0 <= TotalSize e.
Proof.
  induction 1 as [|e content es contents He _ IH]; intros e' Hin; [destruct Hin|].
  destruct Hin as [<-|Hin]; [|apply IH, Hin].
  destruct e as [f|s|n]; cbn [flat_over] in He; [|tauto|tauto].
  cbn [TotalSize]. unfold FlatExtent_TotalSize. tauto.
Qed.

(** X19. Reading a disk of flat extents after opening it. When every
    extent of a context that [GetVMDKContext] returned is a flat extent
    over a file that holds its window, and the sizes add up within
    [int64], the size of the disk is the sum of the sizes of the extents
    and a read that lies within the disk fills the buffer with the bytes
    of the windows, one file after the other, from the offset on. *)
Theorem opened_flat_disk_reads_files
    (GetSparseExtent : ReaderAt -> outcome SparseExtent) (opener : Opener)
    (reader : ReaderAt) (size : Z) (ctx : VMDKContext)
    (contents : list (list byte)) (buf : Buffer) (off : Z) :
  GetVMDKContext GetSparseExtent opener reader size = Ok ctx ->
  Forall2 flat_over (extents ctx) contents ->
  sum_sizes (extents ctx) <= Int64.max_int ->
  0 <= off -> off + blen buf <= sum_sizes (extents ctx) ->
  Size ctx = sum_sizes (extents ctx)
  /\ VMDKContext_ReadAt ctx buf off
     = Returns (firstn (length buf)
                  (skipn (Z.to_nat off) (image (windows (extents ctx) contents))),
                blen buf, None).
Proof.
  intros Hopen Hflat Hfit Hoff Hend.
  pose proof (flat_over_size _ _ Hflat) as Hsz.
  assert (Hnorm : normalized ctx).
  { destruct (GetVMDKContext_Ok _ _ _ _ _ Hopen)
      as (p0 & p & lines & He0 & Ht0 & Hloop & ->).
    assert (Hinv : parse_inv (p_extents p) (p_total_size p)).
    { apply (lines_loop_inv GetSparseExtent opener lines p0 p); [|exact Hloop].
      rewrite He0, Ht0. split; [exact I | reflexivity]. }
    destruct Hinv as (Hc & Ht).
    revert Hflat Hfit Hend Hsz.
    unfold normalizeExtents, normalized; cbn [extents total_size].
    rewrite (normalize_loop_chained _ [] 0 Hc). cbn [app].
    intros Hflat Hfit Hend Hsz.
    assert (Hcont : contiguous 0 (p_extents p))
      by (apply chained_contiguous; auto; lia).
    assert (Hplain : p_total_size p = sum_sizes (p_extents p)).
    { rewrite Ht. change 0 with (Int64.wrap 0) at 1. rewrite running_total_wrap.
      cbn [Z.add]. apply wrap_small.
      pose proof (contiguous_sum_nonneg _ _ Hcont). int64_range. }
    split; [exact Hcont|]. split; [exact Hplain | lia]. }
  pose proof Hnorm as (_ & Htot & _).
  split; [exact Htot|].
  pose proof (blen_nonneg buf) as Hb.
  rewrite (VMDKContext_ReadAt_image ctx (windows (extents ctx) contents) buf off
             Hnorm (windows_serve _ _ Hflat)) by lia.
  assert (Hcount : read_count ctx buf off = blen buf) by (unfold read_count; lia).
  rewrite Hcount. unfold read_result, blen.
  rewrite Nat2Z.id, skipn_all, app_nil_r. reflexivity.
Qed.

(** ** Settings and extents *)

(** The body of the loop run with two openers on the same line, from
    variables with the same section and the same settings. *)
Lemma step_same_settings
    (gse1 gse2 : ReaderAt -> outcome SparseExtent) (opn1 opn2 : Opener)
    (p1 p2 p1' p2' : Parse) (line : string) :
  state p1 = state p2 -> p_config p1 = p_config p2 ->
  step gse1 opn1 p1 line = Ok p1' -> step gse2 opn2 p2 line = Ok p2' ->
  state p1' = state p2' /\ p_config p1' = p_config p2'.
Proof.
  intros Hst Hcfg. unfold step. rewrite <- Hst, <- Hcfg.
  destruct (Str.HasPrefix (Str.TrimSpace line) "# Disk DescriptorFile").
  { intros [= <-] [= <-]. cbn. split; [reflexivity | exact Hcfg]. }
  destruct (Str.HasPrefix (Str.TrimSpace line) "# Extent description").
  { intros [= <-] [= <-]. cbn. split; [reflexivity | exact Hcfg]. }
  destruct (Str.HasPrefix (Str.TrimSpace line) "# The Disk Data Base").
  { intros [= <-] [= <-]. cbn. split; [reflexivity | exact Hcfg]. }
  destruct (state p1) eqn:E.
  - intros [= <-] [= <-]. split; [congruence | exact Hcfg].
  - destruct (Str.Contains (Str.TrimSpace line) "# Disk DescriptorFile");
      intros [= <-] [= <-]; cbn; split; congruence.
  - intros [= <-] [= <-]. cbn. split; congruence.
  - destruct (FindStringSubmatch (Str.TrimSpace line)) as [|g m].
    + intros [= <-] [= <-]. cbn. split; [reflexivity | exact Hcfg].
    + intros H1 H2.
      apply add_extent_Ok in H1. apply add_extent_Ok in H2.
      destruct H1 as (Hs1 & Hc1 & _). destruct H2 as (Hs2 & Hc2 & _).
      split; congruence.
  - intros [= <-] [= <-]. cbn. split; congruence.
Qed.

Lemma lines_loop_same_settings
    (gse1 gse2 : ReaderAt -> outcome SparseExtent) (opn1 opn2 : Opener)
    (lines : list string) (p1 p2 p1' p2' : Parse) :
  state p1 = state p2 -> p_config p1 = p_config p2 ->
  lines_loop gse1 opn1 p1 lines = Ok p1' -> lines_loop gse2 opn2 p2 lines = Ok p2' ->
  state p1' = state p2' /\ p_config p1' = p_config p2'.
Proof.
  revert p1 p2. induction lines as [|line rest IH]; intros p1 p2 Hst Hcfg;
    cbn [lines_loop].
  - intros [= <-] [= <-]. split; assumption.
  - destruct (step gse1 opn1 p1 line) as [q1|e|msg] eqn:E1; cbn [bind]; try discriminate.
    destruct (step gse2 opn2 p2 line) as [q2|e|msg] eqn:E2; cbn [bind]; try discriminate.
    destruct (step_same_settings gse1 gse2 opn1 opn2 p1 p2 q1 q2 line Hst Hcfg E1 E2)
      as (Hst' & Hcfg').
    apply (IH q1 q2 Hst' Hcfg').
Qed.

(** X20. The settings of a context come from the descriptor alone: when a
    file is opened twice, with any two openers and any two decoders of
    sparse extents, and both calls return a context, the two contexts have
    the same settings, whatever the extent files hold. *)
Theorem settings_do_not_depend_on_extents
    (gse1 gse2 : ReaderAt -> outcome SparseExtent) (opn1 opn2 : Opener)
    (reader : ReaderAt) (size : Z) (ctx1 ctx2 : VMDKContext) :
  GetVMDKContext gse1 opn1 reader size = Ok ctx1 ->
  GetVMDKContext gse2 opn2 reader size = Ok ctx2 ->
  config ctx1 = config ctx2.
Proof.
  rewrite !GetVMDKContext_eq.
  destruct (open_prologue reader size) as [[st0 lines]|e|msg]; cbn [bind fst snd];
    try discriminate.
  destruct (lines_loop gse1 opn1 _ lines) as [p1|e|msg] eqn:E1; cbn [bind];
    try discriminate.
  destruct (lines_loop gse2 opn2 _ lines) as [p2|e|msg] eqn:E2; cbn [bind];
    try discriminate.
  intros [= <-] [= <-]. cbn [normalizeExtents config].
  apply (lines_loop_same_settings gse1 gse2 opn1 opn2 lines _ _ p1 p2
           eq_refl eq_refl E1 E2).
Qed.

(** * The properties on sample disks *)

(** The disk of one sector is normalized. *)
Lemma one_sector_normalized : normalized Sample.one_sector.
Proof.
  unfold normalized. cbn. unfold FlatExtent_VirtualOffset, FlatExtent_TotalSize. cbn.
  unfold Int64.max_int. repeat split; lia.
Qed.

(** C1 as stated fails: at [offset == total_size] the read returns
    [(0, nil)], not [(0, EOF)]; so does it on a disk that was opened. *)
Lemma read_at_total_size_is_not_EOF :
  total_size Sample.one_sector = 512
  /\ VMDKContext_ReadAt Sample.one_sector [xff; xff] 512 = Returns ([xff; xff], 0, None)
  /\ VMDKContext_ReadAt Sample.one_sector [xff; xff] 512
     <> Returns ([xff; xff], 0, Some EOF)
  /\ exists ctx,
       Sample.open Sample.two_flat = Ok ctx
       /\ VMDKContext_ReadAt ctx [xff; xff] (total_size ctx) = Returns ([xff; xff], 0, None).
Proof.
  split; [reflexivity|]. split; [vm_compute; reflexivity|]. split.
  - vm_compute. discriminate.
  - eexists. split; [vm_compute; reflexivity | vm_compute; reflexivity].
Qed.

(** C1 on the disk of one sector: EOF above [total_size] and below 0, none
    at [total_size]. *)
Lemma read_at_eof_guard_witness :
  VMDKContext_ReadAt Sample.one_sector [xff; xff] 513 = Returns ([xff; xff], 0, Some EOF)
  /\ VMDKContext_ReadAt Sample.one_sector [xff; xff] (-1) = Returns ([xff; xff], 0, Some EOF)
  /\ (forall b n err,
        VMDKContext_ReadAt Sample.one_sector [xff; xff] 512 = Returns (b, n, err) ->
        err <> Some EOF)
  /\ exists err,
       VMDKContext_ReadAt Sample.one_sector [xff; xff] (total_size Sample.one_sector)
       = Returns ([xff; xff], 0, err)
       /\ err <> Some EOF.
Proof.
  split; [|split; [|split]].
  - apply (proj1 (read_at_eof_guard Sample.one_sector [xff; xff] 513)).
    right. vm_compute. reflexivity.
  - apply (proj1 (read_at_eof_guard Sample.one_sector [xff; xff] (-1))).
    left. vm_compute. reflexivity.
  - apply (proj1 (proj2 (read_at_eof_guard Sample.one_sector [xff; xff] 512))).
    split; vm_compute; discriminate.
  - destruct (proj2 (proj2 (read_at_eof_guard Sample.one_sector [xff; xff] 512))
                one_sector_normalized) as (err & Hread & Hne & _).
    exists err. split; assumption.
Defined.

(** C2 as stated fails: [parser/context.go] rejects the kind [VMFS]. *)
Lemma vmfs_is_rejected :
  Sample.open Sample.vmfs = Err (ErrMsg "Unsupported extent type VMFS")
  /\ exists ctx,
       Sample.open_permissive Sample.vmfs = Ok ctx
       /\ map TotalSize (extents ctx) = [512].
Proof.
  split; [vm_compute; reflexivity|].
  eexists. split; [vm_compute; reflexivity | vm_compute; reflexivity].
Qed.

(** The loop over the lines of [Sample.vmfs] comes to its extent line in
    the extent section. *)
Lemma vmfs_line_reached :
  reaches Sample.GetSparseExtent Sample.opener
    (FileReader (list_byte_of_string Sample.vmfs))
    (Z.of_nat (String.length Sample.vmfs))
    Sample.in_extents ("RW 1 VMFS " ++ Sample.quoted "a.vmdk" ++ " 0") [""%string].
Proof.
  exists INIT, ["# Extent description"%string]. split; vm_compute; reflexivity.
Qed.

(** C2 on the descriptor [Sample.vmfs]. *)
Lemma extent_kinds_witness :
  GetVMDKContext Sample.GetSparseExtent Sample.opener
    (FileReader (list_byte_of_string Sample.vmfs))
    (Z.of_nat (String.length Sample.vmfs))
  = Err (ErrMsg "Unsupported extent type VMFS").
Proof.
  refine (proj1 (proj2 (proj2
    (extent_kinds Sample.GetSparseExtent Sample.opener _ _ Sample.in_extents
       ("RW 1 VMFS " ++ Sample.quoted "a.vmdk" ++ " 0") [""%string]
       ["RW 1 VMFS " ++ Sample.quoted "a.vmdk" ++ " 0"; "RW"; "1"; "VMFS"; "a.vmdk"; "0"]%string
       (FileReader Sample.file_a) (Some (log_closer "a.vmdk"))
       vmfs_line_reached _ _ _ _ _))) _).
  - reflexivity.
  - repeat split; vm_compute; reflexivity.
  - vm_compute. reflexivity.
  - discriminate.
  - vm_compute. reflexivity.
  - vm_compute. reflexivity.
Defined.

(** [Sample.two_flat] opens. *)
Lemma two_flat_opened :
  GetVMDKContext Sample.GetSparseExtent Sample.opener
    (FileReader (list_byte_of_string Sample.two_flat))
    (Z.of_nat (String.length Sample.two_flat))
  = Ok Sample.two_flat_ctx.
Proof. vm_compute. reflexivity. Qed.


(** C4 as stated fails: a sector count out of range makes
    [parser/context.go] panic, where the specification has an error returned. *)
Lemma huge_count_panics :
  Sample.open Sample.huge_count
  = Panic "Invalid integer in descriptor: 9223372036854775808"
  /\ forall e, Sample.open Sample.huge_count <> Err e.
Proof.
  split; [vm_compute; reflexivity|].
  intros e. vm_compute. discriminate.
Qed.

(** The loop over the lines of [Sample.huge_count] comes to its extent line
    in the extent section. *)
Lemma huge_count_line_reached :
  reaches Sample.GetSparseExtent Sample.opener
    (FileReader (list_byte_of_string Sample.huge_count))
    (Z.of_nat (String.length Sample.huge_count))
    Sample.in_extents
    ("RW 9223372036854775808 FLAT " ++ Sample.quoted "a.vmdk" ++ " 0") [""%string].
Proof.
  exists INIT, ["# Extent description"%string]. split; vm_compute; reflexivity.
Qed.

(** C4 on the descriptor [Sample.huge_count]. *)
Lemma malformed_integer_panics_witness :
  GetVMDKContext Sample.GetSparseExtent Sample.opener
    (FileReader (list_byte_of_string Sample.huge_count))
    (Z.of_nat (String.length Sample.huge_count))
  = Panic "Invalid integer in descriptor: 9223372036854775808".
Proof.
  refine (proj1
    (malformed_integer_panics Sample.GetSparseExtent Sample.opener _ _ Sample.in_extents
       ("RW 9223372036854775808 FLAT " ++ Sample.quoted "a.vmdk" ++ " 0") [""%string]
       ["RW 9223372036854775808 FLAT " ++ Sample.quoted "a.vmdk" ++ " 0";
        "RW"; "9223372036854775808"; "FLAT"; "a.vmdk"; "0"]%string
       (FileReader Sample.file_a) (Some (log_closer "a.vmdk"))
       huge_count_line_reached _ _ _ _ _ _)
    (ErrMsg "strconv.ParseInt: parsing 9223372036854775808: value out of range") _).
  - reflexivity.
  - repeat split; vm_compute; reflexivity.
  - vm_compute. reflexivity.
  - discriminate.
  - reflexivity.
  - vm_compute. reflexivity.
  - vm_compute. reflexivity.
Defined.

(** C5 on the second sector of [b.vmdk]: past the end, across the end,
    and the whole extent. *)
Lemma flat_extent_read_at_witness :
  exists e : FlatExtent,
    GetFlatExtent (FileReader Sample.file_b) "b.vmdk" 1 1 512 None = Ok e
    /\ FlatExtent_ReadAt e (repeat xff 4) 512 = (repeat xff 4, 0, Some EOF)
    /\ FlatExtent_ReadAt e (repeat xff 4) 510 = ([x02; x02; xff; xff], 2, None)
    /\ FlatExtent_ReadAt e (repeat xff 512) 0
       = io_ReadAt (FileReader Sample.file_b) (repeat xff 512) (1 * 512).
Proof.
  assert (Hfit : 1 * 512 + 1 * 512 <= Int64.max_int) by (vm_compute; discriminate).
  destruct (flat_extent_read_at (FileReader Sample.file_b) "b.vmdk" None 1 1 512
              (repeat xff 4) 512) as (e & He & _ & _ & _ & _ & Hplain).
  destruct (Hplain ltac:(lia) ltac:(lia) Hfit) as (Hout & _ & _).
  destruct (flat_extent_read_at (FileReader Sample.file_b) "b.vmdk" None 1 1 512
              (repeat xff 4) 510) as (e1 & He1 & _ & _ & _ & _ & Hplain1).
  destruct (Hplain1 ltac:(lia) ltac:(lia) Hfit) as (_ & Hin & _).
  destruct (flat_extent_read_at (FileReader Sample.file_b) "b.vmdk" None 1 1 512
              (repeat xff 512) 0) as (e2 & He2 & _ & _ & _ & _ & Hplain2).
  destruct (Hplain2 ltac:(lia) ltac:(lia) Hfit) as (_ & _ & Hfull).
  assert (e1 = e) by congruence. assert (e2 = e) by congruence. subst e1 e2.
  exists e. split; [exact He|]. split; [|split].
  - apply Hout. right. lia.
  - rewrite Hin; [vm_compute; reflexivity | lia | vm_compute; discriminate].
  - apply Hfull; [lia | reflexivity].
Defined.

(** C5 as stated fails: the size of the extent is [S*512] in [int64]. A
    sector count of [2^55 + 1] makes an extent of 512 bytes, which answers
    EOF at an offset below [S*512]. *)
Lemma flat_extent_size_wraps :
  exists e : FlatExtent,
    GetFlatExtent (FileReader Sample.file_a) "a.vmdk" 0 36028797018963969 0 None = Ok e
    /\ FlatExtent_TotalSize e = 512
    /\ 0 <= 600 < 36028797018963969 * 512
    /\ FlatExtent_ReadAt e [xff; xff] 600 = ([xff; xff], 0, Some EOF)
    /\ FlatExtent_ReadAt e [xff; xff] 600
       <> (let '(sub, n, err) :=
             io_ReadAt (FileReader Sample.file_a) [xff; xff] (0 * 512 + 600) in
           (sub, n, err)).
Proof.
  eexists. split; [reflexivity|].
  split; [vm_compute; reflexivity|].
  split; [lia|].
  split; [vm_compute; reflexivity|].
  vm_compute. discriminate.
Qed.

(** C6 as stated fails: at the upper bound of the last extent the lookup
    answers the last extent, not EOF, though the offset is not within
    [virtual_offset, virtual_offset + total_size). *)
Lemma lookup_at_upper_bound_finds_last_extent :
  normalized Sample.one_sector
  /\ getExtentForOffset Sample.one_sector 512
     = Ok (Flat (Sample.flat "a.vmdk" Sample.file_a 0 512))
  /\ getExtentForOffset Sample.one_sector 512 <> Err EOF
  /\ ~ (VirtualOffset (Flat (Sample.flat "a.vmdk" Sample.file_a 0 512)) <= 512
        < VirtualOffset (Flat (Sample.flat "a.vmdk" Sample.file_a 0 512))
          + TotalSize (Flat (Sample.flat "a.vmdk" Sample.file_a 0 512))).
Proof.
  split; [exact one_sector_normalized|]. split; [reflexivity|]. split.
  - vm_compute. discriminate.
  - cbn. unfold FlatExtent_VirtualOffset, FlatExtent_TotalSize. cbn. lia.
Qed.

(** C6 on the disk of one sector. *)
Lemma lookup_in_normalized_witness :
  getExtentForOffset Sample.one_sector 100
  = Ok (Flat (Sample.flat "a.vmdk" Sample.file_a 0 512))
  /\ getExtentForOffset Sample.one_sector 513 = Err EOF.
Proof.
  split.
  - apply (proj1 (lookup_in_normalized Sample.one_sector 100 one_sector_normalized)
             0%nat (Flat (Sample.flat "a.vmdk" Sample.file_a 0 512)) eq_refl).
    cbn. unfold FlatExtent_VirtualOffset, FlatExtent_TotalSize. cbn. lia.
  - apply (proj1 (proj2 (proj2
             (lookup_in_normalized Sample.one_sector 513 one_sector_normalized)))).
    right. cbn. lia.
Defined.

(** C8 as stated fails: the second close of an extent runs its closer
    again. *)
Lemma double_close_runs_closer_twice :
  snd (FlatExtent_Close (Sample.flat "a.vmdk" Sample.file_a 0 512) [])
  = ["a.vmdk"%string]
  /\ snd (FlatExtent_Close_twice (Sample.flat "a.vmdk" Sample.file_a 0 512) [])
     = ["a.vmdk"%string; "a.vmdk"%string]
  /\ FlatExtent_Close_twice (Sample.flat "a.vmdk" Sample.file_a 0 512) []
     <> FlatExtent_Close (Sample.flat "a.vmdk" Sample.file_a 0 512) [].
Proof.
  split; [reflexivity|]. split; [reflexivity|].
  intros H. apply (f_equal snd) in H. cbv in H. discriminate.
Qed.

(** C8 on a flat extent and on a context of two extents. *)
Lemma close_runs_every_closer_witness :
  FlatExtent_Close_twice (Sample.flat "a.vmdk" Sample.file_a 0 512) []
  = (Sample.flat "a.vmdk" Sample.file_a 0 512, ["a.vmdk"%string; "a.vmdk"%string])
  /\ snd (VMDKContext_Close Sample.overlapping []) = ["a.vmdk"%string; "b.vmdk"%string].
Proof.
  split.
  - apply (proj1 close_runs_every_closer
             (Sample.flat "a.vmdk" Sample.file_a 0 512) (log_closer "a.vmdk") []).
    reflexivity.
  - apply (proj1 (proj2 (proj2 (proj2 close_runs_every_closer)))
             Sample.overlapping ["a.vmdk"%string; "b.vmdk"%string] []).
    reflexivity.
Defined.

(** C10 on a file of two bytes. *)
Lemma open_short_input_panics_witness :
  GetVMDKContext Sample.GetSparseExtent Sample.opener (FileReader [x01; x02]) 2
  = Panic "slice bounds out of range".
Proof.
  apply (proj1 (proj1 (proj2 (open_short_input_panics Sample.GetSparseExtent
                                Sample.opener (FileReader [x01; x02]) 2))
                  ltac:(lia))).
  vm_compute. reflexivity.
Defined.

(** C10 as stated fails: when the first read fails, [GetVMDKContext]
    returns the error of the reader before it comes to the magic number,
    also with a size below 4. *)
Lemma short_input_with_failing_read_returns_error :
  2 < 4
  /\ GetVMDKContext Sample.GetSparseExtent Sample.opener Sample.broken_reader 2
     = Err (ErrMsg "input/output error")
  /\ forall msg,
       GetVMDKContext Sample.GetSparseExtent Sample.opener Sample.broken_reader 2
       <> Panic msg.
Proof.
  split; [lia|]. split; [reflexivity|]. intros msg. discriminate.
Qed.

(** What the expression of the specification matches starts with [R]. *)
Lemma spec_match_starts_with_R (m : string) :
  lang spec_ExtentRegex m -> exists r, m = String "R" r.
Proof.
  unfold spec_ExtentRegex. cbn [sequence].
  intros (s1 & s2 & -> & Hmode & _).
  destruct Hmode as [(a & b & -> & La & _) | LR].
  - apply lang_Lit in La. subst a. eexists. reflexivity.
  - apply lang_Lit in LR. subst s1. eexists. reflexivity.
Qed.

(** The expression of the specification matches a line with two spaces
    after the access mode. *)
Lemma two_spaces_match_spec : prefix_match spec_ExtentRegex Sample.two_spaces.
Proof.
  exists Sample.two_spaces, ""%string. split; [reflexivity|].
  unfold spec_ExtentRegex. cbn [sequence].
  exists "RW"%string, ("  1 FLAT " ++ Sample.quoted "a.vmdk")%string.
  split; [reflexivity|]. split.
  { left. exists "R"%string, "W"%string. split; [reflexivity|].
    split; apply lang_Lit; reflexivity. }
  exists "  "%string, ("1 FLAT " ++ Sample.quoted "a.vmdk")%string.
  split; [reflexivity|]. split.
  { apply lang_Plus_Class. split; [discriminate | reflexivity]. }
  exists "1"%string, (" FLAT " ++ Sample.quoted "a.vmdk")%string.
  split; [reflexivity|]. split.
  { apply lang_Plus_Class. split; [discriminate | reflexivity]. }
  exists " "%string, ("FLAT " ++ Sample.quoted "a.vmdk")%string.
  split; [reflexivity|]. split.
  { apply lang_Plus_Class. split; [discriminate | reflexivity]. }
  exists "FLAT"%string, (" " ++ Sample.quoted "a.vmdk")%string.
  split; [reflexivity|]. split.
  { apply lang_Plus_Class. split; [discriminate | reflexivity]. }
  exists " "%string, (Sample.quoted "a.vmdk").
  split; [reflexivity|]. split.
  { apply lang_Plus_Class. split; [discriminate | reflexivity]. }
  exists (String dquote ""), ("a.vmdk" ++ String dquote "")%string.
  split; [reflexivity|]. split; [apply lang_Lit; reflexivity|].
  exists "a.vmdk"%string, (String dquote "").
  split; [reflexivity|]. split.
  { apply lang_Plus_Class. split; [discriminate | reflexivity]. }
  exists (String dquote ""), ""%string.
  split; [reflexivity|]. split; [apply lang_Lit; reflexivity|].
  right. reflexivity.
Qed.

(** C9 as stated fails, both ways. A line with two spaces after the access
    mode matches the anchored expression of the specification, and the parser takes
    it for the end of the extent list. A line with text before the access
    mode does not match the anchored expression, and the parser adds its
    extent. *)
Lemma anchored_regex_disagrees :
  (prefix_match spec_ExtentRegex Sample.two_spaces
   /\ step Sample.GetSparseExtent Sample.opener Sample.in_extents Sample.two_spaces
      = Ok (set_state Sample.in_extents INIT))
  /\ (~ prefix_match spec_ExtentRegex Sample.leading_text
      /\ exists p',
           step Sample.GetSparseExtent Sample.opener Sample.in_extents
             Sample.leading_text = Ok p'
           /\ state p' = Extents
           /\ map TotalSize (p_extents p') = [512]).
Proof.
  split; [split|split].
  - exact two_spaces_match_spec.
  - vm_compute. reflexivity.
  - intros (m & post & Hsplit & Hm).
    destruct (spec_match_starts_with_R m Hm) as (r & ->).
    vm_compute in Hsplit. discriminate.
  - eexists. split; [vm_compute; reflexivity|].
    split; vm_compute; reflexivity.
Qed.

(** C9 on a line with text before the access mode and on a line with two
    spaces after it. *)
Lemma extent_line_matching_witness :
  contains_match ExtentRegex (Str.TrimSpace Sample.leading_text)
  /\ step Sample.GetSparseExtent Sample.opener Sample.in_extents Sample.leading_text
     = add_extent Sample.GetSparseExtent Sample.opener Sample.in_extents
         (FindStringSubmatch (Str.TrimSpace Sample.leading_text))
  /\ (~ contains_match ExtentRegex (Str.TrimSpace Sample.two_spaces)
      /\ step Sample.GetSparseExtent Sample.opener Sample.in_extents Sample.two_spaces
         = Ok (set_state Sample.in_extents INIT)).
Proof.
  assert (Hhdr1 : no_header (Str.TrimSpace Sample.leading_text))
    by (repeat split; vm_compute; reflexivity).
  assert (Hhdr2 : no_header (Str.TrimSpace Sample.two_spaces))
    by (repeat split; vm_compute; reflexivity).
  destruct (extent_line_matching Sample.GetSparseExtent Sample.opener
              Sample.in_extents Sample.leading_text eq_refl Hhdr1)
    as (Hiff1 & _ & Hyes1).
  destruct (extent_line_matching Sample.GetSparseExtent Sample.opener
              Sample.in_extents Sample.two_spaces eq_refl Hhdr2)
    as (Hiff2 & Hno2 & _).
  assert (Hc1 : contains_match ExtentRegex (Str.TrimSpace Sample.leading_text)).
  { apply Hiff1. vm_compute. discriminate. }
  assert (Hc2 : ~ contains_match ExtentRegex (Str.TrimSpace Sample.two_spaces)).
  { intros H. apply Hiff2 in H. apply H. vm_compute. reflexivity. }
  split; [exact Hc1|]. split; [exact (proj1 (Hyes1 Hc1))|].
  split; [exact Hc2 | exact (Hno2 Hc2)].
Defined.

(** ** Remarks *)

(** On a [FLAT] line that declares no sector offset, [parser/context.go]
    hands the empty group to [ParseInt], which panics; the variant that
    knows no settings takes the offset 0. *)
Lemma flat_without_offset :
  Sample.open Sample.no_offset = Panic "Invalid integer in descriptor: "
  /\ exists ctx,
       Sample.open_permissive Sample.no_offset = Ok ctx
       /\ map TotalSize (extents ctx) = [512]
       /\ map (fun e => match e with
                        | Flat f => Offset (flat_header f)
                        | _ => -1
                        end) (extents ctx) = [0].
Proof.
  split; [vm_compute; reflexivity|].
  eexists. split; [vm_compute; reflexivity|].
  split; vm_compute; reflexivity.
Qed.

(** ** The further properties on sample disks *)

Lemma small_disk_normalized : normalized Sample.small_disk.
Proof.
  unfold normalized. cbn. unfold FlatExtent_VirtualOffset, FlatExtent_TotalSize. cbn.
  unfold Int64.max_int. repeat split; lia.
Qed.

Lemma small_disk_serves :
  Forall2 serves (extents Sample.small_disk) Sample.small_bytes.
Proof.
  repeat constructor.
  - apply (flat_serves (Sample.flat "a.vmdk" [x01; x02; x03; x04] 0 4)
             [x01; x02; x03; x04]); vm_compute; congruence.
  - apply (flat_serves (Sample.flat "b.vmdk" [x05; x06; x07; x08] 4 4)
             [x05; x06; x07; x08]); vm_compute; congruence.
Qed.

Lemma overlapping_within_disk : within_disk Sample.overlapping.
Proof.
  split; [vm_compute; discriminate|].
  intros e [<-|[<-|[]]]; vm_compute; repeat split; discriminate.
Qed.

(** X3 on [Sample.gapped]: one null extent of three sectors. *)
Lemma normalize_fills_trailing_gap_witness :
  extents (normalizeExtents Sample.gapped)
  = [Flat (Sample.flat "a.vmdk" Sample.file_a 0 512);
     Null {| null_offset := 512; null_total_size := 1536 |};
     Flat (Sample.flat "b.vmdk" Sample.file_b 2048 512)]
  /\ contiguous 0 (extents (normalizeExtents Sample.gapped))
  /\ sum_sizes (extents (normalizeExtents Sample.gapped)) = 2560.
Proof.
  refine (normalize_fills_trailing_gap Sample.gapped
            [Flat (Sample.flat "a.vmdk" Sample.file_a 0 512)]
            (Flat (Sample.flat "b.vmdk" Sample.file_b 2048 512)) _ _ _ _ _).
  - reflexivity.
  - cbn. unfold FlatExtent_VirtualOffset, FlatExtent_TotalSize. cbn. repeat split; lia.
  - vm_compute. reflexivity.
  - vm_compute. discriminate.
  - vm_compute. discriminate.
Defined.

(** X4 on [Sample.gapped_twice]: the second null extent starts at 1024,
    the sum of the two sizes before it, and ends where the third extent
    starts; the second extent ends at 2560. *)
Lemma normalize_lags_after_gap_witness :
  extents (normalizeExtents Sample.gapped_twice)
  = [Flat (Sample.flat "a.vmdk" Sample.file_a 0 512);
     Null {| null_offset := 512; null_total_size := 1536 |};
     Flat (Sample.flat "b.vmdk" Sample.file_b 2048 512);
     Null {| null_offset := 1024; null_total_size := 1536 |};
     Flat (Sample.flat "a.vmdk" Sample.file_a 2560 512)]
  /\ ~ contiguous 0 (extents (normalizeExtents Sample.gapped_twice)).
Proof.
  refine (normalize_lags_after_gap Sample.gapped_twice
            [Flat (Sample.flat "a.vmdk" Sample.file_a 0 512)]
            (Flat (Sample.flat "b.vmdk" Sample.file_b 2048 512))
            (Flat (Sample.flat "a.vmdk" Sample.file_a 2560 512)) _ _ _ _ _ _).
  - reflexivity.
  - cbn. unfold FlatExtent_VirtualOffset, FlatExtent_TotalSize. cbn. repeat split; lia.
  - vm_compute. reflexivity.
  - vm_compute. discriminate.
  - vm_compute. reflexivity.
  - vm_compute. discriminate.
Defined.

(** X1 on a context without extents. *)
Lemma lookup_never_panics_witness :
  getExtentForOffset (mkVMDKContext NewVMDKConfig (FileReader []) [] 0) 5 = Err EOF.
Proof.
  apply (proj1 (proj2 (proj2
    (lookup_never_panics (mkVMDKContext NewVMDKConfig (FileReader []) [] 0) 5)))).
  reflexivity.
Defined.

(** X11 on a line of the descriptor section. *)
Lemma parser_fails_only_on_extent_lines_witness :
  exists p',
    (forall gse opn,
       step gse opn (mkParse Descriptor NewVMDKConfig [] 0) "version=2" = Ok p')
    /\ p_extents p' = [] /\ p_total_size p' = 0.
Proof.
  apply (proj1 (parser_fails_only_on_extent_lines Sample.GetSparseExtent Sample.opener
                  (mkParse Descriptor NewVMDKConfig [] 0) "version=2")).
  discriminate.
Defined.

(** X5 on [Sample.small_disk]: a read across the two extents. *)
Lemma read_at_image_witness :
  VMDKContext_ReadAt Sample.small_disk [xff; xff; xff; xff] 2
  = Returns ([x03; x04; x05; x06], 4, None)
  /\ VMDKContext_ReadAt Sample.small_disk [xff; xff; xff; xff] 6
     = Returns ([x07; x08; xff; xff], 2, None).
Proof.
  split.
  - refine (proj1 (proj2 (read_at_image Sample.small_disk Sample.small_bytes
                            [xff; xff; xff; xff] 2
                            small_disk_normalized small_disk_serves _)) _).
    + vm_compute. split; discriminate.
    + vm_compute. discriminate.
  - refine (proj1 (read_at_image Sample.small_disk Sample.small_bytes
                     [xff; xff; xff; xff] 6
                     small_disk_normalized small_disk_serves _)).
    vm_compute. split; discriminate.
Defined.

(** X6 on [Sample.small_disk]: three bytes, then two, and the five at
    once. *)
Lemma read_at_composes_witness :
  exists r1 r2,
    VMDKContext_ReadAt Sample.small_disk [xff; xff; xff] 1 = Returns (r1, 3, None)
    /\ VMDKContext_ReadAt Sample.small_disk [xff; xff] 4 = Returns (r2, 2, None)
    /\ VMDKContext_ReadAt Sample.small_disk [xff; xff; xff; xff; xff] 1
       = Returns (r1 ++ r2, 5, None).
Proof.
  refine (read_at_composes Sample.small_disk Sample.small_bytes
            [xff; xff; xff] [xff; xff] 1
            small_disk_normalized small_disk_serves _ _).
  - lia.
  - vm_compute. discriminate.
Defined.

(** X7 on [Sample.overlapping], whose extents overlap. *)
Lemma read_at_stays_in_bounds_witness :
  exists b n err,
    VMDKContext_ReadAt Sample.overlapping [xff; xff; xff; xff; xff; xff; xff; xff; xff] 1
    = Returns (b, n, err)
    /\ 0 <= n <= 9
    /\ n <= 8 - 1
    /\ length b = 9%nat
    /\ err <> Some EOF.
Proof.
  destruct (read_at_stays_in_bounds Sample.overlapping
              [xff; xff; xff; xff; xff; xff; xff; xff; xff] 1
              overlapping_within_disk ltac:(vm_compute; split; discriminate))
    as (b & n & err & Hread & Hn & Hend & Hlen & Herr & _).
  exists b, n, err. repeat split; try assumption; apply Hn.
Defined.

(** X8 on [Sample.leading_text]. *)
Lemma extent_line_groups_witness :
  FindStringSubmatch Sample.leading_text
  = ["RW 1 FLAT " ++ Sample.quoted "a.vmdk" ++ " 0"; "RW"; "1"; "FLAT"; "a.vmdk"; "0"]%string
  /\ exists pre post,
       (Sample.leading_text
        = pre ++ group (FindStringSubmatch Sample.leading_text) 0 ++ post)%string.
Proof.
  split; [vm_compute; reflexivity|].
  refine (proj2 (proj2 (proj2 (proj2 (proj2 (proj2 (proj2
    (extent_line_groups Sample.leading_text (FindStringSubmatch Sample.leading_text)
       eq_refl _)))))))).
  vm_compute. discriminate.
Defined.

(** X9 on [Sample.leading_text], whose sector count is 1. *)
Lemma matched_count_parses_witness :
  exists v,
    0 <= v
    /\ digits_value (group (FindStringSubmatch Sample.leading_text) 2) 0 = Some v
    /\ (v < 2 ^ 63 ->
        ParseInt (group (FindStringSubmatch Sample.leading_text) 2) = Ok v
        /\ Permissive.parseInt (group (FindStringSubmatch Sample.leading_text) 2) = Ok v)
    /\ (2 ^ 63 <= v ->
        ParseInt (group (FindStringSubmatch Sample.leading_text) 2)
        = Panic ("Invalid integer in descriptor: "
                 ++ group (FindStringSubmatch Sample.leading_text) 2)
        /\ exists err,
             Permissive.parseInt (group (FindStringSubmatch Sample.leading_text) 2)
             = Err err).
Proof.
  refine (matched_count_parses Sample.leading_text
            (FindStringSubmatch Sample.leading_text) eq_refl _).
  vm_compute. discriminate.
Defined.

(** X10 on a line of the disk data base. *)
Lemma descriptor_setting_witness :
  field "ddb.adapterType"
    (saveDescriptorSetting ("ddb.adapterType = " ++ Sample.quoted "ide") NewVMDKConfig)
  = Some "ide"%string
  /\ field "version"
       (saveDescriptorSetting ("ddb.adapterType = " ++ Sample.quoted "ide") NewVMDKConfig)
     = field "version" NewVMDKConfig.
Proof.
  destruct (descriptor_setting "ddb.adapterType " (" " ++ Sample.quoted "ide")
              NewVMDKConfig eq_refl) as (Hset & Hframe & _).
  split.
  - apply Hset. vm_compute. tauto.
  - apply (Hframe "version"%string). vm_compute. discriminate.
Defined.

Lemma not_a_disk_prologue :
  open_prologue (FileReader (list_byte_of_string Sample.not_a_disk))
    (Z.of_nat (String.length Sample.not_a_disk))
  = Ok (INIT, [Sample.not_a_disk]).
Proof. vm_compute. reflexivity. Qed.

(** X12 on [Sample.not_a_disk]: a file that is no descriptor is opened as
    an empty disk. *)
Lemma open_without_extent_section_witness :
  exists ctx,
    Sample.open Sample.not_a_disk = Ok ctx
    /\ extents ctx = [] /\ Size ctx = 0
    /\ VMDKContext_ReadAt ctx [xff] 0 = Returns ([xff], 0, None).
Proof.
  destruct (open_without_extent_section Sample.GetSparseExtent Sample.opener
              (FileReader (list_byte_of_string Sample.not_a_disk))
              (Z.of_nat (String.length Sample.not_a_disk))
              INIT [Sample.not_a_disk] not_a_disk_prologue)
    as (ctx & _ & Hopen & He & Hs & Hread & _).
  - repeat constructor.
  - exists ctx. split; [exact Hopen|]. split; [exact He|]. split; [exact Hs|].
    apply Hread.
Defined.

Lemma missing_file_line_reached :
  reaches Sample.GetSparseExtent Sample.opener
    (FileReader (list_byte_of_string Sample.missing_file))
    (Z.of_nat (String.length Sample.missing_file))
    Sample.in_extents ("RW 1 VMFS " ++ Sample.quoted "c.vmdk" ++ " 0") [""%string].
Proof.
  exists INIT, ["# Extent description"%string].
  split; [vm_compute; reflexivity | vm_compute; reflexivity].
Qed.

(** X13 on [Sample.missing_file]: the error is the opener's, not that of
    the kind. *)
Lemma opener_error_comes_first_witness :
  Sample.open Sample.missing_file
  = Err (ErrMsg "open c.vmdk: no such file or directory").
Proof.
  refine (proj2 (proj1
    (opener_error_comes_first Sample.GetSparseExtent Sample.opener _ _ Sample.in_extents
       ("RW 1 VMFS " ++ Sample.quoted "c.vmdk" ++ " 0") [""%string]
       ["RW 1 VMFS " ++ Sample.quoted "c.vmdk" ++ " 0"; "RW"; "1"; "VMFS"; "c.vmdk"; "0"]%string
       missing_file_line_reached _ _ _ _)
    (ErrMsg "open c.vmdk: no such file or directory") _)).
  - reflexivity.
  - repeat split; vm_compute; reflexivity.
  - vm_compute. reflexivity.
  - discriminate.
  - vm_compute. reflexivity.
Defined.

Lemma sparse_line_reached :
  reaches Sample.eight_sectors Sample.opener
    (FileReader (list_byte_of_string Sample.sparse))
    (Z.of_nat (String.length Sample.sparse))
    Sample.in_extents Sample.sparse_line [""%string].
Proof.
  exists INIT, ["# Extent description"%string].
  split; [vm_compute; reflexivity | vm_compute; reflexivity].
Qed.

(** X14 on [Sample.sparse_line]: the extent has the eight sectors of its
    header, whatever the line declares. *)
Lemma sparse_extent_line_witness :
  step Sample.eight_sectors Sample.opener Sample.in_extents Sample.sparse_line
  = Ok (mkParse Extents NewVMDKConfig
          [Sparse {| sparse_offset := 0;
                     sparse_total_size := 4096;
                     sparse_filename := "a.vmdk";
                     sparse_closer := Some (log_closer "a.vmdk");
                     sparse_read := reader_at (FileReader Sample.file_a);
                     sparse_scratch := reader_scratch (FileReader Sample.file_a) |}]
          4096).
Proof.
  refine (proj1
    (sparse_extent_line Sample.eight_sectors Sample.opener _ _ Sample.in_extents
       Sample.sparse_line [""%string]
       [Sample.sparse_line; "RW"; "9223372036854775808"; "SPARSE"; "a.vmdk"; ""]%string
       (FileReader Sample.file_a) (Some (log_closer "a.vmdk"))
       sparse_line_reached _ _ _ _ _ _)
    {| sparse_offset := 0;
       sparse_total_size := 4096;
       sparse_filename := "";
       sparse_closer := None;
       sparse_read := reader_at (FileReader Sample.file_a);
       sparse_scratch := reader_scratch (FileReader Sample.file_a) |} _).
  - reflexivity.
  - repeat split; vm_compute; reflexivity.
  - vm_compute. reflexivity.
  - discriminate.
  - reflexivity.
  - vm_compute. reflexivity.
  - reflexivity.
Defined.

Lemma sample_opener_logging : logging Sample.opener.
Proof.
  intros name rd cl. unfold Sample.opener.
  destruct (String.eqb name "a.vmdk"); [intros [= <- <-]; reflexivity|].
  destruct (String.eqb name "b.vmdk"); [intros [= <- <-]; reflexivity|].
  discriminate.
Qed.

Lemma sample_calm : calm Sample.GetSparseExtent Sample.opener.
Proof.
  split.
  - intros rd msg. discriminate.
  - intros name msg. unfold Sample.opener.
    destruct (String.eqb name "a.vmdk"); [discriminate|].
    destruct (String.eqb name "b.vmdk"); discriminate.
Qed.

(** X15 on the descriptor [Sample.two_flat]. *)
Lemma close_releases_opened_files_witness :
  snd (VMDKContext_Close Sample.two_flat_ctx []) = ["a.vmdk"; "b.vmdk"]%string.
Proof.
  rewrite (proj1 (close_releases_opened_files Sample.GetSparseExtent Sample.opener
                    (FileReader (list_byte_of_string Sample.two_flat))
                    (Z.of_nat (String.length Sample.two_flat))
                    Sample.two_flat_ctx [] sample_opener_logging two_flat_opened)).
  vm_compute. reflexivity.
Defined.

Lemma no_offset_panics :
  GetVMDKContext Sample.GetSparseExtent Sample.opener
    (FileReader (list_byte_of_string Sample.no_offset))
    (Z.of_nat (String.length Sample.no_offset))
  = Panic "Invalid integer in descriptor: ".
Proof. vm_compute. reflexivity. Qed.

(** X16 on [Sample.no_offset], a flat extent line without an offset. *)
Lemma open_panics_only_on_size_and_numbers_witness :
  4 <= Z.of_nat (String.length Sample.no_offset)
  /\ exists s, "Invalid integer in descriptor: "%string
               = ("Invalid integer in descriptor: " ++ s)%string
               /\ no_int64 s.
Proof.
  destruct (open_panics_only_on_size_and_numbers Sample.GetSparseExtent Sample.opener
              (FileReader (list_byte_of_string Sample.no_offset))
              (Z.of_nat (String.length Sample.no_offset))
              "Invalid integer in descriptor: " sample_calm no_offset_panics)
    as [(Hneg & _) | [(Hshort & _) | Hnum]].
  - exfalso. revert Hneg. vm_compute. discriminate.
  - exfalso. destruct Hshort as (_ & Hlt). revert Hlt. vm_compute. discriminate.
  - exact Hnum.
Defined.

(** X17 on [Sample.huge_count]: the variant returns an error. *)
Lemma permissive_open_never_panics_witness :
  0 <= Z.of_nat (String.length Sample.huge_count)
  /\ forall msg, Sample.open_permissive Sample.huge_count <> Panic msg.
Proof.
  assert (Hsize : 0 <= Z.of_nat (String.length Sample.huge_count))
    by (vm_compute; discriminate).
  split; [exact Hsize|].
  exact (proj1 (permissive_open_never_panics Sample.GetSparseExtent Sample.opener
                  (FileReader (list_byte_of_string Sample.huge_count))
                  (Z.of_nat (String.length Sample.huge_count)) sample_calm Hsize)).
Defined.

Lemma embedded_prologue :
  open_prologue (FileReader (list_byte_of_string Sample.embedded))
    (Z.of_nat (String.length Sample.embedded))
  = Ok (KDMV, ["KDMV"; "# Disk DescriptorFile"; "version=1"; ""]%string).
Proof. vm_compute. reflexivity. Qed.

(** X18 on [Sample.embedded]. *)
Lemma magic_number_is_KDMV_witness :
  first_bytes (FileReader (list_byte_of_string Sample.embedded))
    (Z.of_nat (String.length Sample.embedded))
  = [x4b; x44; x4d; x56].
Proof.
  refine (proj1 (proj1 (magic_number_is_KDMV _ _ KDMV _ embedded_prologue)) eq_refl).
Defined.

Lemma two_flat_over_files :
  Forall2 flat_over (extents Sample.two_flat_ctx) [Sample.file_a; Sample.file_b].
Proof.
  assert (He : extents Sample.two_flat_ctx
               = [Flat {| flat_reader := FileReader Sample.file_a;
                          flat_header := {| Reader := FileReader Sample.file_a;
                                            Offset := 0 |};
                          flat_total_size := 512;
                          flat_offset := 0;
                          flat_filename := "a.vmdk";
                          flat_closer := Some (log_closer "a.vmdk") |};
                  Flat {| flat_reader := FileReader Sample.file_b;
                          flat_header := {| Reader := FileReader Sample.file_b;
                                            Offset := 512 |};
                          flat_total_size := 512;
                          flat_offset := 512;
                          flat_filename := "b.vmdk";
                          flat_closer := Some (log_closer "b.vmdk") |}])
    by (vm_compute; reflexivity).
  rewrite He.
  repeat constructor; cbn [flat_over flat_reader flat_header flat_total_size Offset];
    repeat split; vm_compute; congruence.
Qed.

(** X19 on the descriptor [Sample.two_flat]: four bytes across the two
    files. *)
Lemma opened_flat_disk_reads_files_witness :
  Size Sample.two_flat_ctx = 1024
  /\ VMDKContext_ReadAt Sample.two_flat_ctx [xff; xff; xff; xff] 510
     = Returns ([x01; x01; x02; x02], 4, None).
Proof.
  destruct (opened_flat_disk_reads_files Sample.GetSparseExtent Sample.opener
              (FileReader (list_byte_of_string Sample.two_flat))
              (Z.of_nat (String.length Sample.two_flat))
              Sample.two_flat_ctx [Sample.file_a; Sample.file_b]
              [xff; xff; xff; xff] 510 two_flat_opened two_flat_over_files)
    as (Hsize & Hread).
  - vm_compute. discriminate.
  - lia.
  - vm_compute. discriminate.
  - split.
    + rewrite Hsize. vm_compute. reflexivity.
    + rewrite Hread. vm_compute. reflexivity.
Defined.

Lemma two_flat_other_opened :
  GetVMDKContext Sample.GetSparseExtent Sample.other_opener
    (FileReader (list_byte_of_string Sample.two_flat))
    (Z.of_nat (String.length Sample.two_flat))
  = Ok Sample.two_flat_other.
Proof. vm_compute. reflexivity. Qed.

(** X20 on the descriptor [Sample.two_flat], opened with two openers. *)
Lemma settings_do_not_depend_on_extents_witness :
  config Sample.two_flat_ctx = config Sample.two_flat_other.
Proof.
  exact (settings_do_not_depend_on_extents
           Sample.GetSparseExtent Sample.GetSparseExtent
           Sample.opener Sample.other_opener
           (FileReader (list_byte_of_string Sample.two_flat))
           (Z.of_nat (String.length Sample.two_flat))
           Sample.two_flat_ctx Sample.two_flat_other
           two_flat_opened two_flat_other_opened).
Defined.
